(** * panicparse, package stack: the stack-dump scanner and the root resolver

    A shallow embedding of [stack/context.go]: the line scanner
    ([scanLines], driven by a [bufio.Scanner]), the line recognizers (the
    regular expressions of the file, each written as the matcher it
    denotes), the state machine [scanningState.scan], [parseDump],
    [ParseDump], and the root resolver ([splitPath], [rootedIn],
    [findRoots], [getGOPATHs]).

    Go strings are byte strings: they are modelled by [string], whose
    characters are the 256 values of [ascii].  Go's [int] and [uint64] are
    modelled by [Z] with their ranges written out where the code depends on
    them. *)

From Stdlib Require Import ZArith Ascii String List Bool Lia Sorted.
From stdpp Require Import base option list strings gmap.

Local Open Scope string_scope.
Local Open Scope list_scope.

(** ** Bytes and Go's string primitives *)

Definition TAB : ascii := "009"%char.
Definition LF : ascii := "010"%char.
Definition CR : ascii := "013"%char.

Definition tab : string := String TAB EmptyString.
Definition nl : string := String LF EmptyString.
Definition crnl : string := String CR (String LF EmptyString).

Abbreviation len := String.length.

Definition isEmpty (s : string) : bool :=
  match s with EmptyString => true | _ => false end.

(** [s[n:]] *)
Fixpoint sliceFrom (n : nat) (s : string) : string :=
  match n, s with
  | O, _ => s
  | S k, EmptyString => EmptyString
  | S k, String _ s' => sliceFrom k s'
  end.

(** [s[:n]] *)
Fixpoint sliceTo (n : nat) (s : string) : string :=
  match n, s with
  | O, _ => EmptyString
  | S k, EmptyString => EmptyString
  | S k, String c s' => String c (sliceTo k s')
  end.

(** [strings.HasPrefix(s, p)] *)
Fixpoint HasPrefix (s p : string) {struct p} : bool :=
  match p, s with
  | EmptyString, _ => true
  | String _ _, EmptyString => false
  | String b p', String a s' => Ascii.eqb a b && HasPrefix s' p'
  end.

(** [strings.HasSuffix(s, suf)] *)
Definition HasSuffix (s suf : string) : bool :=
  (len suf <=? len s)%nat && String.eqb (sliceFrom (len s - len suf) s) suf.

(** [bytes.IndexByte(data, c)], [None] for -1 *)
Fixpoint IndexByte (s : string) (c : ascii) : option nat :=
  match s with
  | EmptyString => None
  | String a s' =>
      if Ascii.eqb a c then Some O
      else match IndexByte s' c with Some i => Some (S i) | None => None end
  end.

(** [strings.LastIndexByte(s, c)], [None] for -1 *)
Fixpoint LastIndexByte (s : string) (c : ascii) : option nat :=
  match s with
  | EmptyString => None
  | String a s' =>
      match LastIndexByte s' c with
      | Some i => Some (S i)
      | None => if Ascii.eqb a c then Some O else None
      end
  end.

(** [strings.Count(s, string(c))] for a one-byte separator *)
Fixpoint CountByte (s : string) (c : ascii) : nat :=
  match s with
  | EmptyString => O
  | String a s' => (if Ascii.eqb a c then 1 else 0) + CountByte s' c
  end.

(** [strings.Split(s, sep)] for a non-empty separator: the pieces between
    the leftmost non-overlapping occurrences of [sep].  [skip] counts the
    bytes of an occurrence still to be passed over. *)
Fixpoint SplitGo (sep : string) (skip : nat) (acc s : string) : list string :=
  match s with
  | EmptyString => [acc]
  | String c s' =>
      match skip with
      | S k => SplitGo sep k acc s'
      | O =>
          if HasPrefix s sep
          then acc :: SplitGo sep (len sep - 1) EmptyString s'
          else SplitGo sep O (acc +:+ String c EmptyString) s'
      end
  end.

Definition Split (s sep : string) : list string := SplitGo sep O EmptyString s.

(** [strings.Join(parts, sep)] *)
Fixpoint Join (parts : list string) (sep : string) : string :=
  match parts with
  | [] => EmptyString
  | [p] => p
  | p :: rest => p +:+ sep +:+ Join rest sep
  end.

(** [strings.TrimLeft(s, cutset)] with the cutset given as a predicate *)
Fixpoint TrimLeft (inCutset : ascii -> bool) (s : string) : string :=
  match s with
  | EmptyString => EmptyString
  | String c s' => if inCutset c then TrimLeft inCutset s' else s
  end.

(** [strings.Replace(s, old, new, -1)] for one-byte [old] and [new] *)
Fixpoint ReplaceByte (s : string) (old new : ascii) : string :=
  match s with
  | EmptyString => EmptyString
  | String c s' =>
      String (if Ascii.eqb c old then new else c) (ReplaceByte s' old new)
  end.

(** The longest prefix of [s] whose bytes satisfy [p], and the rest. *)
Fixpoint span (p : ascii -> bool) (s : string) : string * string :=
  match s with
  | EmptyString => (EmptyString, EmptyString)
  | String c s' =>
      if p c then let '(a, b) := span p s' in (String c a, b)
      else (EmptyString, s)
  end.

Definition stripPrefix (p s : string) : option string :=
  if HasPrefix s p then Some (sliceFrom (len p) s) else None.

Definition byteIn (lo hi : ascii) (c : ascii) : bool :=
  (nat_of_ascii lo <=? nat_of_ascii c)%nat && (nat_of_ascii c <=? nat_of_ascii hi)%nat.

Definition isDigit (c : ascii) : bool := byteIn "0" "9" c.
Definition isHexLower (c : ascii) : bool := isDigit c || byteIn "a" "f" c.
Definition isSpaceTab (c : ascii) : bool := Ascii.eqb c " " || Ascii.eqb c TAB.
Definition isSpace (c : ascii) : bool := Ascii.eqb c " ".
Definition notNL (c : ascii) : bool := negb (Ascii.eqb c LF).

(** Every byte of [s] satisfies [p]. *)
Fixpoint allBytes (p : ascii -> bool) (s : string) : bool :=
  match s with
  | EmptyString => true
  | String c s' => p c && allBytes p s'
  end.

(** ** strconv *)

(** Errors of the package and of the libraries it calls.  A constructor
    stands for one [fmt.Errorf] format of the source and carries the string
    the message quotes (before [strings.TrimSpace], which only affects how
    the message prints). *)
Inductive error : Type :=
  | ErrSyntax
  | ErrRange
  | ErrInconsistentIndentation (trimmed prefix : string)
  | ErrExpectedFuncAfterHeader (got : string)
  | ErrExpectedFileAfterFunc (got : string)
  | ErrExpectedFileAfterCreated (got : string)
  | ErrExpectedEmptyAfterUnavailable (got : string)
  | ErrParseAddress (line : string)
  | ErrParseGoroutineID (line : string)
  | ErrExpectedFuncAfterRaceOperation (got : string)
  | ErrExpectedFileAfterRaceFunc (got : string)
  | ErrExpectedEmptyAfterRaceFile (got : string)
  | ErrExpectedFuncOrEndAfterRaceFile (got : string)
  | ErrExpectedOperatorOrGoroutine (got : string)
  | ErrParseInt (line : string)
  | ErrInternal
  | ErrTooLong
  | ErrRead (msg : string).

Definition maxUint64 : Z := 18446744073709551615.
Definition maxInt64 : Z := 9223372036854775807.
Definition minInt64 : Z := -9223372036854775808.

Definition lower (c : ascii) : ascii :=
  if byteIn "A" "Z" c then ascii_of_nat (nat_of_ascii c + 32) else c.

(** The value of a digit byte in bases up to 36. *)
Definition digitVal (c : ascii) : option Z :=
  if isDigit c then Some (Z.of_nat (nat_of_ascii c) - 48)%Z
  else if byteIn "a" "z" (lower c) then Some (Z.of_nat (nat_of_ascii (lower c)) - 87)%Z
  else None.

(** The digit loop of [strconv.ParseUint]: [n] is the value so far. *)
Fixpoint parseDigits (base : Z) (base0 : bool) (n : Z) (s : string)
  : Z * option error :=
  match s with
  | EmptyString => (n, None)
  | String c s' =>
      if Ascii.eqb c "_" && base0 then parseDigits base base0 n s'
      else match digitVal c with
           | None => (0%Z, Some ErrSyntax)
           | Some d =>
               if (base <=? d)%Z then (0%Z, Some ErrSyntax)
               else if (maxUint64 / base + 1 <=? n)%Z then (maxUint64, Some ErrRange)
               else if (maxUint64 <? n * base + d)%Z then (maxUint64, Some ErrRange)
               else parseDigits base base0 (n * base + d)%Z s'
           end
  end.

(** [underscoreOK] of strconv: underscores only between digits, or between
    the base prefix and a digit.  [saw] is the class of the last byte:
    0 for a digit (or the prefix), 1 for an underscore, 2 for anything
    else, 3 at the beginning. *)
Fixpoint underscoreLoop (hex : bool) (saw : nat) (s : string) : bool :=
  match s with
  | EmptyString => negb (saw =? 1)%nat
  | String c s' =>
      if isDigit c || (hex && byteIn "a" "f" (lower c)) then underscoreLoop hex 0 s'
      else if Ascii.eqb c "_" then
        if (saw =? 0)%nat then underscoreLoop hex 1 s' else false
      else if (saw =? 1)%nat then false
      else underscoreLoop hex 2 s'
  end.

Definition underscoreOK (s : string) : bool :=
  let s1 := match s with
            | String c r => if Ascii.eqb c "-" || Ascii.eqb c "+" then r else s
            | EmptyString => s
            end in
  match s1 with
  | String "0" (String p r) =>
      if Ascii.eqb (lower p) "b" || Ascii.eqb (lower p) "o" || Ascii.eqb (lower p) "x"
      then underscoreLoop (Ascii.eqb (lower p) "x") 0 r
      else underscoreLoop false 3 s1
  | _ => underscoreLoop false 3 s1
  end.

(** [strconv.ParseUint(s, 0, 64)]: the base is taken from the prefix. *)
Definition ParseUint0 (s : string) : Z * option error :=
  match s with
  | EmptyString => (0%Z, Some ErrSyntax)
  | String c0 r0 =>
      let '(base, digits) :=
        if Ascii.eqb c0 "0" then
          match r0 with
          | String p r =>
              if (3 <=? len s)%nat && Ascii.eqb (lower p) "b" then (2%Z, r)
              else if (3 <=? len s)%nat && Ascii.eqb (lower p) "o" then (8%Z, r)
              else if (3 <=? len s)%nat && Ascii.eqb (lower p) "x" then (16%Z, r)
              else (8%Z, r0)
          | EmptyString => (8%Z, r0)
          end
        else (10%Z, s) in
      let '(n, err) := parseDigits base true 0%Z digits in
      match err with
      | Some e => (n, Some e)
      | None =>
          if negb (allBytes (fun c => negb (Ascii.eqb c "_")) digits) && negb (underscoreOK s)
          then (0%Z, Some ErrSyntax)
          else (n, None)
      end
  end.

(** The digit loop of [strconv.Atoi] and [strconv.ParseInt] in base 10. *)
Fixpoint decimalDigits (n : Z) (s : string) : option Z :=
  match s with
  | EmptyString => Some n
  | String c s' =>
      if isDigit c then decimalDigits (n * 10 + (Z.of_nat (nat_of_ascii c) - 48))%Z s'
      else None
  end.

(** [strconv.Atoi(s)] on a 64-bit platform: an optional sign and decimal
    digits; out of the range of [int] the nearest bound is returned with a
    range error. *)
Definition Atoi (s : string) : Z * option error :=
  let '(neg, digits) :=
    match s with
    | String c r =>
        if Ascii.eqb c "-" then (true, r)
        else if Ascii.eqb c "+" then (false, r)
        else (false, s)
    | EmptyString => (false, s)
    end in
  if isEmpty digits then (0%Z, Some ErrSyntax)
  else match decimalDigits 0%Z digits with
       | None => (0%Z, Some ErrSyntax)
       | Some n =>
           let v := if neg then (- n)%Z else n in
           if (maxInt64 <? v)%Z then (maxInt64, Some ErrRange)
           else if (v <? minInt64)%Z then (minInt64, Some ErrRange)
           else (v, None)
       end.

(** ** The data model

    The types of the package are declared in another of its files; the
    records below have the fields that [context.go] reads and writes. *)

(** Modelled from the spec: [Arg], an unsigned 64-bit value as printed.
    Its [Name], which the naming step attaches, is not carried. *)
Record Arg : Type := mkArg { Value : Z }.

Module Args.
(** Modelled from the spec: [Args], the values in order and whether the
    runtime elided the rest. *)
Record t : Type := mk { Values : list Arg; Elided : bool }.
Definition zero : t := mk [] false.
End Args.

(** Modelled from the spec: [Func], the raw signature text. *)
Record Func : Type := mkFunc { Raw : string }.

(** Modelled from the spec: [Call], with the path as printed and the line.
    [LocalSrcPath] and [IsStdlib], which the location step attaches, are
    not carried. *)
Record Call : Type := mkCall {
  SrcPath : string;
  Line : Z;
  CallFunc : Func;
  CallArgs : Args.t
}.

Definition zeroCall : Call := mkCall EmptyString 0 (mkFunc EmptyString) Args.zero.

Module Stack.
(** Modelled from the spec: [Stack], the calls in order and the elision
    flag. *)
Record t : Type := mk { Calls : list Call; Elided : bool }.
Definition zero : t := mk [] false.
End Stack.

(** Modelled from the spec: [Signature], with the fields that the header
    of a goroutine sets. *)
Record Signature : Type := mkSignature {
  State : string;
  SleepMin : Z;
  SleepMax : Z;
  Locked : bool
}.

(** Modelled from the spec: [Goroutine], with its signature, id, position
    flag, stack and creation site (the zero [Call] when there is none). *)
Record Goroutine : Type := mkGoroutine {
  Sig : Signature;
  ID : Z;
  First : bool;
  GStack : Stack.t;
  CreatedBy : Call
}.

Definition setCalls (cs : list Call) (g : Goroutine) : Goroutine :=
  mkGoroutine (Sig g) (ID g) (First g) (Stack.mk cs (Stack.Elided (GStack g))) (CreatedBy g).

Definition setStackElided (b : bool) (g : Goroutine) : Goroutine :=
  mkGoroutine (Sig g) (ID g) (First g) (Stack.mk (Stack.Calls (GStack g)) b) (CreatedBy g).

Definition setCreatedBy (c : Call) (g : Goroutine) : Goroutine :=
  mkGoroutine (Sig g) (ID g) (First g) (GStack g) c.

Definition setRaw (raw : string) (c : Call) : Call :=
  mkCall (SrcPath c) (Line c) (mkFunc raw) (CallArgs c).

Definition setLocation (path : string) (num : Z) (c : Call) : Call :=
  mkCall path num (CallFunc c) (CallArgs c).

(** ** The line recognizers

    Each regular expression of the source is written as the matcher it
    denotes under Go's leftmost-first semantics; a match returns the
    captured groups.  [.] matches any byte but a line feed, and [$] only
    the end of the text. *)

Definition lockedToThread : string := "locked to thread".
Definition elided : string := "...additional frames elided...".
Definition raceHeaderFooter : string := "==================".
Definition raceHeader : string := "WARNING: DATA RACE".

(** [reRoutineHeader]: any blanks and tabs (group 1), [goroutine ], one or
    more digits (group 2), [ [], one or more bytes other than a closing
    bracket (group 3), and []:] up to the end of the text. *)
Definition reRoutineHeader (s : string) : option (string * string * string) :=
  let '(ws, r1) := span isSpaceTab s in
  match stripPrefix "goroutine " r1 with
  | None => None
  | Some r2 =>
      let '(ds, r3) := span isDigit r2 in
      if isEmpty ds then None
      else match stripPrefix " [" r3 with
           | None => None
           | Some r4 =>
               let '(st, r5) := span (fun c => negb (Ascii.eqb c "]")) r4 in
               if isEmpty st then None
               else if String.eqb r5 "]:" then Some (ws, ds, st)
               else None
           end
  end.

(** [reMinutes]: one or more digits (group 1) and [ minutes], anchored. *)
Definition reMinutes (s : string) : option string :=
  let '(ds, r) := span isDigit s in
  if isEmpty ds then None
  else if String.eqb r " minutes" then Some ds
  else None.

(** The indentation of [reUnavail] and [reFile] (one tab, or one or more
    blanks) followed by something that starts with a
    byte other than a space: one tab, or all the leading spaces. *)
Definition stripIndent (s : string) : option string :=
  match s with
  | String c r =>
      if Ascii.eqb c TAB then Some r
      else if Ascii.eqb c " " then Some (snd (span isSpace s))
      else None
  | EmptyString => None
  end.

(** [reUnavail]: the indentation and the marker, anchored at the start only. *)
Definition reUnavail (s : string) : bool :=
  match stripIndent s with
  | Some r => HasPrefix r "goroutine running on other thread; stack unavailable"
  | None => false
  end.

(** [reCreated]: [created by ] and one or more bytes (group 1), anchored. *)
Definition reCreated (s : string) : option string :=
  match stripPrefix "created by " s with
  | Some r => if negb (isEmpty r) && allBytes notNL r then Some r else None
  | None => None
  end.

(** [reFunc]: one or more bytes (group 1), an opening parenthesis, any bytes
    (group 2) and a closing parenthesis, anchored.  The greedy first group ends at the
    last opening parenthesis before the final closing one. *)
Definition reFunc (s : string) : option (string * string) :=
  if allBytes notNL s && HasSuffix s ")" then
    let body := sliceTo (len s - 1) s in
    match LastIndexByte body "(" with
    | Some (S p) => Some (sliceTo (S p) body, sliceFrom (S (S p)) body)
    | _ => None
    end
  else None.

(** A literal [pre] followed by one or more lower-case hexadecimal digits;
    the result is what follows them. *)
Definition hexField (pre s : string) : option string :=
  match stripPrefix pre s with
  | Some r =>
      let '(h, r') := span isHexLower r in
      if isEmpty h then None else Some r'
  | None => None
  end.

(** What [reFile] accepts after the colon: the line number (group 2), an
    optional byte offset [ +0x..], and an optional [ fp=0x.. sp=0x..] with
    an optional [ pc=0x..], up to the end of the text. *)
Definition reFileTail (t : string) : option string :=
  let '(ds, r1) := span isDigit t in
  if isEmpty ds then None
  else
    match (if HasPrefix r1 " +" then hexField " +0x" r1 else Some r1) with
    | None => None
    | Some r2 =>
        if isEmpty r2 then Some ds
        else match hexField " fp=0x" r2 with
             | None => None
             | Some r3 =>
                 match hexField " sp=0x" r3 with
                 | None => None
                 | Some r4 =>
                     if isEmpty r4 then Some ds
                     else match hexField " pc=0x" r4 with
                          | Some r5 => if isEmpty r5 then Some ds else None
                          | None => None
                          end
                 end
             end
    end.

Definition hasExt (ext p : string) : bool :=
  HasSuffix p ext && (len ext <? len p)%nat.

(** Group 1 of [reFile]: [??], [<autogenerated>], or one or more bytes
    followed by [.c], [.go] or [.s]. *)
Definition isSrcPath (p : string) : bool :=
  String.eqb p "??" || String.eqb p "<autogenerated>"
  || (allBytes notNL p && (hasExt ".c" p || hasExt ".go" p || hasExt ".s" p)).

(** The path after an indentation of blanks, one of which is already
    consumed: the greedy repetition takes a further blank first and gives
    it back only when the rest does not match. *)
Fixpoint pathAfterBlanks (s : string) : option string :=
  match s with
  | String c s' =>
      if Ascii.eqb c " " then
        match pathAfterBlanks s' with
        | Some p => Some p
        | None => if isSrcPath s then Some s else None
        end
      else if isSrcPath s then Some s else None
  | EmptyString => None
  end.

(** [reFile]: the indentation, the path (group 1), a colon and what
    [reFileTail] accepts (the line number is group 2).  What follows the
    separating colon holds no colon, so the separator is the last colon of
    the text. *)
Definition reFile (s : string) : option (string * string) :=
  match LastIndexByte s ":" with
  | None => None
  | Some i =>
      match reFileTail (sliceFrom (S i) s) with
      | None => None
      | Some ds =>
          match sliceTo i s with
          | String c r =>
              if Ascii.eqb c TAB then
                if isSrcPath r then Some (r, ds) else None
              else if Ascii.eqb c " " then
                match pathAfterBlanks r with
                | Some p => Some (p, ds)
                | None => None
                end
              else None
          | EmptyString => None
          end
      end
  end.

(** [reRaceOperationHeader] and [reRacePreviousOperationHeader]: [pre], one
    of the two kinds (group 1), [ at ], an address [0x..] (group 2),
    [ by goroutine ], digits (group 3) and a colon, anchored. *)
Definition raceOperationHeader (pre k1 k2 s : string)
  : option (string * string * string) :=
  match stripPrefix pre s with
  | None => None
  | Some r0 =>
      match (if HasPrefix r0 k1 then Some (k1, sliceFrom (len k1) r0)
             else if HasPrefix r0 k2 then Some (k2, sliceFrom (len k2) r0)
             else None) with
      | None => None
      | Some (kind, r1) =>
          match stripPrefix " at 0x" r1 with
          | None => None
          | Some r2 =>
              let '(h, r3) := span isHexLower r2 in
              if isEmpty h then None
              else match stripPrefix " by goroutine " r3 with
                   | None => None
                   | Some r4 =>
                       let '(ds, r5) := span isDigit r4 in
                       if isEmpty ds then None
                       else if String.eqb r5 ":" then Some (kind, "0x" +:+ h, ds)
                       else None
                   end
          end
      end
  end.

Definition reRaceOperationHeader : string -> option (string * string * string) :=
  raceOperationHeader EmptyString "Read" "Write".

Definition reRacePreviousOperationHeader : string -> option (string * string * string) :=
  raceOperationHeader "Previous " "read" "write".

(** [reRaceGoroutine]: [Goroutine ], digits (group 1), [ (running)] or
    [ (finished)] (group 2) and [ created at:], anchored. *)
Definition reRaceGoroutine (s : string) : option (string * string) :=
  match stripPrefix "Goroutine " s with
  | None => None
  | Some r1 =>
      let '(ds, r2) := span isDigit r1 in
      if isEmpty ds then None
      else if String.eqb r2 " (running) created at:" then Some (ds, "running")
      else if String.eqb r2 " (finished) created at:" then Some (ds, "finished")
      else None
  end.

(** ** parseFunc and parseFile *)

(** The loop of [parseFunc] over the fields of the argument list. *)
Fixpoint parseArgs (items : list string) (a : Args.t) : Args.t * bool :=
  match items with
  | [] => (a, true)
  | x :: rest =>
      if String.eqb x "..." then parseArgs rest (Args.mk (Args.Values a) true)
      else if isEmpty x then (a, true)
      else match ParseUint0 x with
           | (v, None) =>
               parseArgs rest (Args.mk (Args.Values a ++ [mkArg v]) (Args.Elided a))
           | (_, Some _) => (a, false)
           end
  end.

(** [parseFunc(c, line)]: whether the line is a function call, the call as
    the function leaves it, and the error. *)
Definition parseFunc (c : Call) (line : string) : bool * Call * option error :=
  match reFunc line with
  | Some (name, args) =>
      let '(a, ok) := parseArgs (Split args ", ") (CallArgs c) in
      let c' := mkCall (SrcPath c) (Line c) (mkFunc name) a in
      (true, c', if ok then None else Some (ErrParseInt line))
  | None => (false, c, None)
  end.

(** [parseFile(c, line)] *)
Definition parseFile (c : Call) (line : string) : bool * Call * option error :=
  match reFile line with
  | Some (path, ds) =>
      match Atoi ds with
      | (_, Some _) => (true, c, Some (ErrParseInt line))
      | (num, None) => (true, setLocation path num c, None)
      end
  | None => (false, c, None)
  end.

(** ** The state machine *)

Inductive state : Type :=
  | normal
  | betweenRoutine
  | gotRoutineHeader
  | gotFunc
  | gotCreated
  | gotFileFunc
  | gotFileCreated
  | gotUnavail
  | gotRaceHeader1
  | gotRaceHeader
  | gotRaceOperationHeader
  | gotRaceOperationFunc
  | gotRaceOperationFile
  | gotRaceGoroutineHeader
  | gotRaceGoroutineFunc
  | gotRaceGoroutineFile
  | betweenRaces.

Record raceOp : Type := mkRaceOp { write : bool; addr : Z; id : Z }.

Record scanningState : Type := mkScanningState {
  raceDetectionEnabled : bool;
  goroutines : list Goroutine;
  st : state;
  prefix : string;
  races : list raceOp
}.

(** [scanningState{}] *)
Definition zeroState : scanningState :=
  mkScanningState false [] normal EmptyString [].

Definition setState (x : state) (s : scanningState) : scanningState :=
  mkScanningState (raceDetectionEnabled s) (goroutines s) x (prefix s) (races s).

Definition setPrefix (p : string) (s : scanningState) : scanningState :=
  mkScanningState (raceDetectionEnabled s) (goroutines s) (st s) p (races s).

Definition setGoroutines (gs : list Goroutine) (s : scanningState) : scanningState :=
  mkScanningState (raceDetectionEnabled s) gs (st s) (prefix s) (races s).

Definition setRaces (rs : list raceOp) (s : scanningState) : scanningState :=
  mkScanningState (raceDetectionEnabled s) (goroutines s) (st s) (prefix s) rs.

(** What one call of [scan] does: the state it leaves, the text and the
    error it returns; or a run-time panic (a nil [cur] dereferenced, or an
    empty [Calls] indexed). *)
Inductive scanResult : Type :=
  | Scanned (s : scanningState) (out : string) (err : option error)
  | ScanPanic.

(** [cur] points to the last goroutine: a write through it replaces the
    last element of [s.goroutines]. *)
Definition cur (s : scanningState) : option Goroutine := last (goroutines s).

Definition storeCur (g : Goroutine) (s : scanningState) : scanningState :=
  setGoroutines (<[pred (length (goroutines s)) := g]> (goroutines s)) s.

Definition storeLastCall (c : Call) (g : Goroutine) : Goroutine :=
  setCalls (<[pred (length (Stack.Calls (GStack g))) := c]> (Stack.Calls (GStack g))) g.

Definition appendCall (c : Call) (g : Goroutine) : Goroutine :=
  setCalls (Stack.Calls (GStack g) ++ [c]) g.

(** The loop of [scan] over the modifiers of a goroutine header, from the
    second item on. *)
Fixpoint headerModifiers (items : list string) (sleep : Z) (locked : bool)
  : Z * bool :=
  match items with
  | [] => (sleep, locked)
  | x :: rest =>
      if String.eqb x lockedToThread then headerModifiers rest sleep true
      else match reMinutes x with
           | Some ds => headerModifiers rest (fst (Atoi ds)) locked
           | None => headerModifiers rest sleep locked
           end
  end.

(** The goroutine that a header line starts. *)
Definition newGoroutine (idn : Z) (descr : string) (first : bool) : Goroutine :=
  let items := Split descr ", " in
  let '(sleep, locked) := headerModifiers (tail items) 0%Z false in
  mkGoroutine (mkSignature (hd EmptyString items) sleep sleep locked)
    idn first Stack.zero zeroCall.

(** The end of the cases [normal] and [betweenRoutine], after the header
    test failed. *)
Definition notHeader (s : scanningState) (line trimmed : string) : scanResult :=
  if raceDetectionEnabled s && String.eqb trimmed raceHeaderFooter
  then Scanned (setState gotRaceHeader1 s) EmptyString None
  else Scanned (setPrefix EmptyString (setState normal s)) line None.

(** The cases [gotRaceHeader] and [betweenRaces] on an operation header. *)
Definition raceOperation (s : scanningState) (trimmed : string)
    (m : string * string * string) (writeKind : string) : scanResult :=
  let '(kind, a, ds) := m in
  match ParseUint0 a with
  | (_, Some _) => Scanned s EmptyString (Some (ErrParseAddress trimmed))
  | (av, None) =>
      match Atoi ds with
      | (_, Some _) => Scanned s EmptyString (Some (ErrParseGoroutineID trimmed))
      | (idn, None) =>
          Scanned (setState gotRaceOperationHeader
                     (setRaces (races s ++ [mkRaceOp (String.eqb kind writeKind) av idn]) s))
            EmptyString None
      end
  end.

(** The [switch] of [scan]: [line] is the line as scanned, [trimmed] the
    line without its terminator and without the block's indentation. *)
Definition scanSwitch (s : scanningState) (line trimmed : string) : scanResult :=
  match st s with
  | normal | betweenRoutine =>
      match reRoutineHeader trimmed with
      | Some (ws, ds, descr) =>
          match Atoi ds with
          | (idn, None) =>
              let g := newGoroutine idn descr (Nat.eqb (length (goroutines s)) 0) in
              Scanned (setPrefix ws (setState gotRoutineHeader
                         (setGoroutines (goroutines s ++ [g]) s)))
                EmptyString None
          | (_, Some _) => notHeader s line trimmed
          end
      | None => notHeader s line trimmed
      end

  | gotRoutineHeader =>
      if reUnavail trimmed then
        match cur s with
        | None => ScanPanic
        | Some g =>
            Scanned (setState gotUnavail
                       (storeCur (setCalls [setLocation "<unavailable>" 0 zeroCall] g) s))
              EmptyString None
        end
      else
        match parseFunc zeroCall trimmed with
        | (true, c, err) =>
            match cur s with
            | None => ScanPanic
            | Some g => Scanned (setState gotFunc (storeCur (appendCall c g) s)) EmptyString err
            end
        | (false, _, _) =>
            Scanned s EmptyString (Some (ErrExpectedFuncAfterHeader trimmed))
        end

  | gotFunc =>
      match cur s with
      | None => ScanPanic
      | Some g =>
          match last (Stack.Calls (GStack g)) with
          | None => ScanPanic
          | Some c0 =>
              match parseFile c0 trimmed with
              | (_, _, Some e) => Scanned s EmptyString (Some e)
              | (false, _, None) =>
                  Scanned s EmptyString (Some (ErrExpectedFileAfterFunc trimmed))
              | (true, c, None) =>
                  Scanned (setState gotFileFunc (storeCur (storeLastCall c g) s))
                    EmptyString None
              end
          end
      end

  | gotCreated =>
      match cur s with
      | None => ScanPanic
      | Some g =>
          match parseFile (CreatedBy g) trimmed with
          | (_, _, Some e) => Scanned s EmptyString (Some e)
          | (false, _, None) =>
              Scanned s EmptyString (Some (ErrExpectedFileAfterCreated trimmed))
          | (true, c, None) =>
              Scanned (setState gotFileCreated (storeCur (setCreatedBy c g) s))
                EmptyString None
          end
      end

  | gotFileFunc =>
      match reCreated trimmed with
      | Some raw =>
          match cur s with
          | None => ScanPanic
          | Some g =>
              Scanned (setState gotCreated
                         (storeCur (setCreatedBy (setRaw raw (CreatedBy g)) g) s))
                EmptyString None
          end
      | None =>
          if String.eqb elided trimmed then
            match cur s with
            | None => ScanPanic
            | Some g => Scanned (storeCur (setStackElided true g) s) EmptyString None
            end
          else
            match parseFunc zeroCall trimmed with
            | (true, c, err) =>
                match cur s with
                | None => ScanPanic
                | Some g =>
                    Scanned (setState gotFunc (storeCur (appendCall c g) s)) EmptyString err
                end
            | (false, _, _) =>
                if isEmpty trimmed
                then Scanned (setState betweenRoutine s) EmptyString None
                else Scanned (setPrefix EmptyString (setState normal s)) line None
            end
      end

  | gotFileCreated =>
      if isEmpty trimmed
      then Scanned (setState betweenRoutine s) EmptyString None
      else Scanned (setPrefix EmptyString (setState normal s)) line None

  | gotUnavail =>
      if isEmpty trimmed then Scanned (setState betweenRoutine s) EmptyString None
      else
        match reCreated trimmed with
        | Some raw =>
            match cur s with
            | None => ScanPanic
            | Some g =>
                Scanned (setState gotCreated
                           (storeCur (setCreatedBy (setRaw raw (CreatedBy g)) g) s))
                  EmptyString None
            end
        | None =>
            Scanned s EmptyString (Some (ErrExpectedEmptyAfterUnavailable trimmed))
        end

  | gotRaceHeader1 =>
      if String.eqb raceHeader trimmed
      then Scanned (setState gotRaceHeader s) EmptyString None
      else Scanned (setState normal s) line None

  | gotRaceHeader =>
      match reRaceOperationHeader trimmed with
      | Some m => raceOperation s trimmed m "Write"
      | None => Scanned (setState normal s) line None
      end

  | gotRaceOperationHeader =>
      match parseFunc zeroCall trimmed with
      | (true, _, err) => Scanned (setState gotRaceOperationFunc s) EmptyString err
      | (false, _, _) =>
          Scanned s EmptyString (Some (ErrExpectedFuncAfterRaceOperation trimmed))
      end

  | gotRaceGoroutineHeader =>
      match parseFunc zeroCall (TrimLeft isSpaceTab trimmed) with
      | (true, c, err) =>
          match cur s with
          | None => ScanPanic
          | Some g =>
              Scanned (setState gotRaceGoroutineFunc (storeCur (appendCall c g) s))
                EmptyString err
          end
      | (false, _, _) =>
          Scanned s EmptyString (Some (ErrExpectedFuncAfterRaceOperation trimmed))
      end

  | gotRaceOperationFunc =>
      match parseFile zeroCall trimmed with
      | (_, _, Some e) => Scanned s EmptyString (Some e)
      | (false, _, None) =>
          Scanned s EmptyString (Some (ErrExpectedFileAfterRaceFunc trimmed))
      | (true, _, None) => Scanned (setState gotRaceOperationFile s) EmptyString None
      end

  | gotRaceGoroutineFunc =>
      match cur s with
      | None => ScanPanic
      | Some g =>
          match last (Stack.Calls (GStack g)) with
          | None => ScanPanic
          | Some c0 =>
              match parseFile c0 trimmed with
              | (_, _, Some e) => Scanned s EmptyString (Some e)
              | (false, _, None) =>
                  Scanned s EmptyString (Some (ErrExpectedFileAfterRaceFunc trimmed))
              | (true, c, None) =>
                  Scanned (setState gotRaceGoroutineFile (storeCur (storeLastCall c g) s))
                    EmptyString None
              end
          end
      end

  | gotRaceOperationFile =>
      if isEmpty trimmed then Scanned (setState betweenRaces s) EmptyString None
      else Scanned s EmptyString (Some (ErrExpectedEmptyAfterRaceFile trimmed))

  | gotRaceGoroutineFile =>
      if isEmpty trimmed then Scanned (setState betweenRaces s) EmptyString None
      else if String.eqb trimmed raceHeaderFooter
      then Scanned (setState normal s) EmptyString None
      else
        match parseFunc zeroCall (TrimLeft isSpaceTab trimmed) with
        | (true, _, err) => Scanned (setState gotRaceGoroutineFunc s) EmptyString err
        | (false, _, _) =>
            Scanned s EmptyString (Some (ErrExpectedFuncOrEndAfterRaceFile trimmed))
        end

  | betweenRaces =>
      match reRacePreviousOperationHeader trimmed with
      | Some m => raceOperation s trimmed m "write"
      | None =>
          match reRaceGoroutine trimmed with
          | Some (ds, descr) =>
              match Atoi ds with
              | (_, Some _) => Scanned s EmptyString (Some (ErrParseGoroutineID trimmed))
              | (idn, None) =>
                  let g := mkGoroutine (mkSignature descr 0 0 false) idn
                             (Nat.eqb (length (goroutines s)) 0) Stack.zero zeroCall in
                  Scanned (setState gotRaceGoroutineHeader
                             (setGoroutines (goroutines s ++ [g]) s))
                    EmptyString None
              end
          | None =>
              Scanned s EmptyString (Some (ErrExpectedOperatorOrGoroutine trimmed))
          end
      end
  end.

(** The line without its terminator ([Some]), or [None] for a line that
    has none. *)
Definition trimEOL (line : string) : option string :=
  if HasSuffix line crnl then Some (sliceTo (len line - 2) line)
  else if HasSuffix line nl then Some (sliceTo (len line - 1) line)
  else None.

(** The first part of [scan]: what becomes of the line before the
    [switch].  A line without terminator is returned as it is in the state
    [normal]; a non-empty line that lacks the block's indentation is an
    error; otherwise the [switch] receives the line without terminator and
    indentation. *)
Inductive lineKind : Type :=
  | Passthrough
  | BadIndent (trimmed : string)
  | Body (trimmed : string).

Definition lineBody (s : scanningState) (line : string) : lineKind :=
  match trimEOL line, st s with
  | None, normal => Passthrough
  | t, _ =>
      let trimmed := match t with Some x => x | None => line end in
      if negb (isEmpty trimmed) && negb (isEmpty (prefix s)) then
        if negb (HasPrefix trimmed (prefix s)) then BadIndent trimmed
        else Body (sliceFrom (len (prefix s)) trimmed)
      else Body trimmed
  end.

(** [scanningState.scan(line)] *)
Definition scan (s : scanningState) (line : string) : scanResult :=
  match lineBody s line with
  | Passthrough => Scanned s line None
  | BadIndent trimmed =>
      Scanned (setPrefix EmptyString (setState normal s)) EmptyString
        (Some (ErrInconsistentIndentation trimmed (prefix s)))
  | Body trimmed => scanSwitch s line trimmed
  end.

(** ** The line scanner *)

(** [bufio.MaxScanTokenSize] *)
Definition MaxScanTokenSize : Z := 64 * 1024.

(** [scanLines(data, atEOF)]: the advance, the token ([None] for nil) and
    the error. *)
Definition scanLines (data : string) (atEOF : bool)
  : nat * option string * option error :=
  if atEOF && Nat.eqb (len data) 0 then (O, None, None)
  else
    match IndexByte data LF with
    | Some i => (i + 1, Some (sliceTo (i + 1) data), None)
    | None =>
        if atEOF then (len data, Some data, None)
        else if (MaxScanTokenSize <=? Z.of_nat (len data))%Z
        then (len data, Some data, None)
        else (O, None, None)
    end.

(** The input stream: the bytes it delivers, and the error its [Read]
    reports after them ([None] for [io.EOF]). *)
Record Reader : Type := mkReader { data : string; rerr : option error }.

(** One call of [bufio.Scanner.Scan]: a token and the input left after it,
    or the end of the scan with what [scanner.Err()] then returns. *)
Inductive scanOutcome : Type :=
  | Token (tok : string) (unread : string)
  | ScanEnd (err : option error).

(** [bufio.Scanner.Scan] with a split function: [win] is the part of the
    buffer not yet consumed, [unread] what the reader has still to
    deliver.  The split function is offered the window each time it has
    grown (here by one byte per [Read]); the window never exceeds the
    maximal buffer size, and asking for more when it is full is
    [ErrTooLong]; once the reader is exhausted the split function is called
    with [atEOF] set. *)
Fixpoint scannerScan (split : string -> bool -> nat * option string * option error)
    (rerr : option error) (win unread : string) : scanOutcome :=
  match (if isEmpty win then (O, None, None) else split win false) with
  | (_, _, Some e) => ScanEnd (Some e)
  | (adv, Some tok, None) => Token tok (sliceFrom adv win +:+ unread)
  | (_, None, None) =>
      match unread with
      | String c unread' =>
          if (MaxScanTokenSize <=? Z.of_nat (len win))%Z then ScanEnd (Some ErrTooLong)
          else scannerScan split rerr (win +:+ String c EmptyString) unread'
      | EmptyString =>
          match split win true with
          | (_, _, Some e) => ScanEnd (Some e)
          | (adv, Some tok, None) => Token tok (sliceFrom adv win)
          | (_, None, None) => ScanEnd rerr
          end
      end
  end.

(** ** parseDump *)

(** What [parseDump] returns, with the text written to [out]; or a panic
    of [scan]. *)
Inductive dumpResult : Type :=
  | Dumped (gs : list Goroutine) (err : option error) (out : string)
  | DumpPanic (out : string)
  | DumpOutOfFuel.

(** The loop [for scanner.Scan()] of [parseDump].  Every token holds at
    least one byte, so the length of the input bounds the number of
    iterations; [fuel] is that bound. *)
Fixpoint parseDumpLoop (fuel : nat) (rerr : option error) (s : scanningState)
    (unread out : string) : dumpResult :=
  match fuel with
  | O => DumpOutOfFuel
  | S fuel' =>
      match scannerScan scanLines rerr EmptyString unread with
      | Token tok unread' =>
          match scan s tok with
          | ScanPanic => DumpPanic out
          | Scanned s' line err =>
              let out' := out +:+ line in
              match err with
              | Some e => Dumped (goroutines s') (Some e) out'
              | None => parseDumpLoop fuel' rerr s' unread' out'
              end
          end
      | ScanEnd e => Dumped (goroutines s) e out
      end
  end.

Definition parseDump (r : Reader) : dumpResult :=
  parseDumpLoop (S (len (data r))) (rerr r) zeroState (data r) EmptyString.

(** ** The root resolver *)

(** The host: the environment variables and the user database that
    [getGOPATHs] reads, the toolchain root that [runtime.GOROOT()] reports,
    and the regular files that [os.Stat] finds. *)
Record Env : Type := mkEnv {
  envGOPATH : string;
  userCurrentHome : option string;
  envHOME : string;
  runtimeGOROOT : string;
  regularFile : string -> bool
}.

Record Context : Type := mkContext {
  Goroutines : list Goroutine;
  GOROOT : string;
  GOPATHs : option (gmap string string);
  localgoroot : string;
  localgopaths : list string
}.

(** Modelled from the spec: [pathJoin] is declared in another file of the
    package; the spec has the components joined with the separator [/]. *)
Definition pathJoin (parts : list string) : string := Join parts "/".

(** [isFile(p)] *)
Definition isFile (env : Env) (p : string) : bool := regularFile env p.

(** The set of paths of [getFiles], kept sorted: [sort.Strings] orders
    byte-wise. *)
Fixpoint insertFile (f : string) (l : list string) : list string :=
  match l with
  | [] => [f]
  | x :: r =>
      match String.compare f x with
      | Lt => f :: l
      | Eq => l
      | Gt => x :: insertFile f r
      end
  end.

(** [getFiles(goroutines)] *)
Definition getFiles (gs : list Goroutine) : list string :=
  foldr insertFile []
    (concat (map (fun g => map SrcPath (Stack.Calls (GStack g))) gs)).

(** The loop of [splitPath]: [out] is the components so far, [s] the one
    being read.  The source ranges over the runes of [p]; on a path in
    UTF-8 that is the same as ranging over its bytes, since the separator
    is a single byte that no longer encoding contains. *)
Fixpoint splitPathLoop (out : list string) (s p : string) : list string :=
  match p with
  | EmptyString => if isEmpty s then out else out ++ [s]
  | String c p' =>
      if negb (Ascii.eqb c "/")
         || (Nat.eqb (length out) 0 && Nat.eqb (CountByte s "/") (len s))
      then splitPathLoop out (s +:+ String c EmptyString) p'
      else if negb (isEmpty s) then splitPathLoop (out ++ [s]) EmptyString p'
      else splitPathLoop out s p'
  end.

(** [splitPath(p)] *)
Definition splitPath (p : string) : list string :=
  splitPathLoop [] EmptyString p.

(** The loop of [rootedIn] from the drop-count [i], over the [n] counts
    that remain. *)
Fixpoint rootedInFrom (env : Env) (root : string) (parts : list string)
    (i n : nat) : string :=
  match n with
  | O => EmptyString
  | S n' =>
      if isFile env (pathJoin [root; pathJoin (drop i parts)])
      then pathJoin (take i parts)
      else rootedInFrom env root parts (S i) n'
  end.

(** [rootedIn(root, parts)] *)
Definition rootedIn (env : Env) (root : string) (parts : list string) : string :=
  rootedInFrom env root parts 1 (length parts - 1).

(** [hasSrcPrefix(p, s)] *)
Definition hasSrcPrefix (p : string) (m : gmap string string) : bool :=
  existsb (fun kv => HasPrefix p (fst kv +:+ "/src/") || HasPrefix p (fst kv +:+ "/pkg/mod/"))
    (map_to_list m).

(** [r[:len(r)-n]], which panics ([None]) when [r] is shorter than [n]. *)
Definition dropLast (n : nat) (r : string) : option string :=
  if (n <=? len r)%nat then Some (sliceTo (len r - n) r) else None.

(** The search of [findRoots] through [c.localgopaths] for one file: the
    entry to add to [GOPATHs], if any; [None] when a slice panics. *)
Fixpoint findInGopaths (env : Env) (parts : list string) (ls : list string)
  : option (option (string * string)) :=
  match ls with
  | [] => Some None
  | l :: rest =>
      let r := rootedIn env (l +:+ "/src") parts in
      if negb (isEmpty r) then
        match dropLast 4 r with
        | Some k => Some (Some (k, l))
        | None => None
        end
      else
        let r2 := rootedIn env (l +:+ "/pkg/mod") parts in
        if negb (isEmpty r2) then
          match dropLast 8 r2 with
          | Some k => Some (Some (k, l))
          | None => None
          end
        else findInGopaths env parts rest
  end.

(** The body of the loop of [findRoots] for the file [f]: the roots after
    it, [None] when a slice panics. *)
Definition findRootsStep (env : Env) (lgoroot : string) (lgopaths : list string)
    (acc : string * gmap string string) (f : string)
  : option (string * gmap string string) :=
  let '(goroot, gopaths) := acc in
  if negb (isEmpty goroot) && HasPrefix f (goroot +:+ "/src/") then Some acc
  else if hasSrcPrefix f gopaths then Some acc
  else
    let parts := splitPath f in
    let r := if isEmpty goroot then rootedIn env (lgoroot +:+ "/src") parts
             else EmptyString in
    if negb (isEmpty r) then
      match dropLast 4 r with
      | Some k => Some (k, gopaths)
      | None => None
      end
    else
      match findInGopaths env parts lgopaths with
      | None => None
      | Some (Some (k, l)) => Some (goroot, <[k := l]> gopaths)
      | Some None => Some acc
      end.

Fixpoint findRootsLoop (env : Env) (lgoroot : string) (lgopaths : list string)
    (acc : string * gmap string string) (files : list string)
  : option (string * gmap string string) :=
  match files with
  | [] => Some acc
  | f :: rest =>
      match findRootsStep env lgoroot lgopaths acc f with
      | Some acc' => findRootsLoop env lgoroot lgopaths acc' rest
      | None => None
      end
  end.

(** [c.findRoots()]: the context with [GOROOT] and [GOPATHs] set, [None]
    when a slice panics. *)
Definition findRoots (env : Env) (c : Context) : option Context :=
  match findRootsLoop env (localgoroot c) (localgopaths c) (GOROOT c, ∅)
          (getFiles (Goroutines c)) with
  | Some (goroot, gopaths) =>
      Some (mkContext (Goroutines c) goroot (Some gopaths) (localgoroot c) (localgopaths c))
  | None => None
  end.

(** [filepath.SplitList] with the list separator [:]. *)
Definition SplitList (p : string) : list string :=
  if isEmpty p then [] else Split p ":".

Definition lastByte (v : string) : option ascii :=
  match sliceFrom (len v - 1) v with
  | String c _ => Some c
  | EmptyString => None
  end.

(** The loop of [getGOPATHs] over the entries of [GOPATH]. *)
Fixpoint gopathEntries (vs : list string) : list string :=
  match vs with
  | [] => []
  | v :: rest =>
      if negb (isEmpty v) then
        let v1 := ReplaceByte v "\" "/" in
        let v2 := if match lastByte v1 with Some c => Ascii.eqb c "/" | None => false end
                  then sliceTo (len v1 - 1) v1 else v1 in
        v2 :: gopathEntries rest
      else gopathEntries rest
  end.

(** [getGOPATHs()]: [None] when it panics. *)
Definition getGOPATHs (env : Env) : option (list string) :=
  let out := if negb (isEmpty (envGOPATH env))
             then gopathEntries (SplitList (envGOPATH env)) else [] in
  if Nat.eqb (length out) 0 then
    match userCurrentHome env with
    | None =>
        if isEmpty (envHOME env) then None
        else Some [ReplaceByte (envHOME env +:+ "/go") "\" "/"]
    | Some home => Some [ReplaceByte (home +:+ "/go") "\" "/"]
    end
  else Some out.

(** ** ParseDump *)

(** What [ParseDump] does: it returns a context ([None] for nil) and an
    error, or it panics; either way with the text written to [out]. *)
Inductive parseResult : Type :=
  | Returned (c : option Context) (err : option error) (out : string)
  | Panicked (out : string)
  | OutOfFuel.

(** Modelled from the spec: [nameArguments] is declared in another file
    of the package; naming the arguments is outside the core and only
    fills [Arg.Name], which the model does not carry. *)
Definition nameArguments (gs : list Goroutine) : list Goroutine := gs.

(** Modelled from the spec: [updateLocations] is declared in another file
    of the package; the location step attaches the local path and the
    standard-library flag of each call and never changes the printed
    path; the model carries neither of the two fields. *)
Definition updateLocations (goroot localgoroot : string)
    (gopaths : option (gmap string string)) (g : Goroutine) : Goroutine := g.

(** [ParseDump(r, out, guesspaths)] *)
Definition ParseDump (env : Env) (r : Reader) (guesspaths : bool) : parseResult :=
  match parseDump r with
  | DumpOutOfFuel => OutOfFuel
  | DumpPanic out => Panicked out
  | Dumped gs err out =>
      if Nat.eqb (length gs) 0 then Returned None err out
      else
        match getGOPATHs env with
        | None => Panicked out
        | Some lgopaths =>
            let c := mkContext (nameArguments gs) EmptyString None
                       (ReplaceByte (runtimeGOROOT env) "\" "/") lgopaths in
            if guesspaths then
              match findRoots env c with
              | Some c' =>
                  Returned
                    (Some (mkContext
                             (map (updateLocations (GOROOT c') (localgoroot c') (GOPATHs c'))
                                (Goroutines c'))
                             (GOROOT c') (GOPATHs c') (localgoroot c') (localgopaths c')))
                    err out
              | None => Panicked out
              end
            else Returned (Some c) err out
        end
  end.

(** ** The lines of an input and the run of the machine over them *)

(** The tokens that the scanner of [parseDump] delivers. *)
Fixpoint scanTokens (fuel : nat) (rerr : option error) (unread : string)
  : list string :=
  match fuel with
  | O => []
  | S fuel' =>
      match scannerScan scanLines rerr EmptyString unread with
      | Token tok unread' => tok :: scanTokens fuel' rerr unread'
      | ScanEnd _ => []
      end
  end.

Definition inputLines (r : Reader) : list string :=
  scanTokens (S (len (data r))) (rerr r) (data r).


(** The body of the loop of [parseDump] applied to the lines [lines] in
    turn, from the state [s] and with [out] already written: the state
    and the error when the loop stops, and the text written. *)
Inductive runResult : Type :=
  | Ran (s : scanningState) (err : option error) (out : string)
  | RunPanic (out : string).

Fixpoint runLines (s : scanningState) (out : string) (lines : list string)
  : runResult :=
  match lines with
  | [] => Ran s None out
  | l :: rest =>
      match scan s l with
      | ScanPanic => RunPanic out
      | Scanned s' line err =>
          match err with
          | Some e => Ran s' (Some e) (out +:+ line)
          | None => runLines s' (out +:+ line) rest
          end
      end
  end.

(** The calls of [scan] that such a run makes: each with the state it was
    made in and the line it was given. *)
Fixpoint trace (s : scanningState) (lines : list string)
  : list (scanningState * string) :=
  match lines with
  | [] => []
  | l :: rest =>
      (s, l) :: match scan s l with
                | Scanned s' _ None => trace s' rest
                | _ => []
                end
  end.

(** * Notions used to state the properties *)

(** What a token of the scanner is: a line with its line feed, a full buffer
    without line feed, or the unterminated rest of the input. *)
Definition tokenShape (tok rest : string) : Prop :=
  IndexByte tok LF = Some (len tok - 1)
  \/ (IndexByte tok LF = None
      /\ (rest = EmptyString \/ Z.of_nat (len tok) = MaxScanTokenSize)).

(** The concatenation of strings. *)
Definition catAll (ls : list string) : string := foldr String.append EmptyString ls.

(** [parseDump] is the run of the machine over the lines of the input:
    the fuel its loop is given is enough. *)
Definition dumpOfRun (rerr : option error) (x : runResult) : dumpResult :=
  match x with
  | Ran s (Some e) out => Dumped (goroutines s) (Some e) out
  | Ran s None out => Dumped (goroutines s) rerr out
  | RunPanic out => DumpPanic out
  end.

(** The candidate that [rootedIn] tests for the drop-count [i]. *)
Definition candidate (root : string) (parts : list string) (i : nat) : string :=
  pathJoin [root; pathJoin (drop i parts)].

Definition remotePath : string := "/remote/src/pkg/sub/file.go".

Definition callsOf (g : Goroutine) : list Call := Stack.Calls (GStack g).

(** The call that stands for an unavailable stack. *)
Definition unavailableCall : Call :=
  mkCall "<unavailable>" 0 (mkFunc EmptyString) Args.zero.

(** A call read from a function line has a name. *)
Definition realCall (c : Call) : Prop := Raw (CallFunc c) <> EmptyString.

Definition goodCalls (g : Goroutine) : Prop :=
  callsOf g = [unavailableCall] \/ Forall realCall (callsOf g).

Definition hasCalls (g : Goroutine) : Prop := callsOf g <> [].

(** What the state says about the goroutine under construction. *)
Definition curInv (x : state) (g : Goroutine) : Prop :=
  match x with
  | normal | betweenRoutine | gotCreated | gotFileCreated => hasCalls g
  | gotRoutineHeader => callsOf g = []
  | gotFunc | gotFileFunc => hasCalls g /\ Forall realCall (callsOf g)
  | gotUnavail => callsOf g = [unavailableCall]
  | _ => False
  end.

(** The goroutines of a machine that scans without race detection, in the
    state [x]: none yet, outside a block; or the finished ones, each with
    calls, and the one under construction. *)
Inductive invGoroutines : state -> list Goroutine -> Prop :=
  | inv_none : invGoroutines normal []
  | inv_cur (x : state) (gs0 : list Goroutine) (g : Goroutine) :
      Forall goodCalls gs0 -> Forall hasCalls gs0 ->
      goodCalls g -> curInv x g ->
      invGoroutines x (gs0 ++ [g]).

Definition inv (s : scanningState) : Prop :=
  raceDetectionEnabled s = false /\ invGoroutines (st s) (goroutines s).

(** What holds of the goroutines even after the step that failed. *)
Definition weakInv (gs : list Goroutine) : Prop :=
  Forall goodCalls gs
  /\ forall gs0 g, gs = gs0 ++ [g] -> Forall hasCalls gs0.

(** The value of [f] at the goroutine of index [i], [false] when there is
    none. *)
Definition at0 (f : Goroutine -> bool) (gs : list Goroutine) (i : nat) : bool :=
  match gs !! i with Some g => f g | None => false end.

Definition stackElided (g : Goroutine) : bool := Stack.Elided (GStack g).

(** The stack is the single call without a name. *)
Definition isUnavailable (g : Goroutine) : bool :=
  match callsOf g with
  | [c] => isEmpty (Raw (CallFunc c))
  | _ => false
  end.

(** The elision marker is recognized: after the file line of a call. *)
Definition sawElided (s : scanningState) (l : string) : bool :=
  match st s, lineBody s l with
  | gotFileFunc, Body t => String.eqb elided t
  | _, _ => false
  end.

(** The marker of an unavailable stack is recognized: after the header. *)
Definition sawUnavailable (s : scanningState) (l : string) : bool :=
  match st s, lineBody s l with
  | gotRoutineHeader, Body t => reUnavail t
  | _, _ => false
  end.

(** A goroutine header is recognized: outside a block, with an id that
    fits an [int]. *)
Definition sawHeader (s : scanningState) (l : string) : list Z :=
  match st s, lineBody s l with
  | normal, Body t | betweenRoutine, Body t =>
      match reRoutineHeader t with
      | Some (_, ds, _) =>
          match Atoi ds with
          | (idn, None) => [idn]
          | (_, Some _) => []
          end
      | None => []
      end
  | _, _ => []
  end.

(** The text of a line of a block whose header has the indentation [ws]:
    the line without its terminator and without that indentation. *)
Definition blockLine (ws line : string) : option string :=
  match trimEOL line with
  | Some t => if HasPrefix t ws then Some (sliceFrom (len ws) t) else None
  | None => None
  end.

(** A goroutine header: its indentation and the goroutine it starts, the
    first of the dump. *)
Definition headerLine (line : string) : option (string * Goroutine) :=
  match trimEOL line with
  | Some t =>
      match reRoutineHeader t with
      | Some (ws, ds, descr) =>
          match Atoi ds with
          | (idn, None) => Some (ws, newGoroutine idn descr true)
          | (_, Some _) => None
          end
      | None => None
      end
  | None => None
  end.

(** A function line with well-formed arguments, and the call it gives. *)
Definition funcLine (ws line : string) : option Call :=
  match blockLine ws line with
  | Some b =>
      match parseFunc zeroCall b with
      | (true, c, None) => Some c
      | _ => None
      end
  | None => None
  end.

(** A file line, and the call [c] with the location it gives. *)
Definition fileLine (ws line : string) (c : Call) : option Call :=
  match blockLine ws line with
  | Some b =>
      match parseFile c b with
      | (true, c', None) => Some c'
      | _ => None
      end
  | None => None
  end.

(** A function line and its file line. *)
Definition pairCall (ws : string) (p : string * string) : option Call :=
  match funcLine ws (fst p) with
  | Some c => fileLine ws (snd p) c
  | None => None
  end.

(** A creation line and its file line. *)
Definition createdCall (ws : string) (p : string * string) : option Call :=
  match blockLine ws (fst p) with
  | Some b =>
      match reCreated b with
      | Some raw => fileLine ws (snd p) (setRaw raw zeroCall)
      | None => None
      end
  | None => None
  end.

(** The creation site of a block: none, or the one its creation lines give. *)
Definition createdSite (ws : string) (created : option (string * string))
  : option Call :=
  match created with
  | None => Some zeroCall
  | Some p => createdCall ws p
  end.

(** The line is also the marker of an unavailable stack. *)
Definition alsoUnavailable (ws line : string) : bool :=
  match blockLine ws line with
  | Some b => reUnavail b
  | None => false
  end.

(** The line is also a creation line. *)
Definition alsoCreated (ws line : string) : bool :=
  match blockLine ws line with
  | Some b => match reCreated b with Some _ => true | None => false end
  | None => false
  end.

(** No function line of the block is read as something else: the first is
    not the marker of an unavailable stack, the others are not creation
    lines. *)
Definition unambiguous (ws : string) (pairs : list (string * string)) : Prop :=
  match pairs with
  | [] => True
  | p :: rest =>
      alsoUnavailable ws (fst p) = false
      /\ Forall (fun q => alsoCreated ws (fst q) = false) rest
  end.

Definition pairLines (pairs : list (string * string)) : list string :=
  flat_map (fun p => [fst p; snd p]) pairs.

(** The lines of a block. *)
Definition blockLines (h : string) (pairs : list (string * string))
    (created : option (string * string)) (blank : string) : list string :=
  h :: pairLines pairs
    ++ match created with Some p => [fst p; snd p] | None => [] end
    ++ [blank].

(** The event [ev] happened in the trace while the goroutine of index [i]
    was the one under construction. *)
Definition markerAt (ev : scanningState -> string -> bool)
    (tr : list (scanningState * string)) (i : nat) : bool :=
  existsb (fun sl => Nat.eqb (length (goroutines (fst sl))) (S i) && ev (fst sl) (snd sl)) tr.

(** The ids of the headers recognized in the trace, in order. *)
Definition headersOf (tr : list (scanningState * string)) : list Z :=
  flat_map (fun sl => sawHeader (fst sl) (snd sl)) tr.

(** The last line scanned was a goroutine header, or the line after one. *)
Definition stoppedAfterHeader (tr : list (scanningState * string)) : Prop :=
  exists s l, last tr = Some (s, l) /\ (sawHeader s l <> [] \/ st s = gotRoutineHeader).

(** The error of [parseDump]: the one that stopped the machine, or else
    the one of the reader. *)
Definition dumpError (r : Reader) (e : option error) : option error :=
  match e with Some x => Some x | None => rerr r end.

(** What [scan] needs of the goroutines in each state: a last goroutine
    where it writes through [cur], and a last call where it indexes
    [Calls]. *)
Definition safe (s : scanningState) : Prop :=
  match st s with
  | gotRoutineHeader | gotCreated | gotFileFunc | gotUnavail
  | gotRaceGoroutineHeader => goroutines s <> []
  | gotFunc | gotRaceGoroutineFunc | gotRaceGoroutineFile =>
      exists gs0 g, goroutines s = gs0 ++ [g] /\ callsOf g <> []
  | _ => True
  end.

(** The machine before the first line. *)
Definition initialState (rde : bool) : scanningState :=
  mkScanningState rde [] normal EmptyString [].

(** A goroutine as a header line leaves it: no stack and no creation site
    yet, one sleep duration, and numbers that fit an [int]. *)
Definition fresh (g : Goroutine) : Prop :=
  GStack g = Stack.zero /\ CreatedBy g = zeroCall
  /\ SleepMin (Sig g) = SleepMax (Sig g)
  /\ (0 <= SleepMin (Sig g) <= maxInt64)%Z
  /\ (0 <= ID g <= maxInt64)%Z.

(** What one call of [scan] does to the goroutines: nothing, an update of
    the last one that keeps its header, or a new one at the end. *)
Inductive stepShape (gs gs' : list Goroutine) : Prop :=
  | step_same : gs' = gs -> stepShape gs gs'
  | step_update (gs0 : list Goroutine) (g g' : Goroutine) :
      gs = gs0 ++ [g] -> gs' = gs0 ++ [g'] ->
      Sig g' = Sig g -> ID g' = ID g -> First g' = First g ->
      stepShape gs gs'
  | step_new (g : Goroutine) :
      gs' = gs ++ [g] -> First g = Nat.eqb (length gs) 0 -> fresh g ->
      stepShape gs gs'.

(** The states of the race detector. *)
Definition raceState (x : state) : bool :=
  match x with
  | gotRaceHeader1 | gotRaceHeader | gotRaceOperationHeader | gotRaceOperationFunc
  | gotRaceOperationFile | gotRaceGoroutineHeader | gotRaceGoroutineFunc
  | gotRaceGoroutineFile | betweenRaces => true
  | _ => false
  end.

(** The header of a goroutine is well formed: one sleep duration, and
    numbers that fit an [int]. *)
Definition headerInRange (g : Goroutine) : Prop :=
  SleepMin (Sig g) = SleepMax (Sig g)
  /\ (0 <= SleepMin (Sig g) <= maxInt64)%Z
  /\ (0 <= ID g <= maxInt64)%Z.

(** Only the first goroutine of the list is flagged as the first. *)
Definition firstFlags (gs : list Goroutine) : Prop :=
  forall i g, gs !! i = Some g -> First g = Nat.eqb i 0.

(** Two calls of [scan], on the lines [l1] and [l2], do the same: they
    leave the same state and return the same error, and each returns its
    line or both return nothing. *)
Definition sameStep (l1 l2 : string) (r1 r2 : scanResult) : Prop :=
  match r1, r2 with
  | Scanned s1 o1 e1, Scanned s2 o2 e2 =>
      s1 = s2 /\ e1 = e2
      /\ ((o1 = EmptyString /\ o2 = EmptyString) \/ (o1 = l1 /\ o2 = l2))
  | ScanPanic, ScanPanic => True
  | _, _ => False
  end.

(** A carriage return. *)
Definition cr : string := String CR EmptyString.

(** The first byte of [s], if any, does not satisfy [p]. *)
Definition stopsAt (p : ascii -> bool) (s : string) : Prop :=
  match s with
  | EmptyString => True
  | String c _ => p c = false
  end.

(** The byte [x] is not [c]. *)
Definition isNot (c : ascii) (x : ascii) : bool := negb (Ascii.eqb x c).

(** The value of an argument fits a [uint64]. *)
Definition argInRange (a : Arg) : Prop := (0 <= Value a <= maxUint64)%Z.

(** One or more lower-case hexadecimal digits. *)
Definition isHex (h : string) : Prop :=
  h <> EmptyString /\ allBytes isHexLower h = true.

(** The registers that the runtime may print at the end of a file line. *)
Inductive registers : string -> Prop :=
  | regs_none : registers EmptyString
  | regs_fp_sp (h1 h2 : string) :
      isHex h1 -> isHex h2 -> registers (" fp=0x" +:+ h1 +:+ " sp=0x" +:+ h2)
  | regs_fp_sp_pc (h1 h2 h3 : string) :
      isHex h1 -> isHex h2 -> isHex h3 ->
      registers (" fp=0x" +:+ h1 +:+ " sp=0x" +:+ h2 +:+ " pc=0x" +:+ h3).

(** What may follow the line number of a file line: a byte offset, then
    the registers. *)
Inductive fileTail : string -> Prop :=
  | tail_regs (r : string) : registers r -> fileTail r
  | tail_offset (h r : string) :
      isHex h -> registers r -> fileTail (" +0x" +:+ h +:+ r).

(** The indentation of a file line before the path [p]: one tab, or
    blanks, which the path then does not start with. *)
Definition fileIndent (ind p : string) : Prop :=
  ind = tab
  \/ (ind <> EmptyString /\ allBytes isSpace ind = true /\ stopsAt isSpace p).

(** The text between the brackets of a goroutine header, as the runtime
    prints it: the state, then the minutes of sleep, then the lock. *)
Definition headerDescr (state : string) (mins : option string) (locked : bool)
  : string :=
  state
  +:+ match mins with Some m => ", " +:+ m +:+ " minutes" | None => EmptyString end
  +:+ (if locked then ", locked to thread" else EmptyString).

(** A byte of the state of a goroutine: neither a comma nor a closing
    bracket. *)
Definition stateByte (c : ascii) : bool := isNot "," c && isNot "]" c.

(** The sleep duration that the minutes of a header give. *)
Definition sleepOf (mins : option string) : Z :=
  match mins with Some m => fst (Atoi m) | None => 0%Z end.

(** The byte-wise order of Go's strings, strict. *)
Definition strLt (a b : string) : Prop := String.compare a b = Lt.



(** Every value of the map is an entry of the list. *)
Definition valuesIn (ls : list string) (m : gmap string string) : Prop :=
  forall k v, m !! k = Some v -> In v ls.

(** The path holds no backslash. *)
Definition noBackslash (v : string) : Prop := allBytes (isNot "\") v = true.

(** The goroutine with its [First] flag set to [b]. *)
Definition setFirst (b : bool) (g : Goroutine) : Goroutine :=
  mkGoroutine (Sig g) (ID g) b (GStack g) (CreatedBy g).

(** A block of a dump that is not indented: the header, the pairs of a
    function line and a file line, the optional creation lines, and the
    empty line. *)
Record block : Type := mkBlock {
  bHeader : string;
  bPairs : list (string * string);
  bCreated : option (string * string);
  bBlank : string
}.

(** The lines of the block, in order. *)
Definition linesOfBlock (b : block) : list string :=
  blockLines (bHeader b) (bPairs b) (bCreated b) (bBlank b).

(** The block is well formed and [g] is the goroutine that it describes,
    read as the first of a dump. *)
Definition readsAs (b : block) (g : Goroutine) : Prop :=
  exists g0 calls cb,
    headerLine (bHeader b) = Some (EmptyString, g0)
    /\ bPairs b <> []
    /\ Forall2 (fun p c => pairCall EmptyString p = Some c) (bPairs b) calls
    /\ unambiguous EmptyString (bPairs b)
    /\ createdSite EmptyString (bCreated b) = Some cb
    /\ trimEOL (bBlank b) = Some EmptyString
    /\ g = setCreatedBy cb (setCalls calls g0).

(** The goroutines of a dump: all but the first have their [First] flag
    cleared. *)
Definition firstOnly (gs : list Goroutine) : list Goroutine :=
  match gs with
  | [] => []
  | g :: rest => g :: map (setFirst false) rest
  end.

(** The kind of a race operation as the race detector prints it, in the
    first operation and in the previous ones. *)
Definition opKind (previous write : bool) : string :=
  if previous then (if write then "write" else "read")
  else (if write then "Write" else "Read").

(** The header of a race operation: the kind, the address and the id of
    the goroutine. *)
Definition opLine (previous write : bool) (h ds : string) : string :=
  (if previous then "Previous " else EmptyString)
  +:+ opKind previous write +:+ " at 0x" +:+ h +:+ " by goroutine " +:+ ds +:+ ":".

(** The header of the creation stack of a goroutine in a race report. *)
Definition raceGoroutineLine (ds : string) (running : bool) : string :=
  "Goroutine " +:+ ds
  +:+ (if running then " (running) created at:" else " (finished) created at:").

(** A function line of a race report, whose indentation is dropped, and
    the call it gives. *)
Definition raceFuncLine (l : string) : option Call :=
  match trimEOL l with
  | Some t =>
      match parseFunc zeroCall (TrimLeft isSpaceTab t) with
      | (true, c, None) => Some c
      | _ => None
      end
  | None => None
  end.

(** A file line of a race report, and the call [c] with the location it
    gives. *)
Definition raceFileLine (l : string) (c : Call) : option Call :=
  match trimEOL l with
  | Some t =>
      match parseFile c t with
      | (true, c', None) => Some c'
      | _ => None
      end
  | None => None
  end.

(** The frames that follow the first one in the creation stack: each
    function line is recognized and dropped, each file line gives the
    call its location. *)
Fixpoint raceFrames (c : Call) (frames : list (string * string)) : option Call :=
  match frames with
  | [] => Some c
  | p :: rest =>
      match raceFuncLine (fst p) with
      | Some _ =>
          match raceFileLine (snd p) c with
          | Some c' => raceFrames c' rest
          | None => None
          end
      | None => None
      end
  end.

(** ** Sample inputs and hosts *)



(** The machine after a header indented by two blanks and a first call. *)
Definition insideIndentedBlock : scanningState :=
  mkScanningState false
    [mkGoroutine (mkSignature "running" 0 0 false) 1 true
       (Stack.mk [mkCall "/a.go" 1 (mkFunc "main.f") Args.zero] false) zeroCall]
    gotFileFunc "  " [].

Definition headerOnly : Reader := mkReader ("goroutine 1 [running]:" +:+ nl) None.

Definition hostEmptyGopath : Env :=
  mkEnv "::" None EmptyString "/usr/lib/go" (fun _ => false).

Definition remoteGoroutine : Goroutine :=
  mkGoroutine (mkSignature "running" 0 0 false) 1 true
    (Stack.mk [mkCall remotePath 12 (mkFunc "pkg/sub.F") Args.zero] false) zeroCall.

Definition hostWithToolchain : Env :=
  mkEnv "/home/u/go" (Some "/home/u") "/home/u" "/local"
    (fun p => String.eqb p "/local/src/pkg/sub/file.go").

(** A host on which the toolchain root also holds [src/src/pkg/sub/file.go]. *)
Definition hostWithNestedSrc : Env :=
  mkEnv "/home/u/go" (Some "/home/u") "/home/u" "/local"
    (fun p => String.eqb p "/local/src/pkg/sub/file.go"
              || String.eqb p "/local/src/src/pkg/sub/file.go").

Definition callMainF : string := "main.f(0x1)" +:+ nl.
Definition fileMainF : string := tab +:+ "/src/main.go:10 +0x20" +:+ nl.
Definition callMainG : string := "main.g()" +:+ nl.
Definition fileMainG : string := tab +:+ "/src/main.go:20 +0x30" +:+ nl.
Definition header1 : string := "goroutine 1 [running]:" +:+ nl.
Definition elidedLine : string := elided +:+ nl.

(** A block whose elision marker comes last. *)
Definition elidedAtEnd : Reader :=
  mkReader (header1 +:+ callMainF +:+ fileMainF +:+ elidedLine +:+ nl) None.

(** A block with function lines after the elision marker. *)
Definition elidedInTheMiddle : Reader :=
  mkReader (header1 +:+ callMainF +:+ fileMainF +:+ elidedLine
            +:+ callMainG +:+ fileMainG +:+ nl) None.

Definition callF : Call :=
  mkCall "/src/main.go" 10 (mkFunc "main.f") (Args.mk [mkArg 1] false).
Definition callG : Call :=
  mkCall "/src/main.go" 20 (mkFunc "main.g") Args.zero.

Definition running1 (cs : list Call) (el : bool) (created : Call) : Goroutine :=
  mkGoroutine (mkSignature "running" 0 0 false) 1 true (Stack.mk cs el) created.

Definition unavailableLine : string :=
  tab +:+ "goroutine running on other thread; stack unavailable" +:+ nl.
Definition createdLine : string := "created by main.start" +:+ nl.
Definition fileStart : string := tab +:+ "/src/start.go:5 +0x10" +:+ nl.

(** A goroutine without stack, with its creation site. *)
Definition unavailableDump : Reader :=
  mkReader (header1 +:+ unavailableLine +:+ createdLine +:+ fileStart +:+ nl) None.

Definition createdByStart : Call :=
  mkCall "/src/start.go" 5 (mkFunc "main.start") Args.zero.

Definition junkAfterHeader : Reader := mkReader (header1 +:+ "junk" +:+ nl) None.




(** A dump followed by the exit status of the program. *)
Definition dumpThenStatus : Reader :=
  mkReader (header1 +:+ callMainF +:+ fileMainF +:+ nl +:+ "exit status 2" +:+ nl) None.

(** Two goroutines, the second one asleep. *)
Definition twoGoroutines : Reader :=
  mkReader (header1 +:+ callMainF +:+ fileMainF +:+ nl
            +:+ "goroutine 7 [select, 3 minutes]:" +:+ nl +:+ callMainG +:+ fileMainG)
    None.

(** The first two lines of a report of the race detector. *)
Definition raceReportStart : list string :=
  [raceHeaderFooter +:+ nl; raceHeader +:+ nl].

(** A host whose GOPATH holds the package of [remotePath]. *)
Definition hostWithGopath : Env :=
  mkEnv "/home/u/go" (Some "/home/u") "/home/u" "/local"
    (fun p => String.eqb p "/home/u/go/src/pkg/sub/file.go").



(** A running goroutine and one asleep, with its creation site. *)
Definition twoBlocks : list block :=
  [mkBlock header1 [(callMainF, fileMainF)] None nl;
   mkBlock ("goroutine 7 [select, 3 minutes]:" +:+ nl) [(callMainG, fileMainG)]
     (Some (createdLine, fileStart)) nl].

(** The machine between two parts of a race report. *)
Definition insideRaceReport : scanningState :=
  mkScanningState true [] betweenRaces EmptyString [mkRaceOp false 49152 7].

(** * Properties *)

(** ** The recognizers and the parsers on sample lines *)

Example reRoutineHeader_modifiers :
  reRoutineHeader "  goroutine 12 [chan receive, 5 minutes, locked to thread]:"
  = Some ("  ", "12", "chan receive, 5 minutes, locked to thread").
Proof. reflexivity. Qed.

Example reRoutineHeader_needs_state :
  reRoutineHeader "goroutine 1 []:" = None.
Proof. reflexivity. Qed.

Example newGoroutine_modifiers :
  newGoroutine 12 "chan receive, 5 minutes, locked to thread" false
  = mkGoroutine (mkSignature "chan receive" 5 5 true) 12 false Stack.zero zeroCall.
Proof. reflexivity. Qed.

Example reFunc_greedy : reFunc "a(b)(c)" = Some ("a(b)", "c").
Proof. reflexivity. Qed.

Example reFunc_needs_name : reFunc "()" = None.
Proof. reflexivity. Qed.

Example reFile_offset :
  reFile (tab +:+ "/foo/bar/baz.go:116 +0x35") = Some ("/foo/bar/baz.go", "116").
Proof. reflexivity. Qed.

Example reFile_registers :
  reFile (tab +:+ "??:0 +0x1 fp=0xc0 sp=0xb8 pc=0x4") = Some ("??", "0").
Proof. reflexivity. Qed.

Example reFile_last_colon :
  reFile (tab +:+ "a.go:1.go:2") = Some ("a.go:1.go", "2").
Proof. reflexivity. Qed.

(** The greedy blanks give one back when the path would otherwise be a
    bare suffix. *)
Example reFile_backtracks : reFile "   .go:1" = Some (" .go", "1").
Proof. reflexivity. Qed.

Example reFile_needs_indentation : reFile "/a.go:1" = None.
Proof. reflexivity. Qed.

Example ParseUint0_bases :
  ParseUint0 "0x1f" = (31%Z, None) /\ ParseUint0 "017" = (15%Z, None)
  /\ ParseUint0 "1_000" = (1000%Z, None) /\ ParseUint0 "abc" = (0%Z, Some ErrSyntax)
  /\ ParseUint0 "18446744073709551616" = (maxUint64, Some ErrRange).
Proof. repeat split. Qed.

Example Atoi_range :
  Atoi "9223372036854775807" = (maxInt64, None)
  /\ Atoi "9223372036854775808" = (maxInt64, Some ErrRange).
Proof. split; reflexivity. Qed.

Example splitPath_keeps_leading_separator :
  splitPath "/remote/src/pkg/sub/file.go" = ["/remote"; "src"; "pkg"; "sub"; "file.go"]
  /\ splitPath "//a//b/" = ["//a"; "b"].
Proof. split; reflexivity. Qed.

Example getGOPATHs_entries :
  getGOPATHs (mkEnv "/a/:b::c\d" None EmptyString EmptyString (fun _ => false))
  = Some ["/a"; "b"; "c/d"].
Proof. reflexivity. Qed.

(** ** Strings *)

Lemma str_app_cons (c : ascii) (a b : string) : String c a +:+ b = String c (a +:+ b).
Proof. reflexivity. Qed.

Lemma str_app_nil_l (s : string) : EmptyString +:+ s = s.
Proof. reflexivity. Qed.

Lemma str_app_nil_r (s : string) : s +:+ EmptyString = s.
Proof. induction s as [|c s IH]; [reflexivity|]. rewrite str_app_cons, IH. reflexivity. Qed.

Lemma str_app_assoc (a b c : string) : (a +:+ b) +:+ c = a +:+ (b +:+ c).
Proof.
  induction a as [|x a IH]; [reflexivity|].
  rewrite !str_app_cons, IH. reflexivity.
Qed.

Lemma len_app (a b : string) : len (a +:+ b) = len a + len b.
Proof.
  induction a as [|x a IH]; [reflexivity|].
  rewrite str_app_cons. simpl. rewrite IH. reflexivity.
Qed.

Lemma isEmpty_true (s : string) : isEmpty s = true <-> s = EmptyString.
Proof. destruct s; simpl; split; congruence. Qed.

Lemma isEmpty_false (s : string) : isEmpty s = false <-> s <> EmptyString.
Proof. destruct s; simpl; split; congruence. Qed.

Lemma sliceTo_all (s : string) : sliceTo (len s) s = s.
Proof. induction s as [|c s IH]; simpl; [reflexivity|]. rewrite IH. reflexivity. Qed.

Lemma sliceFrom_all (s : string) : sliceFrom (len s) s = EmptyString.
Proof. induction s as [|c s IH]; simpl; [reflexivity|]. exact IH. Qed.

Lemma slice_split (n : nat) (s : string) : sliceTo n s +:+ sliceFrom n s = s.
Proof.
  revert s. induction n as [|n IH]; intros s; [reflexivity|].
  destruct s as [|c s]; [reflexivity|].
  simpl. rewrite str_app_cons, IH. reflexivity.
Qed.

Lemma IndexByte_snoc (w : string) (d c : ascii) :
  IndexByte w c = None ->
  IndexByte (w +:+ String d EmptyString) c
  = if Ascii.eqb d c then Some (len w) else None.
Proof.
  induction w as [|a w IH]; intros H.
  - simpl. destruct (Ascii.eqb d c); reflexivity.
  - rewrite str_app_cons. simpl in *.
    destruct (Ascii.eqb a c); [discriminate|].
    destruct (IndexByte w c); [discriminate|].
    rewrite IH by reflexivity.
    destruct (Ascii.eqb d c); reflexivity.
Qed.

(** ** The scanner *)

Lemma scannerScan_eq split rerr win unread :
  scannerScan split rerr win unread =
  match (if isEmpty win then (O, None, None) else split win false) with
  | (_, _, Some e) => ScanEnd (Some e)
  | (adv, Some tok, None) => Token tok (sliceFrom adv win +:+ unread)
  | (_, None, None) =>
      match unread with
      | String c unread' =>
          if (MaxScanTokenSize <=? Z.of_nat (len win))%Z then ScanEnd (Some ErrTooLong)
          else scannerScan split rerr (win +:+ String c EmptyString) unread'
      | EmptyString =>
          match split win true with
          | (_, _, Some e) => ScanEnd (Some e)
          | (adv, Some tok, None) => Token tok (sliceFrom adv win)
          | (_, None, None) => ScanEnd rerr
          end
      end
  end.
Proof. destruct unread; reflexivity. Qed.

(** A window without line feed and shorter than the buffer gives no
    token before the end of the input. *)
Lemma scanLines_more (win : string) :
  IndexByte win LF = None ->
  (Z.of_nat (len win) < MaxScanTokenSize)%Z ->
  scanLines win false = (O, None, None).
Proof.
  intros Hnl Hlen. unfold scanLines. simpl. rewrite Hnl.
  destruct (Z.leb_spec MaxScanTokenSize (Z.of_nat (len win))); [lia|reflexivity].
Qed.

Lemma scanLines_eof (win : string) :
  win <> EmptyString ->
  IndexByte win LF = None ->
  scanLines win true = (len win, Some win, None).
Proof.
  intros Hne Hnl. unfold scanLines. rewrite Hnl.
  destruct win; [congruence|reflexivity].
Qed.

Lemma scannerScan_scanLines rerr unread : forall win,
  IndexByte win LF = None ->
  (Z.of_nat (len win) < MaxScanTokenSize)%Z ->
  match scannerScan scanLines rerr win unread with
  | Token tok rest =>
      win +:+ unread = tok +:+ rest /\ tok <> EmptyString /\ tokenShape tok rest
  | ScanEnd e => e = rerr /\ win = EmptyString /\ unread = EmptyString
  end.
Proof.
  induction unread as [|c u IH]; intros win Hnl Hlen.
  - rewrite scannerScan_eq.
    replace (if isEmpty win then (O, None, None) else scanLines win false)
      with (O, @None string, @None error)
      by (destruct (isEmpty win); [reflexivity|symmetry; apply scanLines_more; assumption]).
    destruct (isEmpty win) eqn:E.
    + apply isEmpty_true in E. subst win. simpl. auto.
    + apply isEmpty_false in E. rewrite scanLines_eof by assumption.
      rewrite sliceFrom_all. split; [reflexivity|]. split; [assumption|].
      right. split; [assumption|]. left; reflexivity.
  - rewrite scannerScan_eq.
    replace (if isEmpty win then (O, None, None) else scanLines win false)
      with (O, @None string, @None error)
      by (destruct (isEmpty win); [reflexivity|symmetry; apply scanLines_more; assumption]).
    destruct (Z.leb_spec MaxScanTokenSize (Z.of_nat (len win))) as [?|_]; [lia|].
    set (win' := win +:+ String c EmptyString).
    assert (Hlen' : len win' = S (len win)).
    { unfold win'. rewrite len_app. simpl. lia. }
    assert (Hcat : win' +:+ u = win +:+ String c u).
    { unfold win'. rewrite str_app_assoc. reflexivity. }
    assert (Hne : isEmpty win' = false).
    { apply isEmpty_false. intros E. rewrite E in Hlen'. discriminate. }
    pose proof (IndexByte_snoc win c LF Hnl) as Hidx. fold win' in Hidx.
    destruct (Ascii.eqb c LF) eqn:Hc.
    + rewrite scannerScan_eq, Hne. unfold scanLines. cbn [andb]. rewrite Hidx.
      replace (len win + 1) with (len win') by lia.
      rewrite sliceTo_all, sliceFrom_all, str_app_nil_l.
      split; [symmetry; exact Hcat|]. split.
      * intros E. rewrite E in Hne. discriminate.
      * left. rewrite Hidx. f_equal. lia.
    + destruct (Z.ltb_spec (Z.of_nat (len win')) MaxScanTokenSize) as [Hlt|Hge].
      * specialize (IH win' Hidx Hlt). rewrite <- Hcat.
        destruct (scannerScan scanLines rerr win' u); [exact IH|].
        destruct IH as (_ & E & _). rewrite E in Hne. discriminate.
      * rewrite scannerScan_eq, Hne. unfold scanLines. cbn [andb]. rewrite Hidx.
        destruct (Z.leb_spec MaxScanTokenSize (Z.of_nat (len win'))) as [_|?]; [|lia].
        rewrite sliceFrom_all, str_app_nil_l.
        split; [symmetry; exact Hcat|]. split.
        -- intros E. rewrite E in Hne. discriminate.
        -- right. split; [exact Hidx|]. right. lia.
Qed.

Lemma MaxScanTokenSize_pos : (0 < MaxScanTokenSize)%Z.
Proof. reflexivity. Qed.

(** [Scan] on the unread input: a non-empty token that starts the input,
    or the end of the input with the reader's error. *)
Lemma scannerScan_start rerr unread :
  match scannerScan scanLines rerr EmptyString unread with
  | Token tok rest =>
      unread = tok +:+ rest /\ tok <> EmptyString /\ tokenShape tok rest
  | ScanEnd e => e = rerr /\ unread = EmptyString
  end.
Proof.
  pose proof (scannerScan_scanLines rerr unread EmptyString eq_refl MaxScanTokenSize_pos) as H.
  destruct (scannerScan scanLines rerr EmptyString unread); [exact H|].
  destruct H as (? & _ & ?). auto.
Qed.

Lemma scanTokens_cat rerr : forall fuel unread,
  len unread < fuel -> catAll (scanTokens fuel rerr unread) = unread.
Proof.
  induction fuel as [|fuel IH]; intros unread Hf; [lia|].
  simpl. pose proof (scannerScan_start rerr unread) as H.
  destruct (scannerScan scanLines rerr EmptyString unread) as [tok rest|e].
  - destruct H as (Hu & Hne & _). simpl. rewrite IH; [congruence|].
    subst unread. rewrite len_app in Hf. destruct tok; [congruence|simpl in Hf; lia].
  - destruct H as [_ ->]. reflexivity.
Qed.

Lemma parseDumpLoop_runLines rerr : forall fuel s unread out,
  len unread < fuel ->
  parseDumpLoop fuel rerr s unread out
  = dumpOfRun rerr (runLines s out (scanTokens fuel rerr unread)).
Proof.
  induction fuel as [|fuel IH]; intros s unread out Hf; [lia|].
  simpl. pose proof (scannerScan_start rerr unread) as H.
  destruct (scannerScan scanLines rerr EmptyString unread) as [tok rest|e].
  - destruct H as (Hu & Hne & _). simpl.
    destruct (scan s tok) as [s' line [e|]|]; try reflexivity.
    apply IH. subst unread. rewrite len_app in Hf.
    destruct tok; [congruence|simpl in Hf; lia].
  - destruct H as [-> _]. reflexivity.
Qed.

Lemma parseDump_runLines (r : Reader) :
  parseDump r = dumpOfRun (rerr r) (runLines zeroState EmptyString (inputLines r)).
Proof. apply parseDumpLoop_runLines. lia. Qed.

(** ** The machine outside a block *)

Lemma lineBody_no_prefix (s : scanningState) (line t : string) :
  prefix s = EmptyString -> trimEOL line = Some t -> lineBody s line = Body t.
Proof.
  intros Hp Ht. unfold lineBody. rewrite Ht, Hp. simpl.
  rewrite andb_false_r. destruct (st s); reflexivity.
Qed.

Lemma lineBody_unterminated_normal (s : scanningState) (line : string) :
  st s = normal -> trimEOL line = None -> lineBody s line = Passthrough.
Proof. intros Hs Ht. unfold lineBody. rewrite Ht, Hs. reflexivity. Qed.



Lemma inputLines_cat (r : Reader) : catAll (inputLines r) = data r.
Proof. apply scanTokens_cat. lia. Qed.



(** ** Argument lists *)

(** C5. [parseFunc] on [main.f(1, 2, ...)] gives the two arguments 1 and 2
    and an elided list; on [main.f()] no argument and no elision; on
    [main.f(1, )] one argument and no error: the loop over the fields stops
    at an empty field, whatever follows it. *)
Theorem C5_parseFunc_arguments :
  parseFunc zeroCall "main.f(1, 2, ...)"
  = (true, mkCall EmptyString 0 (mkFunc "main.f")
             (Args.mk [mkArg 1; mkArg 2] true), None)
  /\ parseFunc zeroCall "main.f()"
     = (true, mkCall EmptyString 0 (mkFunc "main.f") (Args.mk [] false), None)
  /\ parseFunc zeroCall "main.f(1, )"
     = (true, mkCall EmptyString 0 (mkFunc "main.f") (Args.mk [mkArg 1] false), None)
  /\ Split "1, " ", " = ["1"; EmptyString]
  /\ (forall rest a, parseArgs (EmptyString :: rest) a = (a, true)).
Proof. repeat split. Qed.

(** ** Long and unterminated lines *)

Lemma IndexByte_app_r (a b : string) (c : ascii) (i : nat) :
  IndexByte b c = Some i -> IndexByte (a +:+ b) c <> None.
Proof.
  intros Hb. induction a as [|x a IH]; [rewrite str_app_nil_l; congruence|].
  rewrite str_app_cons. simpl. destruct (Ascii.eqb x c); [discriminate|].
  destruct (IndexByte (a +:+ b) c); [discriminate|congruence].
Qed.

Lemma HasSuffix_split (s suf : string) :
  HasSuffix s suf = true -> s = sliceTo (len s - len suf) s +:+ suf.
Proof.
  unfold HasSuffix. intros H. apply andb_prop in H as [_ H].
  apply String.eqb_eq in H.
  pose proof (slice_split (len s - len suf) s) as E.
  rewrite H in E. symmetry. exact E.
Qed.

Lemma trimEOL_no_LF (line : string) :
  IndexByte line LF = None -> trimEOL line = None.
Proof.
  intros H. unfold trimEOL.
  destruct (HasSuffix line crnl) eqn:E1.
  - apply HasSuffix_split in E1. rewrite E1 in H.
    exfalso. eapply (IndexByte_app_r _ crnl LF 1); [reflexivity|exact H].
  - destruct (HasSuffix line nl) eqn:E2; [|reflexivity].
    apply HasSuffix_split in E2. rewrite E2 in H.
    exfalso. eapply (IndexByte_app_r _ nl LF 0); [reflexivity|exact H].
Qed.

(** C9. [scanLines] never returns an error; bytes without a line feed that
    fill the buffer, or that end the input, come back as one unterminated
    token; the scanner of [parseDump] therefore never ends with
    [ErrTooLong] (only with the reader's own error); and in the state
    [normal] the machine returns such a token as it is, without looking
    at it. *)
Theorem C9_unterminated_chunk :
  (forall data atEOF, snd (scanLines data atEOF) = None)
  /\ (forall data atEOF,
        data <> EmptyString -> IndexByte data LF = None ->
        atEOF = true \/ (MaxScanTokenSize <= Z.of_nat (len data))%Z ->
        scanLines data atEOF = (len data, Some data, None))
  /\ (forall rerr unread,
        match scannerScan scanLines rerr EmptyString unread with
        | Token tok rest =>
            unread = tok +:+ rest /\ tok <> EmptyString /\ tokenShape tok rest
        | ScanEnd e => e = rerr /\ unread = EmptyString
        end)
  /\ (forall s line,
        st s = normal -> IndexByte line LF = None ->
        scan s line = Scanned s line None).
Proof.
  split; [|split; [|split]].
  - intros d atEOF. unfold scanLines.
    destruct (atEOF && Nat.eqb (len d) 0); [reflexivity|].
    destruct (IndexByte d LF); [reflexivity|].
    destruct atEOF; [reflexivity|].
    destruct (MaxScanTokenSize <=? Z.of_nat (len d))%Z; reflexivity.
  - intros d atEOF Hne Hnl [->|Hlen].
    + apply scanLines_eof; assumption.
    + unfold scanLines. rewrite Hnl.
      replace (Nat.eqb (len d) 0) with false by (destruct d; [congruence|reflexivity]).
      rewrite andb_false_r.
      destruct atEOF; [reflexivity|].
      destruct (Z.leb_spec MaxScanTokenSize (Z.of_nat (len d))); [reflexivity|lia].
  - apply scannerScan_start.
  - intros s line Hs Hnl. unfold scan.
    rewrite lineBody_unterminated_normal; [reflexivity|assumption|].
    apply trimEOL_no_LF. assumption.
Qed.

Lemma C9_witness :
  scanLines "exit status 2" true = (13, Some "exit status 2", None)
  /\ scan zeroState "exit status 2" = Scanned zeroState "exit status 2" None.
Proof.
  destruct C9_unterminated_chunk as (_ & Hchunk & _ & Hnormal). split.
  - apply (Hchunk "exit status 2" true); [discriminate|reflexivity|left; reflexivity].
  - apply (Hnormal zeroState "exit status 2"); reflexivity.
Defined.

(** ** Indentation *)


Lemma scan_header_outside (s : scanningState) (hline ht ws ds descr : string) (idn : Z) :
  st s = normal \/ st s = betweenRoutine ->
  prefix s = EmptyString ->
  trimEOL hline = Some ht ->
  reRoutineHeader ht = Some (ws, ds, descr) ->
  Atoi ds = (idn, None) ->
  scan s hline
  = Scanned (mkScanningState (raceDetectionEnabled s)
               (goroutines s ++ [newGoroutine idn descr (Nat.eqb (length (goroutines s)) 0)])
               gotRoutineHeader ws (races s))
      EmptyString None.
Proof.
  intros Hs Hp Ht Hh Ha. unfold scan.
  rewrite (lineBody_no_prefix s hline ht Hp Ht).
  unfold scanSwitch. destruct Hs as [-> | ->]; rewrite Hh, Ha; reflexivity.
Qed.



(** ** The local roots *)

Lemma gopathEntries_empty (vs : list string) :
  Forall (fun v => v = EmptyString) vs -> gopathEntries vs = [].
Proof.
  induction 1 as [|v vs Hv _ IH]; [reflexivity|].
  subst v. simpl. exact IH.
Qed.

(** C10. Whenever [parseDump] found a goroutine, [ParseDump] calls
    [getGOPATHs], whether or not the roots are to be guessed; and
    [getGOPATHs] panics when [GOPATH] has no non-empty entry, the current
    user is unknown and [HOME] is unset: [ParseDump] then panics instead of
    returning. *)
Theorem C10_ParseDump_panics_without_home
    (env : Env) (r : Reader) (guesspaths : bool)
    (gs : list Goroutine) (err : option error) (out : string) :
  parseDump r = Dumped gs err out ->
  gs <> [] ->
  Forall (fun v => v = EmptyString) (SplitList (envGOPATH env)) ->
  userCurrentHome env = None ->
  envHOME env = EmptyString ->
  getGOPATHs env = None /\ ParseDump env r guesspaths = Panicked out.
Proof.
  intros Hd Hgs Hgp Hu Hh.
  assert (E : getGOPATHs env = None).
  { unfold getGOPATHs. rewrite (gopathEntries_empty _ Hgp), Hu, Hh.
    destruct (negb (isEmpty (envGOPATH env))); reflexivity. }
  split; [exact E|].
  unfold ParseDump. rewrite Hd, E.
  destruct gs; [congruence|reflexivity].
Qed.

Lemma C10_witness :
  getGOPATHs hostEmptyGopath = None
  /\ ParseDump hostEmptyGopath headerOnly false = Panicked EmptyString.
Proof.
  apply (C10_ParseDump_panics_without_home hostEmptyGopath headerOnly false
           [newGoroutine 1 "running" true] None EmptyString).
  - reflexivity.
  - discriminate.
  - vm_compute. repeat constructor.
  - reflexivity.
  - reflexivity.
Defined.

Lemma rootedInFrom_first (env : Env) (root : string) (parts : list string) :
  forall n i k,
    k < n ->
    isFile env (candidate root parts (i + k)) = true ->
    (forall j, j < k -> isFile env (candidate root parts (i + j)) = false) ->
    rootedInFrom env root parts i n = pathJoin (take (i + k) parts).
Proof.
  induction n as [|n IH]; intros i k Hk Hfile Hbefore; [lia|].
  simpl. fold (candidate root parts i).
  destruct k as [|k].
  - rewrite Nat.add_0_r in *. rewrite Hfile. reflexivity.
  - rewrite <- (Nat.add_0_r i) at 1. rewrite (Hbefore 0) by lia.
    replace (i + S k) with (S i + k) in * by lia.
    apply IH; [lia|exact Hfile|].
    intros j Hj. replace (S i + j) with (i + S j) by lia. apply Hbefore. lia.
Qed.

Lemma rootedInFrom_none (env : Env) (root : string) (parts : list string) :
  forall n i,
    (forall j, j < n -> isFile env (candidate root parts (i + j)) = false) ->
    rootedInFrom env root parts i n = EmptyString.
Proof.
  induction n as [|n IH]; intros i Hnone; [reflexivity|].
  simpl. fold (candidate root parts i).
  rewrite <- (Nat.add_0_r i) at 1. rewrite (Hnone 0) by lia.
  apply IH. intros j Hj. replace (S i + j) with (i + S j) by lia. apply Hnone. lia.
Qed.

Lemma rootedIn_first (env : Env) (root : string) (parts : list string) (i : nat) :
  1 <= i < length parts ->
  isFile env (candidate root parts i) = true ->
  (forall j, 1 <= j < i -> isFile env (candidate root parts j) = false) ->
  rootedIn env root parts = pathJoin (take i parts).
Proof.
  intros Hi Hfile Hbefore. unfold rootedIn.
  replace i with (1 + (i - 1)) in * by lia.
  apply rootedInFrom_first; [lia|exact Hfile|].
  intros j Hj. apply Hbefore. lia.
Qed.

Lemma rootedIn_none (env : Env) (root : string) (parts : list string) :
  (forall j, 1 <= j < length parts -> isFile env (candidate root parts j) = false) ->
  rootedIn env root parts = EmptyString.
Proof.
  intros Hnone. unfold rootedIn. apply rootedInFrom_none.
  intros j Hj. apply Hnone. lia.
Qed.

Lemma hasSrcPrefix_empty (p : string) : hasSrcPrefix p ∅ = false.
Proof. unfold hasSrcPrefix. rewrite map_to_list_empty. reflexivity. Qed.

(** C6, as the code has it.  When the dump's only source path is
    [/remote/src/pkg/sub/file.go], [src/pkg/sub/file.go] is a regular file
    under the local toolchain root and [src/src/pkg/sub/file.go] is not,
    [findRoots] sets [GOROOT] to [/remote] and leaves [GOPATHs] empty,
    whatever the workspace-root candidates are and whatever files exist
    under them.  In general [rootedIn] returns the components dropped by
    the smallest drop-count, from 1 on, whose remaining components name a
    regular file under the root, and the empty string when there is
    none. *)
Theorem C6_toolchain_root (env : Env) (gs : list Goroutine)
    (local : string) (lgopaths : list string) :
  getFiles gs = [remotePath] ->
  regularFile env (local +:+ "/src/pkg/sub/file.go") = true ->
  regularFile env (local +:+ "/src/src/pkg/sub/file.go") = false ->
  findRoots env (mkContext gs EmptyString None local lgopaths)
  = Some (mkContext gs "/remote" (Some ∅) local lgopaths)
  /\ (forall root parts i,
        1 <= i < length parts ->
        isFile env (candidate root parts i) = true ->
        (forall j, 1 <= j < i -> isFile env (candidate root parts j) = false) ->
        rootedIn env root parts = pathJoin (take i parts))
  /\ (forall root parts,
        (forall j, 1 <= j < length parts ->
                   isFile env (candidate root parts j) = false) ->
        rootedIn env root parts = EmptyString).
Proof.
  intros Hfiles Hin Hnot.
  split; [|split; [apply rootedIn_first|apply rootedIn_none]].
  assert (Hr : rootedIn env (local +:+ "/src") (splitPath remotePath) = "/remote/src").
  { change (splitPath remotePath) with ["/remote"; "src"; "pkg"; "sub"; "file.go"].
    change "/remote/src" with (pathJoin (take 2 ["/remote"; "src"; "pkg"; "sub"; "file.go"])).
    apply (rootedIn_first env _ _ 2).
    - simpl. lia.
    - unfold isFile, candidate, pathJoin. simpl. rewrite str_app_assoc. exact Hin.
    - intros j Hj. assert (j = 1) as -> by lia.
      unfold isFile, candidate, pathJoin. simpl. rewrite str_app_assoc. exact Hnot. }
  unfold findRoots. cbn [Goroutines GOROOT localgoroot localgopaths].
  rewrite Hfiles. cbn [findRootsLoop]. unfold findRootsStep.
  cbn [isEmpty negb andb]. rewrite hasSrcPrefix_empty, Hr. reflexivity.
Qed.

Lemma C6_witness :
  findRoots hostWithToolchain
    (mkContext [remoteGoroutine] EmptyString None "/local" ["/home/u/go"])
  = Some (mkContext [remoteGoroutine] "/remote" (Some ∅) "/local" ["/home/u/go"]).
Proof.
  apply (C6_toolchain_root hostWithToolchain [remoteGoroutine] "/local" ["/home/u/go"]);
    reflexivity.
Defined.

(** C6 as stated fails: [src/pkg/sub/file.go] exists under the toolchain
    root, yet the drop-count 1 already succeeds and [GOROOT] is not
    [/remote]. *)
Lemma C6_counterexample :
  regularFile hostWithNestedSrc ("/local" +:+ "/src/pkg/sub/file.go") = true
  /\ option_map GOROOT
       (findRoots hostWithNestedSrc
          (mkContext [remoteGoroutine] EmptyString None "/local" ["/home/u/go"]))
     = Some "/re"
  /\ String.eqb "/re" "/remote" = false.
Proof. repeat split. Qed.

(** ** The goroutines of a reachable machine *)

Lemma inv_zeroState : inv zeroState.
Proof. split; [reflexivity|constructor]. Qed.

Lemma cur_snoc rde gs0 g x p rs :
  cur (mkScanningState rde (gs0 ++ [g]) x p rs) = Some g.
Proof. unfold cur. simpl. apply last_snoc. Qed.

Lemma insert_last_snoc {A} (l : list A) (a b : A) :
  <[pred (length (l ++ [a])) := b]> (l ++ [a]) = l ++ [b].
Proof.
  rewrite length_app. simpl. rewrite Nat.add_1_r. simpl.
  rewrite insert_app_r_alt by lia. rewrite Nat.sub_diag. reflexivity.
Qed.

Lemma storeCur_snoc rde gs0 g g' x p rs :
  storeCur g' (mkScanningState rde (gs0 ++ [g]) x p rs)
  = mkScanningState rde (gs0 ++ [g']) x p rs.
Proof. unfold storeCur, setGoroutines. simpl. rewrite insert_last_snoc. reflexivity. Qed.

Lemma list_snoc_cases {A} (l : list A) : l = [] \/ exists l' a, l = l' ++ [a].
Proof.
  induction l as [|x l IH] using rev_ind; [left; reflexivity|].
  right. exists l, x. reflexivity.
Qed.

Lemma last_snoc_inv {A} (l : list A) (c : A) :
  last l = Some c -> exists l', l = l' ++ [c].
Proof.
  destruct (list_snoc_cases l) as [->|(l' & a & ->)]; [discriminate|].
  rewrite last_snoc. intros [= ->]. exists l'. reflexivity.
Qed.

Lemma parseFunc_real (c0 c : Call) (line : string) (err : option error) :
  parseFunc c0 line = (true, c, err) -> realCall c.
Proof.
  unfold parseFunc, reFunc, realCall.
  destruct (allBytes notNL line && HasSuffix line ")"); [|discriminate].
  destruct (sliceTo (len line - 1) line) as [|a body]; [discriminate|].
  destruct (LastIndexByte (String a body) "(") as [[|p]|]; try discriminate.
  destruct (parseArgs _ _) as [args ok]. intros [= <- _]. simpl. discriminate.
Qed.

Lemma parseFile_raw (c0 c : Call) (line : string) (b : bool) (err : option error) :
  parseFile c0 line = (b, c, err) -> Raw (CallFunc c) = Raw (CallFunc c0).
Proof.
  unfold parseFile. destruct (reFile line) as [[path ds]|]; [|congruence].
  destruct (Atoi ds) as [num [e|]]; intros [= _ <- _]; reflexivity.
Qed.

Lemma weakInv_snoc (gs0 : list Goroutine) (g : Goroutine) :
  Forall goodCalls gs0 -> Forall hasCalls gs0 -> goodCalls g ->
  weakInv (gs0 ++ [g]).
Proof.
  intros H1 H2 H3. split.
  - apply Forall_app. split; [assumption|]. constructor; [assumption|constructor].
  - intros gs1 g1 E. apply app_inj_tail in E as [<- _]. assumption.
Qed.

Lemma inv_weak (x : state) (gs : list Goroutine) :
  invGoroutines x gs -> weakInv gs.
Proof.
  intros [|x' gs0 g H1 H2 H3 H4].
  - split; [constructor|]. intros gs0 g E. destruct gs0; discriminate.
  - apply weakInv_snoc; assumption.
Qed.

Lemma goodCalls_new (idn : Z) (descr : string) (first : bool) :
  goodCalls (newGoroutine idn descr first).
Proof.
  right. unfold newGoroutine, callsOf.
  destruct (headerModifiers _ _ _). simpl. constructor.
Qed.

Lemma callsOf_new (idn : Z) (descr : string) (first : bool) :
  callsOf (newGoroutine idn descr first) = [].
Proof. unfold newGoroutine, callsOf. destruct (headerModifiers _ _ _). reflexivity. Qed.

Lemma Forall_snoc {A} (P : A -> Prop) (l : list A) (a : A) :
  Forall P l -> P a -> Forall P (l ++ [a]).
Proof. intros H1 H2. apply Forall_app. split; [assumption|]. constructor; [assumption|constructor]. Qed.

Lemma snoc_not_nil {A} (l : list A) (a : A) : l ++ [a] <> [].
Proof. destruct l; discriminate. Qed.

Lemma realCalls_insert_last (cs : list Call) (c0 c : Call) :
  last cs = Some c0 -> Raw (CallFunc c) = Raw (CallFunc c0) ->
  Forall realCall cs ->
  <[pred (length cs) := c]> cs <> [] /\ Forall realCall (<[pred (length cs) := c]> cs).
Proof.
  intros Hl Hraw Hall. apply last_snoc_inv in Hl as [cs' ->].
  rewrite insert_last_snoc. split; [apply snoc_not_nil|].
  apply Forall_app in Hall as [Hall Hc0]. apply Forall_snoc; [assumption|].
  inversion Hc0; subst. unfold realCall in *. congruence.
Qed.

Ltac scanned := eexists _, _, _; split; [reflexivity|]; simpl.

Lemma last_calls_None (g : Goroutine) :
  last (Stack.Calls (GStack g)) = None -> hasCalls g -> False.
Proof. unfold hasCalls, callsOf. intros H%last_None. congruence. Qed.

Create HintDb calls.

Lemma hasCalls_unavailable (g : Goroutine) :
  callsOf g = [unavailableCall] -> hasCalls g.
Proof. unfold hasCalls. intros ->. discriminate. Qed.

Lemma noCalls_real (g : Goroutine) : callsOf g = [] -> Forall realCall (callsOf g).
Proof. intros ->. constructor. Qed.

Lemma goodCalls_real (g : Goroutine) : Forall realCall (callsOf g) -> goodCalls g.
Proof. intros H. right. exact H. Qed.

Lemma goodCalls_unavailable (g : Goroutine) :
  goodCalls (setCalls [setLocation "<unavailable>" 0 zeroCall] g).
Proof. left. reflexivity. Qed.

Lemma real_appendCall (c : Call) (g : Goroutine) :
  realCall c -> Forall realCall (callsOf g) ->
  Forall realCall (callsOf (appendCall c g)).
Proof. intros Hc Hg. apply (Forall_snoc _ _ _ Hg Hc). Qed.

Lemma hasCalls_appendCall (c : Call) (g : Goroutine) : hasCalls (appendCall c g).
Proof. apply snoc_not_nil. Qed.

Lemma real_storeLastCall (c0 c : Call) (t : string) (b : bool) (e : option error)
    (g : Goroutine) :
  last (Stack.Calls (GStack g)) = Some c0 -> parseFile c0 t = (b, c, e) ->
  Forall realCall (callsOf g) ->
  Forall realCall (callsOf (storeLastCall c g)).
Proof.
  intros Hl Hp Hg.
  apply (realCalls_insert_last _ c0 c Hl (parseFile_raw _ _ _ _ _ Hp) Hg).
Qed.

Lemma hasCalls_storeLastCall (c0 c : Call) (t : string) (b : bool) (e : option error)
    (g : Goroutine) :
  last (Stack.Calls (GStack g)) = Some c0 -> parseFile c0 t = (b, c, e) ->
  Forall realCall (callsOf g) ->
  hasCalls (storeLastCall c g).
Proof.
  intros Hl Hp Hg.
  apply (realCalls_insert_last _ c0 c Hl (parseFile_raw _ _ _ _ _ Hp) Hg).
Qed.

Lemma goodCalls_setCreatedBy (c : Call) (g : Goroutine) :
  goodCalls g -> goodCalls (setCreatedBy c g).
Proof. intros H. exact H. Qed.

Lemma hasCalls_setCreatedBy (c : Call) (g : Goroutine) :
  hasCalls g -> hasCalls (setCreatedBy c g).
Proof. intros H. exact H. Qed.

Lemma goodCalls_setStackElided (b : bool) (g : Goroutine) :
  goodCalls g -> goodCalls (setStackElided b g).
Proof. intros H. exact H. Qed.

Lemma hasCalls_setStackElided (b : bool) (g : Goroutine) :
  hasCalls g -> hasCalls (setStackElided b g).
Proof. intros H. exact H. Qed.

Lemma real_setStackElided (b : bool) (g : Goroutine) :
  Forall realCall (callsOf g) -> Forall realCall (callsOf (setStackElided b g)).
Proof. intros H. exact H. Qed.

Lemma unavailable_setCalls (g : Goroutine) :
  callsOf (setCalls [setLocation "<unavailable>" 0 zeroCall] g) = [unavailableCall].
Proof. reflexivity. Qed.

#[export] Hint Resolve hasCalls_unavailable noCalls_real goodCalls_real goodCalls_unavailable
  real_appendCall hasCalls_appendCall real_storeLastCall hasCalls_storeLastCall
  goodCalls_setCreatedBy hasCalls_setCreatedBy goodCalls_setStackElided
  hasCalls_setStackElided real_setStackElided unavailable_setCalls
  goodCalls_new callsOf_new parseFunc_real : calls.

Ltac inv_leaf :=
  repeat match goal with
  | |- _ /\ _ => split
  | |- _ -> _ => intros ?
  | H : Some _ = None |- _ => discriminate H
  | H : _ /\ _ |- _ => destruct H
  | |- invGoroutines normal [] => constructor
  | |- weakInv [?g] => apply (weakInv_snoc [] g)
  | |- weakInv ((_ ++ [_]) ++ [_]) => apply weakInv_snoc
  | |- weakInv (_ ++ [_]) => apply weakInv_snoc
  | |- invGoroutines _ [?g] => apply (inv_cur _ [] g)
  | |- invGoroutines _ (_ ++ [_]) => apply inv_cur
  | |- Forall _ [] => constructor
  | |- Forall _ (_ ++ [_]) => apply Forall_snoc
  | |- curInv _ _ => cbn [curInv]
  end; try reflexivity; try assumption; eauto 6 with calls.

Lemma scan_inv (s : scanningState) (l : string) :
  inv s ->
  exists s' o e,
    scan s l = Scanned s' o e
    /\ raceDetectionEnabled s' = false
    /\ weakInv (goroutines s')
    /\ (e = None -> invGoroutines (st s') (goroutines s')).
Proof.
  intros [Hr Hi]. destruct s as [rde gs x p rs]. simpl in *. subst rde.
  pose proof (inv_weak _ _ Hi) as Hw.
  unfold scan. destruct (lineBody _ l) as [| t | t] eqn:Hb.
  - scanned. auto.
  - scanned. split; [reflexivity|]. split; [assumption|]. discriminate.
  - unfold scanSwitch, notHeader. cbn [st raceDetectionEnabled andb].
    destruct Hi as [| x gs0 g H1 H2 H3 H4].
    + repeat case_match; scanned; inv_leaf.
    + destruct x; cbn [curInv] in H4; try contradiction; rewrite ?cur_snoc;
      repeat case_match; rewrite ?storeCur_snoc;
      try (exfalso; eapply last_calls_None; [eassumption|tauto]);
      scanned; inv_leaf.
Qed.

(** ** What a step does to the goroutines *)

Lemma at0_snoc (f : Goroutine -> bool) (gs : list Goroutine) (g : Goroutine) (i : nat) :
  at0 f (gs ++ [g]) i = at0 f gs i || (Nat.eqb (length gs) i && f g).
Proof.
  unfold at0. destruct (Nat.lt_trichotomy i (length gs)) as [Hlt|[->|Hgt]].
  - rewrite lookup_app_l by assumption.
    replace (Nat.eqb (length gs) i) with false by (symmetry; apply Nat.eqb_neq; lia).
    rewrite orb_false_r. reflexivity.
  - rewrite lookup_app_r by lia. rewrite Nat.sub_diag, Nat.eqb_refl. simpl.
    rewrite lookup_ge_None_2 by lia. reflexivity.
  - rewrite !lookup_ge_None_2 by (rewrite ?length_app; simpl; lia).
    replace (Nat.eqb (length gs) i) with false by (symmetry; apply Nat.eqb_neq; lia).
    reflexivity.
Qed.

Lemma length_snoc_eqb {A} (l : list A) (a : A) (i : nat) :
  Nat.eqb (length (l ++ [a])) (S i) = Nat.eqb (length l) i.
Proof. rewrite length_app. simpl. rewrite Nat.add_1_r. reflexivity. Qed.

Lemma at0_keep (f : Goroutine -> bool) (gs : list Goroutine) (ev : bool) (i : nat) :
  ev = false ->
  at0 f gs i = at0 f gs i || (Nat.eqb (length gs) (S i) && ev).
Proof. intros ->. rewrite andb_false_r, orb_false_r. reflexivity. Qed.

Lemma at0_update (f : Goroutine -> bool) (gs0 : list Goroutine) (g g' : Goroutine)
    (ev : bool) (i : nat) :
  f g' = f g || ev ->
  at0 f (gs0 ++ [g']) i
  = at0 f (gs0 ++ [g]) i || (Nat.eqb (length (gs0 ++ [g])) (S i) && ev).
Proof.
  intros E. rewrite !at0_snoc, length_snoc_eqb, E.
  destruct (at0 f gs0 i), (Nat.eqb (length gs0) i), (f g), ev; reflexivity.
Qed.

Lemma at0_new (f : Goroutine -> bool) (gs : list Goroutine) (g : Goroutine)
    (ev : bool) (i : nat) :
  f g = false -> ev = false ->
  at0 f (gs ++ [g]) i = at0 f gs i || (Nat.eqb (length gs) (S i) && ev).
Proof.
  intros E ->. rewrite at0_snoc, E, !andb_false_r. reflexivity.
Qed.

Lemma reCreated_not_elided (t raw : string) :
  reCreated t = Some raw -> String.eqb elided t = false.
Proof.
  intros H. destruct (String.eqb_spec elided t) as [<-|]; [|reflexivity].
  vm_compute in H. discriminate.
Qed.

Lemma parseFunc_not_elided (c0 c : Call) (t : string) (e : option error) :
  parseFunc c0 t = (true, c, e) -> String.eqb elided t = false.
Proof.
  intros H. destruct (String.eqb_spec elided t) as [<-|]; [|reflexivity].
  vm_compute in H. discriminate.
Qed.

Lemma stackElided_new (idn : Z) (descr : string) (first : bool) :
  stackElided (newGoroutine idn descr first) = false.
Proof. unfold newGoroutine, stackElided. destruct (headerModifiers _ _ _). reflexivity. Qed.

Ltac step_leaf :=
  intros ?; cbn [goroutines setPrefix setState setGoroutines];
  first [ apply at0_keep | apply at0_update | apply at0_new | apply (at0_new _ []) ];
  try unfold sawElided; try unfold sawUnavailable; cbn [st];
  repeat match goal with
  | H : lineBody _ _ = _ |- _ => rewrite H
  end.

Ltac elided_leaf :=
  repeat match goal with
  | H : String.eqb elided _ = _ |- _ => rewrite H
  | H : reCreated _ = Some _ |- _ => rewrite (reCreated_not_elided _ _ H)
  | H : parseFunc _ _ = (true, _, _) |- _ => rewrite (parseFunc_not_elided _ _ _ _ H)
  end;
  rewrite ?orb_false_r, ?orb_true_r; try reflexivity; try apply stackElided_new.

Lemma scan_elided (s s' : scanningState) (l o : string) (e : option error) :
  inv s -> scan s l = Scanned s' o e ->
  forall i,
    at0 stackElided (goroutines s') i
    = at0 stackElided (goroutines s) i
      || (Nat.eqb (length (goroutines s)) (S i) && sawElided s l).
Proof.
  intros [Hr Hi]. destruct s as [rde gs x p rs]. simpl in *. subst rde.
  unfold scan. destruct (lineBody _ l) as [| t | t] eqn:Hb.
  - intros [= <- _ _]. step_leaf. destruct x; reflexivity.
  - intros [= <- _ _]. step_leaf. destruct x; reflexivity.
  - unfold scanSwitch, notHeader. cbn [st raceDetectionEnabled andb].
    destruct Hi as [| x gs0 g H1 H2 H3 H4].
    + repeat case_match; intros [= <- _ _]; cbn [goroutines setPrefix setState setGoroutines];
        step_leaf; elided_leaf.
    + destruct x; cbn [curInv] in H4; try contradiction; rewrite ?cur_snoc;
      repeat case_match; rewrite ?storeCur_snoc; try discriminate;
      intros [= <- _ _]; cbn [goroutines setPrefix setState setGoroutines];
      step_leaf; elided_leaf.
Qed.

Lemma isUnavailable_real (g : Goroutine) :
  Forall realCall (callsOf g) -> isUnavailable g = false.
Proof.
  unfold isUnavailable. destruct (callsOf g) as [|c [|c' cs]]; try reflexivity.
  intros H. inversion H as [|? ? Hc _]; subst. unfold realCall in Hc.
  destruct (Raw (CallFunc c)); [congruence|reflexivity].
Qed.

Lemma isUnavailable_new (idn : Z) (descr : string) (first : bool) :
  isUnavailable (newGoroutine idn descr first) = false.
Proof. apply isUnavailable_real. rewrite callsOf_new. constructor. Qed.

Ltac unavailable_leaf :=
  repeat match goal with
  | H : reUnavail _ = _ |- _ => rewrite H
  | H : _ /\ _ |- _ => destruct H
  end;
  rewrite ?orb_false_r, ?orb_true_r; try reflexivity; try apply isUnavailable_new;
  rewrite !isUnavailable_real by eauto 6 with calls; reflexivity.

Lemma scan_unavailable (s s' : scanningState) (l o : string) (e : option error) :
  inv s -> scan s l = Scanned s' o e ->
  forall i,
    at0 isUnavailable (goroutines s') i
    = at0 isUnavailable (goroutines s) i
      || (Nat.eqb (length (goroutines s)) (S i) && sawUnavailable s l).
Proof.
  intros [Hr Hi]. destruct s as [rde gs x p rs]. simpl in *. subst rde.
  unfold scan. destruct (lineBody _ l) as [| t | t] eqn:Hb.
  - intros [= <- _ _]. step_leaf. destruct x; reflexivity.
  - intros [= <- _ _]. step_leaf. destruct x; reflexivity.
  - unfold scanSwitch, notHeader. cbn [st raceDetectionEnabled andb].
    destruct Hi as [| x gs0 g H1 H2 H3 H4].
    + repeat case_match; intros [= <- _ _]; cbn [goroutines setPrefix setState setGoroutines];
        step_leaf; unavailable_leaf.
    + destruct x; cbn [curInv] in H4; try contradiction; rewrite ?cur_snoc;
      repeat case_match; rewrite ?storeCur_snoc; try discriminate;
      intros [= <- _ _]; cbn [goroutines setPrefix setState setGoroutines];
      step_leaf; unavailable_leaf.
Qed.

Lemma ID_new (idn : Z) (descr : string) (first : bool) :
  ID (newGoroutine idn descr first) = idn.
Proof. unfold newGoroutine. destruct (headerModifiers _ _ _). reflexivity. Qed.

Ltac ids_leaf :=
  unfold sawHeader; cbn [st goroutines setPrefix setState setGoroutines];
  repeat match goal with
  | H : lineBody _ _ = _ |- _ => rewrite H
  | H : reRoutineHeader _ = _ |- _ => rewrite H
  | H : Atoi _ = _ |- _ => rewrite H
  end;
  rewrite ?map_app; cbn [map]; rewrite ?ID_new, ?app_nil_r; try reflexivity.

Lemma scan_ids (s s' : scanningState) (l o : string) (e : option error) :
  inv s -> scan s l = Scanned s' o e ->
  map ID (goroutines s') = map ID (goroutines s) ++ sawHeader s l.
Proof.
  intros [Hr Hi]. destruct s as [rde gs x p rs]. simpl in *. subst rde.
  unfold scan. destruct (lineBody _ l) as [| t | t] eqn:Hb.
  - intros [= <- _ _]. ids_leaf. destruct x; rewrite app_nil_r; reflexivity.
  - intros [= <- _ _]. ids_leaf. destruct x; rewrite app_nil_r; reflexivity.
  - unfold scanSwitch, notHeader. cbn [st raceDetectionEnabled andb].
    destruct Hi as [| x gs0 g H1 H2 H3 H4].
    + repeat case_match; intros [= <- _ _]; simplify_eq; ids_leaf.
    + destruct x; cbn [curInv] in H4; try contradiction; rewrite ?cur_snoc;
      repeat case_match; rewrite ?storeCur_snoc; try discriminate;
      intros [= <- _ _]; simplify_eq; ids_leaf.
Qed.

(** ** Well-formed blocks *)

Lemma lineBody_block (s : scanningState) (line b : string) :
  blockLine (prefix s) line = Some b -> lineBody s line = Body b.
Proof.
  unfold blockLine, lineBody. destruct (trimEOL line) as [t|]; [|discriminate].
  destruct (HasPrefix t (prefix s)) eqn:Hp; [|discriminate]. intros [= <-].
  assert (E : (if negb (isEmpty t) && negb (isEmpty (prefix s))
               then if negb true then BadIndent t
                    else Body (sliceFrom (len (prefix s)) t)
               else Body t) = Body (sliceFrom (len (prefix s)) t)).
  { destruct (isEmpty t) eqn:Et; [apply isEmpty_true in Et; subst t|].
    - simpl. destruct (len (prefix s)); reflexivity.
    - destruct (isEmpty (prefix s)) eqn:Ep; [|reflexivity].
      apply isEmpty_true in Ep. rewrite Ep. reflexivity. }
  destruct (st s); exact E.
Qed.

Lemma scan_block (rde : bool) (gs : list Goroutine) (x : state) (ws : string)
    (rs : list raceOp) (line b : string) :
  blockLine ws line = Some b ->
  scan (mkScanningState rde gs x ws rs) line
  = scanSwitch (mkScanningState rde gs x ws rs) line b.
Proof.
  intros H. unfold scan.
  rewrite (lineBody_block (mkScanningState rde gs x ws rs) line b H). reflexivity.
Qed.

Lemma funcLine_inv (ws line : string) (c : Call) :
  funcLine ws line = Some c ->
  exists b, blockLine ws line = Some b /\ parseFunc zeroCall b = (true, c, None).
Proof.
  unfold funcLine. destruct (blockLine ws line) as [b|]; [|discriminate].
  destruct (parseFunc zeroCall b) as [[[|] c1] [e|]] eqn:Hf; try discriminate.
  intros [= <-]. exists b. split; [reflexivity|exact Hf].
Qed.

Lemma fileLine_inv (ws line : string) (c c' : Call) :
  fileLine ws line c = Some c' ->
  exists b, blockLine ws line = Some b /\ parseFile c b = (true, c', None).
Proof.
  unfold fileLine. destruct (blockLine ws line) as [b|]; [|discriminate].
  destruct (parseFile c b) as [[[|] c1] [e|]] eqn:Hf; try discriminate.
  intros [= <-]. exists b. split; [reflexivity|exact Hf].
Qed.

(** A function line after the header. *)
Lemma scan_first_func (rde : bool) (gs0 : list Goroutine) (g : Goroutine)
    (ws : string) (rs : list raceOp) (line : string) (c : Call) :
  funcLine ws line = Some c ->
  alsoUnavailable ws line = false ->
  scan (mkScanningState rde (gs0 ++ [g]) gotRoutineHeader ws rs) line
  = Scanned (mkScanningState rde (gs0 ++ [appendCall c g]) gotFunc ws rs)
      EmptyString None.
Proof.
  intros (b & Hb & Hf)%funcLine_inv Hu. unfold alsoUnavailable in Hu. rewrite Hb in Hu.
  rewrite (scan_block _ _ _ _ _ _ _ Hb). unfold scanSwitch. cbn [st].
  rewrite Hu, Hf, cur_snoc, storeCur_snoc. reflexivity.
Qed.

(** A function line after the file line of a call. *)
Lemma scan_next_func (rde : bool) (gs0 : list Goroutine) (g : Goroutine)
    (ws : string) (rs : list raceOp) (line : string) (c : Call) :
  funcLine ws line = Some c ->
  alsoCreated ws line = false ->
  scan (mkScanningState rde (gs0 ++ [g]) gotFileFunc ws rs) line
  = Scanned (mkScanningState rde (gs0 ++ [appendCall c g]) gotFunc ws rs)
      EmptyString None.
Proof.
  intros (b & Hb & Hf)%funcLine_inv Hc. unfold alsoCreated in Hc. rewrite Hb in Hc.
  rewrite (scan_block _ _ _ _ _ _ _ Hb). unfold scanSwitch. cbn [st].
  destruct (reCreated b); [discriminate|].
  rewrite (parseFunc_not_elided _ _ _ _ Hf), Hf, cur_snoc, storeCur_snoc. reflexivity.
Qed.

(** The file line of the call [c] just read. *)
Lemma scan_file_of_func (rde : bool) (gs0 : list Goroutine) (g : Goroutine)
    (ws : string) (rs : list raceOp) (line : string) (c c' : Call) :
  fileLine ws line c = Some c' ->
  scan (mkScanningState rde (gs0 ++ [appendCall c g]) gotFunc ws rs) line
  = Scanned (mkScanningState rde (gs0 ++ [setCalls (callsOf g ++ [c']) g])
               gotFileFunc ws rs)
      EmptyString None.
Proof.
  intros (b & Hb & Hf)%fileLine_inv.
  rewrite (scan_block _ _ _ _ _ _ _ Hb). unfold scanSwitch. cbn [st].
  rewrite cur_snoc. unfold appendCall at 1, setCalls at 1. cbn [GStack Stack.Calls].
  rewrite last_snoc, Hf, storeCur_snoc.
  unfold storeLastCall, appendCall, setCalls, callsOf, setState.
  cbn [GStack Stack.Calls Sig ID First Stack.Elided CreatedBy
       raceDetectionEnabled goroutines st prefix races].
  rewrite insert_last_snoc. reflexivity.
Qed.

(** A pair of lines in the state [gotFileFunc] adds its call. *)
Lemma run_pair (rde : bool) (gs0 : list Goroutine) (g : Goroutine) (ws : string)
    (rs : list raceOp) (p : string * string) (c : Call) (out : string)
    (more : list string) :
  pairCall ws p = Some c ->
  alsoCreated ws (fst p) = false ->
  runLines (mkScanningState rde (gs0 ++ [g]) gotFileFunc ws rs) out
    (fst p :: snd p :: more)
  = runLines (mkScanningState rde (gs0 ++ [setCalls (callsOf g ++ [c]) g])
                gotFileFunc ws rs) out more.
Proof.
  unfold pairCall. destruct (funcLine ws (fst p)) as [c1|] eqn:Hf; [|discriminate].
  intros Hfile Hc. cbn [runLines].
  rewrite (scan_next_func _ _ _ _ _ _ _ Hf Hc). cbn [runLines].
  rewrite (scan_file_of_func _ _ _ _ _ _ _ _ Hfile).
  rewrite !str_app_nil_r. reflexivity.
Qed.

Lemma setCalls_setCalls (cs cs' : list Call) (g : Goroutine) :
  setCalls cs' (setCalls cs g) = setCalls cs' g.
Proof. reflexivity. Qed.

Lemma callsOf_setCalls (cs : list Call) (g : Goroutine) : callsOf (setCalls cs g) = cs.
Proof. reflexivity. Qed.

(** The pairs of a block after the first. *)
Lemma run_pairs (rde : bool) (gs0 : list Goroutine) (ws : string) (rs : list raceOp)
    (out : string) (more : list string) :
  forall (pairs : list (string * string)) (calls : list Call) (g : Goroutine),
    Forall2 (fun p c => pairCall ws p = Some c) pairs calls ->
    Forall (fun q => alsoCreated ws (fst q) = false) pairs ->
    runLines (mkScanningState rde (gs0 ++ [g]) gotFileFunc ws rs) out
      (pairLines pairs ++ more)
    = runLines (mkScanningState rde (gs0 ++ [setCalls (callsOf g ++ calls) g])
                  gotFileFunc ws rs) out more.
Proof.
  induction pairs as [|p pairs IH]; intros calls g H2 Hc.
  - inversion H2; subst. simpl. rewrite app_nil_r.
    destruct g as [sg idn first [cs el] cb]. reflexivity.
  - inversion H2 as [|? c ? calls' Hp H2']; subst.
    inversion Hc as [|? ? Hc1 Hc']; subst.
    change (pairLines (p :: pairs) ++ more)
      with (fst p :: snd p :: pairLines pairs ++ more).
    rewrite (run_pair _ _ _ _ _ _ _ _ _ Hp Hc1).
    rewrite (IH calls' _ H2' Hc').
    rewrite callsOf_setCalls, setCalls_setCalls, <- app_assoc. reflexivity.
Qed.

Lemma lineBody_blank (s : scanningState) (line : string) :
  trimEOL line = Some EmptyString -> lineBody s line = Body EmptyString.
Proof. intros H. unfold lineBody. rewrite H. destruct (st s); reflexivity. Qed.

(** The empty line that ends a block. *)
Lemma scan_blank (rde : bool) (gs : list Goroutine) (x : state) (ws : string)
    (rs : list raceOp) (line : string) :
  x = gotFileFunc \/ x = gotFileCreated ->
  trimEOL line = Some EmptyString ->
  scan (mkScanningState rde gs x ws rs) line
  = Scanned (mkScanningState rde gs betweenRoutine ws rs) EmptyString None.
Proof.
  intros Hx H. unfold scan. rewrite (lineBody_blank _ _ H).
  destruct Hx as [-> | ->]; reflexivity.
Qed.

Lemma reCreated_nonempty (b raw : string) :
  reCreated b = Some raw -> isEmpty b = false.
Proof. destruct b; [discriminate|reflexivity]. Qed.

(** The creation line and its file line, after the file line of a call or
    after the marker of an unavailable stack. *)
Lemma run_created (rde : bool) (gs0 : list Goroutine) (g : Goroutine) (x : state)
    (ws : string) (rs : list raceOp) (p : string * string) (cb : Call) (out : string)
    (more : list string) :
  x = gotFileFunc \/ x = gotUnavail ->
  CreatedBy g = zeroCall ->
  createdCall ws p = Some cb ->
  runLines (mkScanningState rde (gs0 ++ [g]) x ws rs) out
    (fst p :: snd p :: more)
  = runLines (mkScanningState rde (gs0 ++ [setCreatedBy cb g]) gotFileCreated ws rs)
      out more.
Proof.
  intros Hx Hz. unfold createdCall.
  destruct (blockLine ws (fst p)) as [b|] eqn:Hb; [|discriminate].
  destruct (reCreated b) as [raw|] eqn:Hr; [|discriminate].
  intros (b2 & Hb2 & Hf)%fileLine_inv.
  assert (E : scan (mkScanningState rde (gs0 ++ [g]) x ws rs) (fst p)
              = Scanned (mkScanningState rde
                           (gs0 ++ [setCreatedBy (setRaw raw zeroCall) g])
                           gotCreated ws rs) EmptyString None).
  { rewrite (scan_block _ _ _ _ _ _ _ Hb). unfold scanSwitch. cbn [st].
    destruct Hx as [-> | ->].
    - rewrite Hr, cur_snoc, storeCur_snoc, Hz. reflexivity.
    - rewrite (reCreated_nonempty _ _ Hr), Hr, cur_snoc, storeCur_snoc, Hz.
      reflexivity. }
  cbn [runLines]. rewrite E. cbn [runLines].
  rewrite (scan_block _ _ _ _ _ _ _ Hb2).
  unfold scanSwitch at 1. cbn [st]. rewrite cur_snoc.
  unfold setCreatedBy at 1. cbn [CreatedBy]. rewrite Hf, storeCur_snoc.
  unfold setState. cbn [raceDetectionEnabled goroutines st prefix races].
  rewrite !str_app_nil_r. reflexivity.
Qed.


Lemma CreatedBy_new (idn : Z) (descr : string) (first : bool) :
  CreatedBy (newGoroutine idn descr first) = zeroCall.
Proof. unfold newGoroutine. destruct (headerModifiers _ _ _). reflexivity. Qed.



Lemma headerLine_new (h ws : string) (g0 : Goroutine) :
  headerLine h = Some (ws, g0) -> callsOf g0 = [] /\ CreatedBy g0 = zeroCall.
Proof.
  unfold headerLine.
  destruct (trimEOL h) as [t|]; [|discriminate].
  destruct (reRoutineHeader t) as [[[ws' ds] descr]|]; [|discriminate].
  destruct (Atoi ds) as [idn [e|]]; [discriminate|].
  intros [= <- <-]. split; [apply callsOf_new|apply CreatedBy_new].
Qed.




Lemma scan_no_calls (s s' : scanningState) (l o : string) (e : option error) :
  inv s -> scan s l = Scanned s' o e ->
  forall g, last (goroutines s') = Some g -> callsOf g = [] ->
  sawHeader s l <> [] \/ st s = gotRoutineHeader.
Proof.
  intros [Hr Hi]. destruct s as [rde gs x p rs]. simpl in *. subst rde.
  assert (Hkeep : forall g, last gs = Some g -> callsOf g = [] -> x = gotRoutineHeader).
  { intros g0 Hl Hc. destruct Hi as [| x gs0 g H1 H2 H3 H4]; [discriminate|].
    rewrite last_snoc in Hl. injection Hl as <-.
    destruct x; cbn [curInv] in H4; unfold hasCalls in *; intuition congruence. }
  unfold scan. destruct (lineBody _ l) as [| t | t] eqn:Hb.
  - intros [= <- _ _] g Hl Hc. right. eauto.
  - intros [= <- _ _] g Hl Hc. right. eauto.
  - unfold scanSwitch, notHeader, sawHeader. cbn [st raceDetectionEnabled andb].
    rewrite Hb.
    destruct Hi as [| x gs0 g H1 H2 H3 H4].
    + repeat case_match; intros [= <- _ _] g' Hl Hc; simplify_eq;
        try discriminate; left; discriminate.
    + destruct x; cbn [curInv] in H4; try contradiction; rewrite ?cur_snoc;
      repeat case_match; rewrite ?storeCur_snoc; try discriminate;
      intros [= <- _ _] g' Hl Hc; simplify_eq;
      cbn [goroutines setPrefix setState setGoroutines] in Hl;
      rewrite ?last_snoc in Hl; simplify_eq; auto.
      all: try (left; discriminate).
      all: exfalso.
      all: try (unfold hasCalls in *; intuition congruence).
      all: try discriminate.
      all: try (eapply hasCalls_appendCall; exact Hc).
      all: try (destruct H4; eapply hasCalls_storeLastCall; [eassumption|eassumption|eassumption|exact Hc]).
      all: try (apply hasCalls_unavailable in H4; unfold hasCalls in *; congruence).
      all: change (callsOf g = []) in Hc; rewrite H4 in Hc; discriminate.
Qed.

(** ** Runs *)

Lemma run_summary : forall lines s out,
  inv s ->
  exists sf err o,
    runLines s out lines = Ran sf err o
    /\ weakInv (goroutines sf)
    /\ (err = None -> inv sf)
    /\ (forall i, at0 stackElided (goroutines sf) i
                  = at0 stackElided (goroutines s) i
                    || markerAt sawElided (trace s lines) i)
    /\ (forall i, at0 isUnavailable (goroutines sf) i
                  = at0 isUnavailable (goroutines s) i
                    || markerAt sawUnavailable (trace s lines) i)
    /\ map ID (goroutines sf) = map ID (goroutines s) ++ headersOf (trace s lines)
    /\ ((lines = [] /\ sf = s)
        \/ exists s1 l1 o1,
             last (trace s lines) = Some (s1, l1) /\ inv s1
             /\ scan s1 l1 = Scanned sf o1 err).
Proof.
  induction lines as [|l rest IH]; intros s out Hinv.
  - exists s, None, out. simpl.
    split; [reflexivity|]. split; [exact (inv_weak _ _ (proj2 Hinv))|].
    split; [intros _; exact Hinv|].
    split; [intros i; rewrite orb_false_r; reflexivity|].
    split; [intros i; rewrite orb_false_r; reflexivity|].
    split; [rewrite app_nil_r; reflexivity|]. left. split; reflexivity.
  - destruct (scan_inv s l Hinv) as (s1 & o1 & e1 & Hscan & Hr & Hw & Hi1).
    pose proof (scan_elided s s1 l o1 e1 Hinv Hscan) as Hel.
    pose proof (scan_unavailable s s1 l o1 e1 Hinv Hscan) as Hun.
    pose proof (scan_ids s s1 l o1 e1 Hinv Hscan) as Hid.
    simpl runLines. simpl trace. rewrite Hscan. destruct e1 as [e|].
    + exists s1, (Some e), (out +:+ o1).
      split; [reflexivity|]. split; [exact Hw|]. split; [discriminate|].
      unfold markerAt, headersOf. simpl.
      split; [intros i; rewrite orb_false_r; apply Hel|].
      split; [intros i; rewrite orb_false_r; apply Hun|].
      split; [rewrite app_nil_r; exact Hid|].
      right. exists s, l, o1. split; [reflexivity|]. split; assumption.
    + assert (Hinv1 : inv s1) by (split; [exact Hr|apply Hi1; reflexivity]).
      destruct (IH s1 (out +:+ o1) Hinv1)
        as (sf & err & o & Hrun & Hwf & Hif & Helf & Hunf & Hidf & Hlast).
      exists sf, err, o.
      split; [exact Hrun|]. split; [exact Hwf|]. split; [exact Hif|].
      unfold markerAt, headersOf. simpl.
      split; [intros i; rewrite Helf, Hel, orb_assoc; reflexivity|].
      split; [intros i; rewrite Hunf, Hun, orb_assoc; reflexivity|].
      split; [rewrite Hidf, Hid, app_assoc; reflexivity|].
      right. destruct Hlast as [[-> ->]|(s2 & l2 & o2 & Hl & Hi2 & Hs2)].
      * simpl in Hrun. injection Hrun as <- <-.
        exists s, l, o1. split; [reflexivity|]. split; assumption.
      * exists s2, l2, o2. split; [|split; assumption].
        destruct (trace s1 rest); [discriminate|]. exact Hl.
Qed.

(** ** What [parseDump] returns *)

(** [parseDump] never panics: it returns the goroutines of the machine as
    the run over the lines of the input left it. *)
Lemma parseDump_summary (r : Reader) :
  exists sf e out,
    runLines zeroState EmptyString (inputLines r) = Ran sf e out
    /\ parseDump r = Dumped (goroutines sf) (dumpError r e) out
    /\ weakInv (goroutines sf)
    /\ (forall i, at0 stackElided (goroutines sf) i
                  = markerAt sawElided (trace zeroState (inputLines r)) i)
    /\ (forall i, at0 isUnavailable (goroutines sf) i
                  = markerAt sawUnavailable (trace zeroState (inputLines r)) i)
    /\ map ID (goroutines sf) = headersOf (trace zeroState (inputLines r))
    /\ (goroutines sf = []
        \/ exists s1 l1 o1,
             last (trace zeroState (inputLines r)) = Some (s1, l1) /\ inv s1
             /\ scan s1 l1 = Scanned sf o1 e).
Proof.
  destruct (run_summary (inputLines r) zeroState EmptyString inv_zeroState)
    as (sf & e & out & Hrun & Hw & _ & Hel & Hun & Hid & Hlast).
  exists sf, e, out. split; [exact Hrun|]. split.
  { rewrite parseDump_runLines, Hrun. destruct e; reflexivity. }
  split; [exact Hw|]. split; [exact Hel|]. split; [exact Hun|]. split; [exact Hid|].
  destruct Hlast as [[_ ->]|H]; [left; reflexivity|right; exact H].
Qed.

(** C3, as the code has it.  The flag [Stack.Elided] of a goroutine that
    [parseDump] returns is set exactly when the elision marker was
    recognized while that goroutine was under construction: on a line
    scanned in the state [gotFileFunc], that is after the file line of one
    of its calls or after another marker.  The machine stays in that
    state, so function lines may still follow the marker. *)
Theorem C3_elided_flag (r : Reader) (gs : list Goroutine) (err : option error)
    (out : string) (i : nat) (g : Goroutine) :
  parseDump r = Dumped gs err out ->
  gs !! i = Some g ->
  Stack.Elided (GStack g)
  = markerAt sawElided (trace zeroState (inputLines r)) i.
Proof.
  intros Hd Hg.
  destruct (parseDump_summary r) as (sf & e & o & _ & Hd' & _ & Hel & _).
  rewrite Hd' in Hd. injection Hd as <- _ _.
  rewrite <- Hel. unfold at0. rewrite Hg. reflexivity.
Qed.

Lemma C3_witness :
  Stack.Elided (GStack (running1 [callF] true zeroCall))
  = markerAt sawElided (trace zeroState (inputLines elidedAtEnd)) 0.
Proof.
  apply (C3_elided_flag elidedAtEnd [running1 [callF] true zeroCall] None EmptyString 0);
    reflexivity.
Defined.

(** C3 as stated fails: the marker is recognized, the flag is set, and yet
    a function line of the same block follows the marker and gives the
    last call of the stack. *)
Lemma C3_counterexample :
  inputLines elidedInTheMiddle
  = [header1; callMainF; fileMainF; elidedLine; callMainG; fileMainG; nl]
  /\ parseDump elidedInTheMiddle
     = Dumped [running1 [callF; callG] true zeroCall] None EmptyString.
Proof. split; reflexivity. Qed.

(** C7, as the code has it.  Of a goroutine that [parseDump] returns:
    if the marker of an unavailable stack was recognized for it (on the
    line after its header), its calls are the single call with the path
    [<unavailable>], no line and no name; otherwise each of its calls
    comes from a function line, and it has at least one call unless it is
    the last goroutine and scanning stopped on its header or on the line
    after it.  After the marker the machine accepts a creation line and
    its file line, which give the creation site of the goroutine. *)
Theorem C7_calls_of_goroutines :
  (forall (r : Reader) (gs : list Goroutine) (err : option error) (out : string)
          (i : nat) (g : Goroutine),
      parseDump r = Dumped gs err out ->
      gs !! i = Some g ->
      (markerAt sawUnavailable (trace zeroState (inputLines r)) i = true ->
       callsOf g = [unavailableCall])
      /\ (markerAt sawUnavailable (trace zeroState (inputLines r)) i = false ->
          Forall realCall (callsOf g)
          /\ (callsOf g = [] ->
              S i = length gs
              /\ stoppedAfterHeader (trace zeroState (inputLines r)))))
  /\ (forall (rde : bool) (gs0 : list Goroutine) (g : Goroutine) (ws : string)
             (rs : list raceOp) (p : string * string) (cb : Call) (out : string)
             (more : list string),
        CreatedBy g = zeroCall ->
        createdCall ws p = Some cb ->
        runLines (mkScanningState rde (gs0 ++ [g]) gotUnavail ws rs) out
          (fst p :: snd p :: more)
        = runLines (mkScanningState rde (gs0 ++ [setCreatedBy cb g])
                      gotFileCreated ws rs) out more).
Proof.
  split; [|intros; apply run_created; auto].
  intros r gs err out i g Hd Hg.
  destruct (parseDump_summary r) as (sf & e & o & _ & Hd' & [Hgood Hfin] & _ & Hun & _ & Hlast).
  rewrite Hd' in Hd. injection Hd as <- _ _.
  specialize (Hun i). unfold at0 in Hun. rewrite Hg in Hun.
  pose proof (proj1 (Forall_lookup _ _) Hgood i g Hg) as Hgg.
  split.
  - intros Hm. rewrite Hm in Hun. destruct Hgg as [Hu|Hreal]; [exact Hu|].
    rewrite (isUnavailable_real g Hreal) in Hun. discriminate.
  - intros Hm. rewrite Hm in Hun.
    assert (Hreal : Forall realCall (callsOf g)).
    { destruct Hgg as [Hu|Hreal]; [|exact Hreal].
      unfold isUnavailable in Hun. rewrite Hu in Hun. discriminate. }
    split; [exact Hreal|]. intros Hnone.
    destruct (list_snoc_cases (goroutines sf)) as [E|(gs0 & g' & E)].
    { rewrite E in Hg. discriminate. }
    assert (Hi : i = length gs0).
    { destruct (Nat.lt_ge_cases i (length gs0)) as [Hlt|Hge].
      - exfalso. pose proof (Hfin gs0 g' E) as Hall.
        rewrite E, lookup_app_l in Hg by exact Hlt.
        exact (proj1 (Forall_lookup _ _) Hall i g Hg Hnone).
      - apply lookup_lt_Some in Hg. rewrite E, length_app in Hg. simpl in Hg. lia. }
    split; [rewrite E, length_app; simpl; lia|].
    destruct Hlast as [E0|(s1 & l1 & o1 & Hl & Hi1 & Hs1)].
    { rewrite E0 in E. destruct gs0; discriminate. }
    exists s1, l1. split; [exact Hl|].
    apply (scan_no_calls s1 sf l1 o1 e Hi1 Hs1 g); [|exact Hnone].
    rewrite E, last_snoc. rewrite E, Hi, lookup_app_r, Nat.sub_diag in Hg by lia.
    exact Hg.
Qed.

Lemma C7_witness :
  parseDump unavailableDump
  = Dumped [running1 [unavailableCall] false createdByStart] None EmptyString
  /\ callsOf (running1 [unavailableCall] false createdByStart) = [unavailableCall].
Proof.
  split; [reflexivity|].
  destruct C7_calls_of_goroutines as [Hcalls _].
  apply (Hcalls unavailableDump
           [running1 [unavailableCall] false createdByStart] None EmptyString 0);
    reflexivity.
Defined.

(** C7 as stated fails: after a header alone the goroutine is returned
    with no call, and no marker of an unavailable stack was seen. *)
Lemma C7_counterexample :
  parseDump headerOnly = Dumped [running1 [] false zeroCall] None EmptyString
  /\ callsOf (running1 [] false zeroCall) = []
  /\ markerAt sawUnavailable (trace zeroState (inputLines headerOnly)) 0 = false.
Proof. repeat split. Qed.

(** ** Errors and partial results *)

Lemma findRoots_Goroutines (env : Env) (c c' : Context) :
  findRoots env c = Some c' -> Goroutines c' = Goroutines c.
Proof.
  unfold findRoots. destruct (findRootsLoop _ _ _ _ _) as [[goroot gopaths]|]; [|discriminate].
  intros [= <-]. reflexivity.
Qed.

(** C8, as the code has it.  [parseDump] never panics: it returns the
    goroutines of the machine as the run over the lines left it, whose ids
    are those of the headers recognized, in order, together with the error
    that stopped the run, or else the reader's error.  [ParseDump], when
    it returns, returns that error and those goroutines (a nil context when
    there is none); it returns whenever no goroutine was found, and
    whenever [getGOPATHs] does not panic and the roots are not to be
    guessed. *)
Theorem C8_partial_results (env : Env) (r : Reader) (guesspaths : bool) :
  exists sf e out,
    runLines zeroState EmptyString (inputLines r) = Ran sf e out
    /\ parseDump r = Dumped (goroutines sf) (dumpError r e) out
    /\ map ID (goroutines sf) = headersOf (trace zeroState (inputLines r))
    /\ (forall c e' o,
          ParseDump env r guesspaths = Returned c e' o ->
          e' = dumpError r e /\ o = out
          /\ match c with
             | Some ctx => Goroutines ctx = goroutines sf /\ goroutines sf <> []
             | None => goroutines sf = []
             end)
    /\ (goroutines sf = [] ->
        ParseDump env r guesspaths = Returned None (dumpError r e) out)
    /\ (forall lgopaths,
          goroutines sf <> [] ->
          getGOPATHs env = Some lgopaths -> guesspaths = false ->
          ParseDump env r guesspaths
          = Returned (Some (mkContext (goroutines sf) EmptyString None
                              (ReplaceByte (runtimeGOROOT env) "\" "/") lgopaths))
              (dumpError r e) out).
Proof.
  destruct (parseDump_summary r) as (sf & e & out & Hrun & Hd & _ & _ & _ & Hid & _).
  exists sf, e, out.
  split; [exact Hrun|]. split; [exact Hd|]. split; [exact Hid|].
  unfold ParseDump. rewrite Hd. split; [|split].
  - intros c e' o. destruct (goroutines sf) as [|g gs] eqn:Egs.
    + intros [= <- <- <-]. auto.
    + cbn [length Nat.eqb]. destruct (getGOPATHs env) as [lg|]; [|discriminate].
      destruct guesspaths.
      * destruct (findRoots env _) as [c'|] eqn:Ef; [|discriminate].
        intros [= <- <- <-]. apply findRoots_Goroutines in Ef.
        split; [reflexivity|]. split; [reflexivity|]. split; [|discriminate].
        cbn [Goroutines]. rewrite Ef.
        unfold updateLocations. apply map_id.
      * intros [= <- <- <-]. split; [reflexivity|]. split; [reflexivity|].
        split; [reflexivity|discriminate].
  - intros ->. reflexivity.
  - intros lg Hne -> ->. destruct (goroutines sf) as [|g gs]; [congruence|reflexivity].
Qed.

Lemma C8_witness :
  ParseDump hostWithToolchain junkAfterHeader false
  = Returned (Some (mkContext [running1 [] false zeroCall] EmptyString None
                      "/local" ["/home/u/go"]))
      (Some (ErrExpectedFuncAfterHeader "junk")) EmptyString.
Proof.
  destruct (C8_partial_results hostWithToolchain junkAfterHeader false)
    as (sf & e & out & Hrun & _ & _ & _ & _ & Hret).
  vm_compute in Hrun. injection Hrun as <- <- <-.
  apply (Hret ["/home/u/go"]); [discriminate|reflexivity|reflexivity].
Defined.

(** C8 as stated fails: the scan stops with an error after one goroutine,
    and on a host where [getGOPATHs] panics neither the goroutine nor the
    error is returned. *)
Lemma C8_counterexample :
  parseDump junkAfterHeader
  = Dumped [running1 [] false zeroCall] (Some (ErrExpectedFuncAfterHeader "junk"))
      EmptyString
  /\ ParseDump hostEmptyGopath junkAfterHeader false = Panicked EmptyString.
Proof. split; reflexivity. Qed.

(** ** One call of [scan], in any state and with or without race detection *)

Lemma scan_output (s s' : scanningState) (l o : string) (e : option error) :
  scan s l = Scanned s' o e -> o = EmptyString \/ (o = l /\ e = None).
Proof.
  unfold scan. destruct (lineBody s l).
  - intros [= <- <- <-]. auto.
  - intros [= <- <- <-]. auto.
  - unfold scanSwitch, notHeader, raceOperation.
    destruct (st s); repeat case_match; intros [= <- <- <-]; auto.
Qed.

Lemma safe_nonempty_cur (gs : list Goroutine) :
  gs <> [] -> exists gs0 g, gs = gs0 ++ [g].
Proof. destruct (list_snoc_cases gs) as [->|H]; [congruence|auto]. Qed.

Lemma callsOf_appendCall (c : Call) (g : Goroutine) :
  callsOf (appendCall c g) = callsOf g ++ [c].
Proof. reflexivity. Qed.

Lemma callsOf_storeLastCall (c : Call) (g : Goroutine) :
  callsOf g <> [] -> callsOf (storeLastCall c g) <> [].
Proof.
  unfold callsOf, storeLastCall, setCalls. cbn [GStack Stack.Calls].
  intros H E. apply H. apply (f_equal length) in E.
  rewrite length_insert in E. destruct (Stack.Calls (GStack g)); [reflexivity|discriminate].
Qed.

Ltac safe_leaf :=
  cbn [safe st goroutines setState setPrefix setGoroutines setRaces raceDetectionEnabled];
  repeat match goal with
  | |- _ /\ _ => split
  | |- _ ++ [_] <> [] => apply snoc_not_nil
  | |- exists gs0 g, ?a ++ [?b] = gs0 ++ [g] /\ _ => exists a, b; split; [reflexivity|]
  | |- callsOf (appendCall _ _) <> [] => rewrite callsOf_appendCall; apply snoc_not_nil
  | |- callsOf (storeLastCall _ _) <> [] => apply callsOf_storeLastCall
  end; try reflexivity; try assumption; try exact I.

Lemma scan_safe (s : scanningState) (l : string) :
  safe s ->
  exists s' o e,
    scan s l = Scanned s' o e /\ safe s'
    /\ raceDetectionEnabled s' = raceDetectionEnabled s.
Proof.
  destruct s as [rde gs x p rs]. unfold safe. cbn [st goroutines]. intros Hs.
  unfold scan. destruct (lineBody _ l) as [| t | t] eqn:Hb.
  - eexists _, _, _. split; [reflexivity|]. split; [exact Hs|reflexivity].
  - eexists _, _, _. split; [reflexivity|]. split; [exact I|reflexivity].
  - unfold scanSwitch, notHeader, raceOperation. cbn [st raceDetectionEnabled].
    destruct x;
      try (apply safe_nonempty_cur in Hs; destruct Hs as (gs0 & g & ->));
      try (destruct Hs as (gs0 & g & -> & Hc));
      rewrite ?cur_snoc;
      repeat case_match; rewrite ?storeCur_snoc;
      try (exfalso; eapply last_calls_None; [eassumption|exact Hc]);
      eexists _, _, _; (split; [reflexivity|]); safe_leaf.
Qed.

(** ** Digits and the numbers they denote *)

Lemma span_spec (p : ascii -> bool) : forall s a b,
  span p s = (a, b) -> allBytes p a = true /\ s = a +:+ b.
Proof.
  induction s as [|c s IH]; intros a b; cbn [span].
  - intros [= <- <-]. split; reflexivity.
  - destruct (p c) eqn:Hp.
    + destruct (span p s) as [a' b'] eqn:E. intros [= <- <-].
      destruct (IH _ _ eq_refl) as [H1 H2]. cbn [allBytes]. rewrite Hp, H1.
      split; [reflexivity|]. rewrite str_app_cons. congruence.
    + intros [= <- <-]. split; [reflexivity|]. rewrite str_app_nil_l. reflexivity.
Qed.

Lemma isDigit_value (c : ascii) :
  isDigit c = true -> (0 <= Z.of_nat (nat_of_ascii c) - 48 <= 9)%Z.
Proof.
  unfold isDigit, byteIn. rewrite andb_true_iff, !Nat.leb_le.
  change (nat_of_ascii "0") with 48. change (nat_of_ascii "9") with 57. lia.
Qed.

Lemma decimalDigits_digits : forall ds n,
  allBytes isDigit ds = true -> (0 <= n)%Z ->
  exists m, decimalDigits n ds = Some m /\ (n <= m)%Z.
Proof.
  induction ds as [|c ds IH]; intros n; cbn [allBytes decimalDigits].
  - intros _ Hn. exists n. split; [reflexivity|lia].
  - rewrite andb_true_iff. intros [Hc Hds] Hn. rewrite Hc.
    pose proof (isDigit_value c Hc) as Hv.
    destruct (IH (n * 10 + (Z.of_nat (nat_of_ascii c) - 48))%Z Hds) as (m & Hm & Hle);
      [lia|].
    exists m. split; [exact Hm|lia].
Qed.

Lemma Atoi_digits (ds : string) :
  allBytes isDigit ds = true ->
  (0 <= fst (Atoi ds) <= maxInt64)%Z.
Proof.
  intros Hd. unfold Atoi, maxInt64.
  assert (Hs : (match ds with
                | String c r =>
                    if Ascii.eqb c "-" then (true, r)
                    else if Ascii.eqb c "+" then (false, r) else (false, ds)
                | EmptyString => (false, ds)
                end) = (false, ds)).
  { destruct ds as [|c r]; [reflexivity|]. cbn [allBytes] in Hd.
    apply andb_true_iff in Hd as [Hc _].
    destruct (Ascii.eqb c "-") eqn:E1.
    - apply Ascii.eqb_eq in E1. subst c. discriminate Hc.
    - destruct (Ascii.eqb c "+") eqn:E2; [|reflexivity].
      apply Ascii.eqb_eq in E2. subst c. discriminate Hc. }
  rewrite Hs. destruct (isEmpty ds); [cbn; lia|].
  destruct (decimalDigits_digits ds 0 Hd) as (m & -> & Hm); [lia|].
  unfold maxInt64, minInt64.
  destruct (9223372036854775807 <? m)%Z eqn:E1; [cbn; lia|].
  apply Z.ltb_ge in E1.
  destruct (m <? -9223372036854775808)%Z eqn:E2; [apply Z.ltb_lt in E2; lia|].
  cbn. lia.
Qed.

Lemma reRoutineHeader_digits (t ws ds descr : string) :
  reRoutineHeader t = Some (ws, ds, descr) -> allBytes isDigit ds = true.
Proof.
  unfold reRoutineHeader. destruct (span isSpaceTab t) as [w r1].
  destruct (stripPrefix _ r1) as [r2|]; [|discriminate].
  destruct (span isDigit r2) as [d r3] eqn:E. apply span_spec in E as [Hd _].
  destruct (isEmpty d); [discriminate|].
  destruct (stripPrefix _ r3) as [r4|]; [|discriminate].
  destruct (span _ r4) as [x r5]. destruct (isEmpty x); [discriminate|].
  destruct (String.eqb r5 _); [|discriminate]. intros [= _ <- _]. exact Hd.
Qed.

Lemma reMinutes_digits (x ds : string) :
  reMinutes x = Some ds -> allBytes isDigit ds = true.
Proof.
  unfold reMinutes. destruct (span isDigit x) as [d r] eqn:E.
  apply span_spec in E as [Hd _]. destruct (isEmpty d); [discriminate|].
  destruct (String.eqb r _); [|discriminate]. intros [= <-]. exact Hd.
Qed.

Lemma reRaceGoroutine_digits (t ds descr : string) :
  reRaceGoroutine t = Some (ds, descr) -> allBytes isDigit ds = true.
Proof.
  unfold reRaceGoroutine. destruct (stripPrefix _ t) as [r1|]; [|discriminate].
  destruct (span isDigit r1) as [d r2] eqn:E. apply span_spec in E as [Hd _].
  destruct (isEmpty d); [discriminate|].
  repeat case_match; try discriminate; intros [= <- _]; exact Hd.
Qed.

Lemma headerModifiers_range : forall items sleep locked,
  (0 <= sleep <= maxInt64)%Z ->
  (0 <= fst (headerModifiers items sleep locked) <= maxInt64)%Z.
Proof.
  induction items as [|x items IH]; intros sleep locked Hs; cbn [headerModifiers].
  - exact Hs.
  - destruct (String.eqb x lockedToThread); [apply IH; exact Hs|].
    destruct (reMinutes x) as [ds|] eqn:E; [|apply IH; exact Hs].
    apply IH. apply Atoi_digits. eapply reMinutes_digits. exact E.
Qed.

Lemma fresh_new (idn : Z) (descr : string) (first : bool) :
  (0 <= idn <= maxInt64)%Z -> fresh (newGoroutine idn descr first).
Proof.
  intros Hid. unfold newGoroutine.
  pose proof (headerModifiers_range (tail (Split descr ", ")) 0 false) as Hm.
  destruct (headerModifiers _ _ _) as [sleep locked]. cbn [fst] in Hm.
  unfold fresh. cbn. repeat split; try apply Hm; try apply Hid; unfold maxInt64; lia.
Qed.

Lemma Atoi_ok_range (ds : string) (n : Z) (e : option error) :
  allBytes isDigit ds = true -> Atoi ds = (n, e) -> (0 <= n <= maxInt64)%Z.
Proof. intros Hd E. pose proof (Atoi_digits ds Hd) as H. rewrite E in H. exact H. Qed.

Lemma First_new (idn : Z) (descr : string) (first : bool) :
  First (newGoroutine idn descr first) = first.
Proof. unfold newGoroutine. destruct (headerModifiers _ _ _). reflexivity. Qed.

(** ** The shape of a step *)

Ltac shape_update :=
  match goal with
  | |- stepShape (?a ++ [?g]) (?a ++ [?g']) =>
      apply (step_update _ _ a g g'); reflexivity
  end.

Ltac shape_new :=
  match goal with
  | |- stepShape ?gs (?gs ++ [?g]) =>
      apply (step_new _ _ g); [reflexivity|first [reflexivity|apply First_new]|]
  end.

Lemma scan_shape (s s' : scanningState) (l o : string) (e : option error) :
  scan s l = Scanned s' o e -> stepShape (goroutines s) (goroutines s').
Proof.
  destruct s as [rde gs x p rs]. unfold scan.
  destruct (lineBody _ l) as [| t | t] eqn:Hb.
  - intros [= <- _ _]. apply step_same. reflexivity.
  - intros [= <- _ _]. apply step_same. reflexivity.
  - unfold scanSwitch, notHeader, raceOperation, cur.
    cbn [st raceDetectionEnabled goroutines].
    destruct x; repeat case_match; try discriminate;
      intros [= <- _ _];
      cbn [goroutines setState setPrefix setGoroutines setRaces storeCur];
      try (apply step_same; reflexivity);
      try (match goal with
           | H : last gs = Some _ |- _ =>
               apply last_snoc_inv in H as [gs0 ->]; rewrite insert_last_snoc;
               shape_update
           end);
      shape_new.
    + apply fresh_new. eapply Atoi_ok_range; [|eassumption].
      eapply reRoutineHeader_digits; eassumption.
    + apply fresh_new. eapply Atoi_ok_range; [|eassumption].
      eapply reRoutineHeader_digits; eassumption.
    + unfold fresh. cbn. repeat split; try (unfold maxInt64; lia);
        eapply Atoi_ok_range; try eassumption;
        eapply reRaceGoroutine_digits; eassumption.
Qed.

(** ** Runs of the machine, in any state *)

Lemma safe_initial (rde : bool) : safe (initialState rde).
Proof. exact I. Qed.

Lemma runLines_safe : forall lines s out,
  safe s ->
  exists sf err o,
    runLines s out lines = Ran sf err o /\ safe sf
    /\ raceDetectionEnabled sf = raceDetectionEnabled s.
Proof.
  induction lines as [|l lines IH]; intros s out Hs; cbn [runLines].
  - exists s, None, out. auto.
  - destruct (scan_safe s l Hs) as (s' & o & e & -> & Hs' & Hr).
    destruct e as [e|].
    + eexists _, _, _. split; [reflexivity|]. split; assumption.
    + destruct (IH s' (out +:+ o) Hs') as (sf & err & o' & -> & Hf & Hr').
      eexists _, _, _. split; [reflexivity|]. split; [assumption|congruence].
Qed.

Lemma runLines_preserves (P : list Goroutine -> Prop) :
  (forall gs gs', stepShape gs gs' -> P gs -> P gs') ->
  forall lines s out sf err o,
    runLines s out lines = Ran sf err o -> P (goroutines s) -> P (goroutines sf).
Proof.
  intros HP. induction lines as [|l lines IH]; intros s out sf err o; cbn [runLines].
  - intros [= <- _ _] H. exact H.
  - destruct (scan s l) as [s' o' e|] eqn:E; [|discriminate].
    pose proof (scan_shape _ _ _ _ _ E) as Hsh.
    destruct e as [e|].
    + intros [= <- _ _] H. eapply HP; eassumption.
    + intros Hr H. eapply IH; [exact Hr|]. eapply HP; eassumption.
Qed.

Lemma catAll_cons (l : string) (ls : list string) : catAll (l :: ls) = l +:+ catAll ls.
Proof. reflexivity. Qed.

Lemma runLines_out : forall lines s out sf err o,
  runLines s out lines = Ran sf err o ->
  exists kept, sublist kept lines /\ o = out +:+ catAll kept.
Proof.
  induction lines as [|l lines IH]; intros s out sf err o; cbn [runLines].
  - intros [= _ _ <-]. exists []. split; [constructor|].
    cbn. rewrite str_app_nil_r. reflexivity.
  - destruct (scan s l) as [s' o' e|] eqn:E; [|discriminate].
    destruct (scan_output _ _ _ _ _ E) as [->|[-> ->]].
    + rewrite str_app_nil_r. destruct e as [e|].
      * intros [= _ _ <-]. exists []. split; [apply sublist_nil_l|].
        cbn. rewrite str_app_nil_r. reflexivity.
      * intros Hr. destruct (IH _ _ _ _ _ Hr) as (kept & Hk & ->).
        exists kept. split; [apply sublist_cons; exact Hk|reflexivity].
    + intros Hr. destruct (IH _ _ _ _ _ Hr) as (kept & Hk & ->).
      exists (l :: kept). split; [apply sublist_skip; exact Hk|].
      rewrite catAll_cons, str_app_assoc. reflexivity.
Qed.

Lemma parseDump_run (r : Reader) (gs : list Goroutine) (err : option error)
    (out : string) :
  parseDump r = Dumped gs err out ->
  exists sf e,
    runLines zeroState EmptyString (inputLines r) = Ran sf e out
    /\ gs = goroutines sf /\ err = dumpError r e.
Proof.
  rewrite parseDump_runLines.
  destruct (runLines zeroState EmptyString (inputLines r)) as [sf e o|o];
    [|discriminate].
  destruct e as [e|]; intros [= <- <- <-]; exists sf; eexists; repeat split.
Qed.

Lemma parseDump_preserves (P : list Goroutine -> Prop) (r : Reader)
    (gs : list Goroutine) (err : option error) (out : string) :
  (forall gs gs', stepShape gs gs' -> P gs -> P gs') ->
  P [] ->
  parseDump r = Dumped gs err out -> P gs.
Proof.
  intros HP H0 Hd. destruct (parseDump_run _ _ _ _ Hd) as (sf & e & Hr & -> & _).
  eapply (runLines_preserves P HP); [exact Hr|exact H0].
Qed.

Lemma firstFlags_step (gs gs' : list Goroutine) :
  stepShape gs gs' -> firstFlags gs -> firstFlags gs'.
Proof.
  intros [->|gs0 g g' -> -> _ _ Hf|g -> Hf _] H i x; [apply H| |].
  - intros Hx. destruct (decide (i < length gs0)) as [Hi|Hi].
    + rewrite lookup_app_l in Hx by exact Hi.
      apply (H i). rewrite lookup_app_l by exact Hi. exact Hx.
    + rewrite lookup_app_r in Hx by lia.
      destruct (i - length gs0) as [|k] eqn:Ek; [|destruct k; discriminate].
      injection Hx as <-. rewrite Hf. apply (H i).
      rewrite lookup_app_r by lia. rewrite Ek. reflexivity.
  - intros Hx. destruct (decide (i < length gs)) as [Hi|Hi].
    + rewrite lookup_app_l in Hx by exact Hi. apply (H i). exact Hx.
    + rewrite lookup_app_r in Hx by lia.
      destruct (i - length gs) as [|k] eqn:Ek; [|destruct k; discriminate].
      injection Hx as <-. rewrite Hf. f_equal. lia.
Qed.

Lemma headerInRange_step (gs gs' : list Goroutine) :
  stepShape gs gs' -> Forall headerInRange gs -> Forall headerInRange gs'.
Proof.
  intros [->|gs0 g g' -> -> Hs Hi _|g -> _ Hfr] H; [exact H| |].
  - apply Forall_app in H as [H0 Hg]. apply Forall_app. split; [exact H0|].
    apply Forall_singleton. apply Forall_inv in Hg.
    unfold headerInRange in *. rewrite Hs, Hi. exact Hg.
  - apply Forall_app. split; [exact H|]. apply Forall_singleton.
    destruct Hfr as (_ & _ & H1 & H2 & H3). repeat split; assumption || apply H2 || apply H3.
Qed.

Lemma scan_race_off (s s' : scanningState) (l o : string) (e : option error) :
  raceDetectionEnabled s = false -> raceState (st s) = false ->
  scan s l = Scanned s' o e ->
  raceDetectionEnabled s' = false /\ raceState (st s') = false /\ races s' = races s.
Proof.
  destruct s as [rde gs x p rs]. cbn [raceDetectionEnabled st races].
  intros -> Hx. unfold scan. destruct (lineBody _ l) as [| t | t].
  - intros [= <- _ _]. auto.
  - intros [= <- _ _]. auto.
  - unfold scanSwitch, notHeader, storeCur. cbn [st raceDetectionEnabled andb].
    destruct x; try discriminate Hx;
      repeat case_match; try discriminate; intros [= <- _ _]; auto.
Qed.

Lemma runLines_race_off : forall lines s out sf err o,
  raceDetectionEnabled s = false -> raceState (st s) = false ->
  runLines s out lines = Ran sf err o ->
  raceDetectionEnabled sf = false /\ raceState (st sf) = false /\ races sf = races s.
Proof.
  induction lines as [|l lines IH]; intros s out sf err o Hr Hx; cbn [runLines].
  - intros [= <- _ _]. auto.
  - destruct (scan s l) as [s' o' e|] eqn:E; [|discriminate].
    destruct (scan_race_off _ _ _ _ _ Hr Hx E) as (Hr' & Hx' & Hrs).
    destruct e as [e|].
    + intros [= <- _ _]. auto.
    + intros Hrun. destruct (IH _ _ _ _ _ Hr' Hx' Hrun) as (? & ? & ?).
      repeat split; congruence.
Qed.

(** ** What [parseDump] and [scan] always do *)

(** X1.  [parseDump] always returns: [scan] never dereferences a nil
    goroutine nor indexes an empty list of calls, and the loop ends with
    the input.  The error it returns is nil only if the reader ended
    without error. *)
Theorem parseDump_returns (r : Reader) :
  exists gs err out,
    parseDump r = Dumped gs err out /\ (err = None -> rerr r = None).
Proof.
  destruct (parseDump_summary r) as (sf & e & out & _ & H & _).
  exists (goroutines sf), (dumpError r e), out. split; [exact H|].
  destruct e; [discriminate|]. intros E. exact E.
Qed.

(** X2.  The machine never panics, with race detection enabled or not:
    from its initial state, whatever the lines, every call of [scan]
    returns. *)
Theorem machine_never_panics (rde : bool) (lines : list string) (out : string) :
  exists sf err o,
    runLines (initialState rde) out lines = Ran sf err o
    /\ raceDetectionEnabled sf = rde.
Proof.
  destruct (runLines_safe lines (initialState rde) out (safe_initial rde))
    as (sf & err & o & H & _ & Hr).
  exists sf, err, o. split; assumption.
Qed.

(** X3.  The text that [parseDump] writes to [out] is made of lines of
    the input, in their order and unchanged; the lines of the input,
    one after the other, are the input. *)
Theorem parseDump_output_is_input_lines (r : Reader) (gs : list Goroutine)
    (err : option error) (out : string) :
  parseDump r = Dumped gs err out ->
  (exists kept, sublist kept (inputLines r) /\ out = catAll kept)
  /\ catAll (inputLines r) = data r.
Proof.
  intros Hd. split; [|apply inputLines_cat].
  destruct (parseDump_run _ _ _ _ Hd) as (sf & e & Hr & _ & _).
  destruct (runLines_out _ _ _ _ _ _ Hr) as (kept & Hk & ->).
  exists kept. split; [exact Hk|]. apply str_app_nil_l.
Qed.

Lemma parseDump_output_is_input_lines_witness :
  (exists kept, sublist kept (inputLines dumpThenStatus)
                /\ "exit status 2" +:+ nl = catAll kept)
  /\ catAll (inputLines dumpThenStatus) = data dumpThenStatus.
Proof.
  apply (parseDump_output_is_input_lines dumpThenStatus
           [running1 [callF] false zeroCall] None).
  reflexivity.
Defined.

(** X4.  One call of [scan], in any state: the text it returns is empty
    or the line it was given, and it returns no text with an error. *)
Theorem scan_returns_line_or_nothing (s s' : scanningState) (l o : string)
    (e : option error) :
  scan s l = Scanned s' o e -> o = EmptyString \/ (o = l /\ e = None).
Proof. apply scan_output. Qed.

Lemma scan_returns_line_or_nothing_witness :
  "junk" +:+ nl = EmptyString \/ ("junk" +:+ nl = "junk" +:+ nl /\ @None error = None).
Proof.
  apply (scan_returns_line_or_nothing zeroState zeroState). reflexivity.
Defined.

(** X5.  One call of [scan], in any state, leaves the goroutines as they
    are, or updates the last one without changing its signature, its id
    or its [First] flag, or appends a new goroutine that has no stack and
    no creation site yet and whose [First] flag says whether it is the
    only one. *)
Theorem scan_changes_last_goroutine_only (s s' : scanningState) (l o : string)
    (e : option error) :
  scan s l = Scanned s' o e -> stepShape (goroutines s) (goroutines s').
Proof. apply scan_shape. Qed.

Lemma scan_changes_last_goroutine_only_witness :
  stepShape (goroutines insideIndentedBlock)
    (goroutines insideIndentedBlock ++ [newGoroutine 2 "select" false]).
Proof.
  apply (scan_changes_last_goroutine_only
           (mkScanningState false (goroutines insideIndentedBlock) betweenRoutine
              EmptyString [])
           (mkScanningState false
              (goroutines insideIndentedBlock ++ [newGoroutine 2 "select" false])
              gotRoutineHeader EmptyString [])
           ("goroutine 2 [select]:" +:+ nl) EmptyString None).
  reflexivity.
Defined.

(** X6.  Of the goroutines that [parseDump] returns, the first one and
    only the first one has its [First] flag set. *)
Theorem parseDump_first_flag (r : Reader) (gs : list Goroutine)
    (err : option error) (out : string) (i : nat) (g : Goroutine) :
  parseDump r = Dumped gs err out ->
  gs !! i = Some g ->
  First g = Nat.eqb i 0.
Proof.
  intros Hd. revert i g. change (firstFlags gs).
  apply (parseDump_preserves firstFlags r gs err out);
    [exact firstFlags_step| |exact Hd].
  intros i g Hg. destruct i; discriminate Hg.
Qed.

Lemma parseDump_first_flag_witness :
  First (mkGoroutine (mkSignature "select" 3 3 false) 7 false
           (Stack.mk [callG] false) zeroCall)
  = Nat.eqb 1 0.
Proof.
  apply (parseDump_first_flag twoGoroutines
           [running1 [callF] false zeroCall;
            mkGoroutine (mkSignature "select" 3 3 false) 7 false
              (Stack.mk [callG] false) zeroCall]
           None EmptyString 1);
    reflexivity.
Defined.

(** X7.  Every goroutine that [parseDump] returns has equal [SleepMin]
    and [SleepMax], and its sleep duration and its id are non-negative
    and fit an [int]. *)
Theorem parseDump_header_in_range (r : Reader) (gs : list Goroutine)
    (err : option error) (out : string) :
  parseDump r = Dumped gs err out -> Forall headerInRange gs.
Proof.
  intros Hd.
  apply (parseDump_preserves (Forall headerInRange) r gs err out);
    [exact headerInRange_step|constructor|exact Hd].
Qed.

Lemma parseDump_header_in_range_witness :
  Forall headerInRange
    [running1 [callF] false zeroCall;
     mkGoroutine (mkSignature "select" 3 3 false) 7 false
       (Stack.mk [callG] false) zeroCall].
Proof.
  apply (parseDump_header_in_range twoGoroutines _ None EmptyString).
  reflexivity.
Defined.

(** X8.  Without race detection, as [parseDump] scans, the machine never
    enters a state of the race detector and records no race operation. *)
Theorem no_race_state_without_race_detection (lines : list string)
    (out : string) (sf : scanningState) (err : option error) (o : string) :
  runLines zeroState out lines = Ran sf err o ->
  raceDetectionEnabled sf = false /\ raceState (st sf) = false /\ races sf = [].
Proof.
  intros H. apply (runLines_race_off lines zeroState out sf err o); auto.
Qed.

Lemma no_race_state_without_race_detection_witness :
  raceDetectionEnabled zeroState = false /\ raceState (st zeroState) = false
  /\ races zeroState = [].
Proof.
  apply (no_race_state_without_race_detection raceReportStart EmptyString zeroState
           None (catAll raceReportStart)).
  reflexivity.
Defined.

(** ** Line terminators *)

Lemma sliceFrom_app_len (a b : string) : sliceFrom (len a) (a +:+ b) = b.
Proof.
  induction a as [|c a IH]; [apply str_app_nil_l|].
  rewrite str_app_cons. cbn [String.length sliceFrom]. exact IH.
Qed.

Lemma sliceTo_app_len (a b : string) : sliceTo (len a) (a +:+ b) = a.
Proof.
  induction a as [|c a IH]; [destruct b; reflexivity|].
  rewrite str_app_cons. cbn [String.length sliceTo]. rewrite IH. reflexivity.
Qed.

Lemma sliceFrom_app_le : forall (n : nat) (a b : string),
  n <= len a -> sliceFrom n (a +:+ b) = sliceFrom n a +:+ b.
Proof.
  induction n as [|n IH]; intros a b Hn; [reflexivity|].
  destruct a as [|c a]; [cbn in Hn; lia|].
  rewrite str_app_cons. cbn [sliceFrom]. apply IH. cbn in Hn. lia.
Qed.

Lemma HasSuffix_app (a b : string) : HasSuffix (a +:+ b) b = true.
Proof.
  unfold HasSuffix. rewrite len_app.
  replace (len a + len b - len b) with (len a) by lia.
  rewrite sliceFrom_app_len, String.eqb_refl, andb_true_r.
  apply Nat.leb_le. lia.
Qed.

Lemma sliceTo_app_minus (a b : string) :
  sliceTo (len (a +:+ b) - len b) (a +:+ b) = a.
Proof.
  rewrite len_app. replace (len a + len b - len b) with (len a) by lia.
  apply sliceTo_app_len.
Qed.

Lemma trimEOL_crnl (body : string) : trimEOL (body +:+ crnl) = Some body.
Proof.
  unfold trimEOL. rewrite HasSuffix_app.
  change 2 with (len crnl). rewrite sliceTo_app_minus. reflexivity.
Qed.

Lemma append_eq_last (x : string) (a b : ascii) :
  String.eqb (x +:+ String a EmptyString) (String b (String a EmptyString))
  = String.eqb x (String b EmptyString).
Proof.
  destruct x as [|c x].
  - rewrite str_app_nil_l. cbn. destruct (Ascii.eqb a b); reflexivity.
  - rewrite str_app_cons. cbn [String.eqb]. destruct (Ascii.eqb c b); [|reflexivity].
    destruct x as [|d x].
    + rewrite str_app_nil_l. cbn [String.eqb]. rewrite Ascii.eqb_refl. reflexivity.
    + rewrite str_app_cons. cbn [String.eqb]. destruct (Ascii.eqb d a); [|reflexivity].
      destruct x; reflexivity.
Qed.

Lemma HasSuffix_nl_crnl (body : string) :
  HasSuffix (body +:+ nl) crnl = HasSuffix body cr.
Proof.
  unfold HasSuffix. rewrite len_app. cbn [String.length nl crnl cr].
  destruct body as [|c body]; [reflexivity|].
  cbn [String.length].
  replace (S (len body) + 1 - 2) with (len body) by lia.
  replace (S (len body) - 1) with (len body) by lia.
  replace (2 <=? S (len body) + 1)%nat with true by (symmetry; apply Nat.leb_le; lia).
  replace (1 <=? S (len body))%nat with true by (symmetry; apply Nat.leb_le; lia).
  cbn [andb]. rewrite sliceFrom_app_le by (cbn; lia).
  apply (append_eq_last _ LF CR).
Qed.

Lemma trimEOL_nl (body : string) :
  HasSuffix body cr = false -> trimEOL (body +:+ nl) = Some body.
Proof.
  intros H. unfold trimEOL. rewrite HasSuffix_nl_crnl, H, HasSuffix_app.
  change 1 with (len nl). rewrite sliceTo_app_minus. reflexivity.
Qed.

Lemma HasSuffix_crnl_nl (s : string) :
  HasSuffix s nl = false -> HasSuffix s crnl = false.
Proof.
  intros H. destruct (HasSuffix s crnl) eqn:E; [|reflexivity].
  apply HasSuffix_split in E. rewrite E in H.
  change crnl with (cr +:+ nl) in H. rewrite <- str_app_assoc in H.
  rewrite HasSuffix_app in H. discriminate H.
Qed.

Lemma trimEOL_none (body : string) :
  HasSuffix body nl = false -> trimEOL body = None.
Proof.
  intros H. unfold trimEOL. rewrite (HasSuffix_crnl_nl _ H), H. reflexivity.
Qed.

(** What the [switch] receives, for a line that reaches it. *)
Lemma lineBody_of_trimmed (s : scanningState) (l t : string) :
  trimEOL l = Some t \/ (trimEOL l = None /\ l = t /\ st s <> normal) ->
  lineBody s l
  = if negb (isEmpty t) && negb (isEmpty (prefix s)) then
      if negb (HasPrefix t (prefix s)) then BadIndent t
      else Body (sliceFrom (len (prefix s)) t)
    else Body t.
Proof.
  unfold lineBody. intros [->|(-> & -> & Hn)]; [destruct (st s); reflexivity|].
  destruct (st s); try reflexivity. congruence.
Qed.

Lemma scanSwitch_line (s : scanningState) (l1 l2 t : string) :
  sameStep l1 l2 (scanSwitch s l1 t) (scanSwitch s l2 t).
Proof.
  unfold sameStep, scanSwitch, notHeader, raceOperation.
  destruct (st s); repeat case_match; simplify_eq; auto.
Qed.

Lemma scan_same_trimmed (s : scanningState) (l1 l2 t : string) :
  trimEOL l1 = Some t \/ (trimEOL l1 = None /\ l1 = t /\ st s <> normal) ->
  trimEOL l2 = Some t \/ (trimEOL l2 = None /\ l2 = t /\ st s <> normal) ->
  sameStep l1 l2 (scan s l1) (scan s l2).
Proof.
  intros H1 H2. unfold scan.
  rewrite (lineBody_of_trimmed s l1 t H1), (lineBody_of_trimmed s l2 t H2).
  destruct (negb (isEmpty t) && negb (isEmpty (prefix s)));
    [destruct (negb (HasPrefix t (prefix s)))|]; try apply scanSwitch_line.
  cbn. auto.
Qed.

(** X9.  [scan] treats a line that ends with a carriage return and a line
    feed as the same line ending with a line feed alone: the same state,
    the same error, and the line is returned or swallowed alike. *)
Theorem scan_crlf_as_lf (s : scanningState) (body : string) :
  HasSuffix body cr = false ->
  sameStep (body +:+ crnl) (body +:+ nl) (scan s (body +:+ crnl)) (scan s (body +:+ nl)).
Proof.
  intros H. apply (scan_same_trimmed s _ _ body); left;
    [apply trimEOL_crnl|apply trimEOL_nl; exact H].
Qed.

Lemma scan_crlf_as_lf_witness :
  sameStep ("main.g()" +:+ crnl) ("main.g()" +:+ nl)
    (scan insideIndentedBlock ("main.g()" +:+ crnl))
    (scan insideIndentedBlock ("main.g()" +:+ nl)).
Proof. apply (scan_crlf_as_lf insideIndentedBlock "main.g()"). reflexivity. Defined.

(** X10.  Inside a dump (in any state but [normal]) a last line without
    terminator is scanned as if it ended with a line feed. *)
Theorem scan_unterminated_line_in_block (s : scanningState) (body : string) :
  st s <> normal ->
  HasSuffix body nl = false -> HasSuffix body cr = false ->
  sameStep body (body +:+ nl) (scan s body) (scan s (body +:+ nl)).
Proof.
  intros Hs Hn Hc. apply (scan_same_trimmed s _ _ body).
  - right. split; [apply trimEOL_none; exact Hn|]. split; [reflexivity|exact Hs].
  - left. apply trimEOL_nl. exact Hc.
Qed.

Lemma scan_unterminated_line_in_block_witness :
  sameStep "  main.g()" ("  main.g()" +:+ nl)
    (scan insideIndentedBlock "  main.g()")
    (scan insideIndentedBlock ("  main.g()" +:+ nl)).
Proof.
  apply (scan_unterminated_line_in_block insideIndentedBlock "  main.g()");
    [discriminate|reflexivity|reflexivity].
Defined.

(** ** More on strings *)

Lemma allBytes_app (p : ascii -> bool) (a b : string) :
  allBytes p (a +:+ b) = allBytes p a && allBytes p b.
Proof.
  induction a as [|c a IH]; [rewrite str_app_nil_l; reflexivity|].
  rewrite str_app_cons. cbn [allBytes]. rewrite IH, andb_assoc. reflexivity.
Qed.

Lemma allBytes_impl (p q : ascii -> bool) (s : string) :
  (forall c, p c = true -> q c = true) -> allBytes p s = true -> allBytes q s = true.
Proof.
  intros Hpq. induction s as [|c s IH]; [reflexivity|]. cbn [allBytes].
  rewrite !andb_true_iff. intros [H1 H2]. split; [apply Hpq; exact H1|apply IH; exact H2].
Qed.

Lemma span_app (p : ascii -> bool) (a b : string) :
  allBytes p a = true -> stopsAt p b -> span p (a +:+ b) = (a, b).
Proof.
  intros Ha Hb. induction a as [|c a IH].
  - rewrite str_app_nil_l. destruct b as [|c b]; [reflexivity|].
    cbn [span]. cbn in Hb. rewrite Hb. reflexivity.
  - cbn [allBytes] in Ha. apply andb_true_iff in Ha as [Hc Ha].
    rewrite str_app_cons. cbn [span]. rewrite Hc, (IH Ha). reflexivity.
Qed.

Lemma HasPrefix_app (p s : string) : HasPrefix (p +:+ s) p = true.
Proof.
  induction p as [|c p IH]; [reflexivity|].
  rewrite str_app_cons. cbn [HasPrefix]. rewrite Ascii.eqb_refl, IH. reflexivity.
Qed.

Lemma HasPrefix_split : forall (p s : string),
  HasPrefix s p = true -> s = p +:+ sliceFrom (len p) s.
Proof.
  induction p as [|c p IH]; intros s; [intros _; rewrite str_app_nil_l; reflexivity|].
  destruct s as [|a s]; [discriminate|]. cbn [HasPrefix].
  rewrite andb_true_iff. intros [Hc Hp]. apply Ascii.eqb_eq in Hc. subst a.
  rewrite str_app_cons. cbn [String.length sliceFrom]. rewrite <- (IH s Hp). reflexivity.
Qed.

Lemma stripPrefix_app (p s : string) : stripPrefix p (p +:+ s) = Some s.
Proof. unfold stripPrefix. rewrite HasPrefix_app, sliceFrom_app_len. reflexivity. Qed.

Lemma stripPrefix_inv (p s r : string) : stripPrefix p s = Some r -> s = p +:+ r.
Proof.
  unfold stripPrefix. destruct (HasPrefix s p) eqn:E; [|discriminate].
  intros [= <-]. apply HasPrefix_split. exact E.
Qed.

Lemma isEmpty_app (a b : string) : isEmpty (a +:+ b) = isEmpty a && isEmpty b.
Proof. destruct a; [rewrite str_app_nil_l|rewrite str_app_cons]; reflexivity. Qed.

Lemma LastIndexByte_none (s : string) (c : ascii) :
  LastIndexByte s c = None <-> allBytes (isNot c) s = true.
Proof.
  induction s as [|a s IH]; [split; reflexivity|].
  cbn [LastIndexByte allBytes]. unfold isNot at 1.
  rewrite andb_true_iff, <- IH.
  destruct (LastIndexByte s c); [split; [discriminate|intros [_ H]; discriminate]|].
  destruct (Ascii.eqb a c); split; try discriminate; auto.
  intros [H _]. discriminate.
Qed.

Lemma IndexByte_none (s : string) (c : ascii) :
  IndexByte s c = None <-> allBytes (isNot c) s = true.
Proof.
  induction s as [|a s IH]; [split; reflexivity|].
  cbn [IndexByte allBytes]. unfold isNot at 1. rewrite andb_true_iff, <- IH.
  destruct (Ascii.eqb a c); [split; [discriminate|intros [H _]; discriminate]|].
  destruct (IndexByte s c); split; try discriminate; auto.
  intros [_ H]. discriminate.
Qed.

Lemma LastIndexByte_app_last (a b : string) (c : ascii) :
  LastIndexByte b c = None ->
  LastIndexByte (a +:+ String c b) c = Some (len a).
Proof.
  intros Hb. induction a as [|x a IH].
  - rewrite str_app_nil_l. cbn [LastIndexByte]. rewrite Hb, Ascii.eqb_refl. reflexivity.
  - rewrite str_app_cons. cbn [LastIndexByte String.length]. rewrite IH. reflexivity.
Qed.

Lemma LastIndexByte_split : forall (s : string) (c : ascii) (i : nat),
  LastIndexByte s c = Some i ->
  s = sliceTo i s +:+ String c (sliceFrom (S i) s)
  /\ LastIndexByte (sliceFrom (S i) s) c = None
  /\ len (sliceTo i s) = i.
Proof.
  induction s as [|a s IH]; intros c i; [discriminate|].
  cbn [LastIndexByte]. destruct (LastIndexByte s c) as [j|] eqn:E.
  - intros [= <-]. destruct (IH c j E) as (H1 & H2 & H3).
    cbn [sliceTo sliceFrom String.length]. rewrite str_app_cons.
    split; [f_equal; exact H1|]. split; [exact H2|]. rewrite H3. reflexivity.
  - destruct (Ascii.eqb a c) eqn:Ea; [|discriminate]. intros [= <-].
    apply Ascii.eqb_eq in Ea. subst a. cbn [sliceTo sliceFrom].
    rewrite str_app_nil_l. split; [reflexivity|]. split; [exact E|reflexivity].
Qed.

Lemma HasSuffix_last (a : string) (c : ascii) :
  HasSuffix (a +:+ String c EmptyString) (String c EmptyString) = true.
Proof. apply HasSuffix_app. Qed.

Lemma app_inj_l (a b c : string) : a +:+ b = a +:+ c -> b = c.
Proof.
  induction a as [|x a IH]; [rewrite !str_app_nil_l; auto|].
  rewrite !str_app_cons. intros [= H]. auto.
Qed.

Lemma len_zero (s : string) : len s = 0 -> s = EmptyString.
Proof. destruct s; [reflexivity|discriminate]. Qed.

(** ** The function line *)

Lemma reFunc_app (name args : string) :
  name <> EmptyString ->
  allBytes notNL (name +:+ args) = true ->
  IndexByte args "(" = None ->
  reFunc (name +:+ "(" +:+ args +:+ ")") = Some (name, args).
Proof.
  intros Hn Hnl Hp. unfold reFunc.
  assert (Hall : allBytes notNL (name +:+ "(" +:+ args +:+ ")") = true).
  { rewrite allBytes_app in Hnl. apply andb_true_iff in Hnl as [H1 H2].
    rewrite !allBytes_app, H1, H2. reflexivity. }
  rewrite Hall.
  replace (name +:+ "(" +:+ args +:+ ")") with ((name +:+ "(" +:+ args) +:+ ")")
    by (rewrite !str_app_assoc; reflexivity).
  rewrite HasSuffix_app. cbn [andb].
  change 1 with (len ")"). rewrite sliceTo_app_minus.
  change (name +:+ "(" +:+ args) with (name +:+ String "(" args).
  rewrite LastIndexByte_app_last
    by (apply LastIndexByte_none; apply IndexByte_none; exact Hp).
  destruct name as [|c name]; [congruence|]. cbn [String.length].
  change (S (len name)) with (len (String c name)).
  rewrite sliceTo_app_len.
  replace (sliceFrom (S (len (String c name))) (String c name +:+ String "(" args))
    with args; [reflexivity|].
  change (S (len (String c name))) with (1 + len (String c name)).
  replace (1 + len (String c name)) with (len (String c name +:+ "("))
    by (rewrite len_app; cbn; lia).
  change (String c name +:+ String "(" args) with (String c name +:+ ("(" +:+ args)).
  rewrite <- str_app_assoc, sliceFrom_app_len. reflexivity.
Qed.

Lemma reFunc_inv (s name args : string) :
  reFunc s = Some (name, args) ->
  s = name +:+ "(" +:+ args +:+ ")"
  /\ name <> EmptyString /\ allBytes notNL s = true /\ IndexByte args "(" = None.
Proof.
  unfold reFunc. destruct (allBytes notNL s) eqn:Hnl; [|discriminate].
  destruct (HasSuffix s ")") eqn:Hs; [|discriminate]. cbn [andb].
  apply HasSuffix_split in Hs. cbn [String.length] in Hs.
  destruct (LastIndexByte (sliceTo (len s - 1) s) "(") as [[|p]|] eqn:E; try discriminate.
  intros [= <- <-].
  destruct (LastIndexByte_split _ _ _ E) as (H1 & H2 & H3).
  split; [|split; [|split; [reflexivity|]]].
  - rewrite Hs at 1. rewrite H1 at 1. rewrite !str_app_assoc. reflexivity.
  - intros H0. change (sliceTo (S p) (sliceTo (len s - 1) s) = EmptyString) in H0.
    rewrite H0 in H3. discriminate H3.
  - apply IndexByte_none. apply LastIndexByte_none. exact H2.
Qed.

Lemma LastIndexByte_app_ge (a b : string) (c : ascii) :
  exists i, LastIndexByte (a +:+ String c b) c = Some i /\ len a <= i.
Proof.
  induction a as [|x a IH].
  - rewrite str_app_nil_l. cbn [LastIndexByte].
    destruct (LastIndexByte b c) as [j|]; [exists (S j)|exists 0];
      rewrite ?Ascii.eqb_refl; split; try reflexivity; cbn; lia.
  - destruct IH as (i & Hi & Hle). exists (S i). rewrite str_app_cons.
    cbn [LastIndexByte String.length]. rewrite Hi. split; [reflexivity|lia].
Qed.

Lemma reFunc_accepts (name args : string) :
  name <> EmptyString ->
  allBytes notNL (name +:+ "(" +:+ args +:+ ")") = true ->
  reFunc (name +:+ "(" +:+ args +:+ ")") <> None.
Proof.
  intros Hn Hnl. unfold reFunc. rewrite Hnl.
  replace (name +:+ "(" +:+ args +:+ ")") with ((name +:+ "(" +:+ args) +:+ ")")
    by (rewrite !str_app_assoc; reflexivity).
  rewrite HasSuffix_app. cbn [andb].
  change 1 with (len ")"). rewrite sliceTo_app_minus.
  change (name +:+ "(" +:+ args) with (name +:+ String "(" args).
  destruct (LastIndexByte_app_ge name args "(") as (i & -> & Hi).
  destruct name as [|c name]; [congruence|]. cbn [String.length] in Hi.
  destruct i as [|i]; [lia|]. discriminate.
Qed.

Lemma digitVal_nonneg (c : ascii) (d : Z) : digitVal c = Some d -> (0 <= d)%Z.
Proof.
  unfold digitVal. destruct (isDigit c) eqn:E.
  - intros [= <-]. apply isDigit_value in E. lia.
  - destruct (byteIn "a" "z" (lower c)) eqn:E2; [|discriminate]. intros [= <-].
    unfold byteIn in E2. apply andb_true_iff in E2 as [H1 _]. apply Nat.leb_le in H1.
    change (nat_of_ascii "a") with 97 in H1. lia.
Qed.

Lemma parseDigits_range (base : Z) (base0 : bool) : forall s n m,
  (0 < base)%Z -> (0 <= n <= maxUint64)%Z ->
  parseDigits base base0 n s = (m, None) -> (0 <= m <= maxUint64)%Z.
Proof.
  intros s n m Hb. revert n. induction s as [|c s IH]; intros n Hn; cbn [parseDigits].
  - intros [= <-]. exact Hn.
  - destruct (Ascii.eqb c "_" && base0); [apply IH; exact Hn|].
    destruct (digitVal c) as [d|] eqn:Ed; [|discriminate].
    apply digitVal_nonneg in Ed.
    destruct (base <=? d)%Z; [discriminate|].
    destruct (maxUint64 / base + 1 <=? n)%Z; [discriminate|].
    destruct (maxUint64 <? n * base + d)%Z eqn:E3; [discriminate|].
    apply Z.ltb_ge in E3. apply IH. split; [nia|exact E3].
Qed.

Lemma ParseUint0_range (s : string) (v : Z) :
  ParseUint0 s = (v, None) -> (0 <= v <= maxUint64)%Z.
Proof.
  unfold ParseUint0. destruct s as [|c0 r0]; [discriminate|].
  set (bd := if Ascii.eqb c0 "0" then _ else _).
  assert (Hb : (0 < fst bd)%Z).
  { subst bd. repeat case_match; cbn; lia. }
  destruct bd as [base digits]. cbn [fst] in Hb.
  destruct (parseDigits base true 0 digits) as [n err] eqn:E.
  destruct err as [e|]; [discriminate|].
  apply parseDigits_range in E; [|exact Hb|unfold maxUint64; lia].
  case_match; [discriminate|]. intros [= <-]. exact E.
Qed.

Lemma parseArgs_appends : forall items a a' ok,
  parseArgs items a = (a', ok) ->
  (exists vs, Args.Values a' = Args.Values a ++ vs /\ Forall argInRange vs)
  /\ (Args.Elided a = true -> Args.Elided a' = true).
Proof.
  induction items as [|x items IH]; intros a a' ok; cbn [parseArgs].
  - intros [= <- _]. split; [exists []; rewrite app_nil_r; auto|auto].
  - destruct (String.eqb x "...").
    + intros H. apply IH in H as [(vs & Hv & Hr) He]. cbn in *. split; eauto.
    + destruct (isEmpty x).
      * intros [= <- _]. split; [exists []; rewrite app_nil_r; auto|auto].
      * destruct (ParseUint0 x) as [v [e|]] eqn:Ev.
        -- intros [= <- _]. split; [exists []; rewrite app_nil_r; auto|auto].
        -- intros H. apply IH in H as [(vs & Hv & Hr) He]. cbn in *.
           split; [|exact He]. exists (mkArg v :: vs).
           rewrite Hv, <- app_assoc. split; [reflexivity|].
           constructor; [|exact Hr]. apply ParseUint0_range in Ev. exact Ev.
Qed.

(** X11.  [parseFunc] finds a function call in exactly the lines made of
    a non-empty name, an opening parenthesis, any text and a closing
    parenthesis, with no line feed. *)
Theorem parseFunc_recognizes_calls (c : Call) (line : string) :
  (exists c' e, parseFunc c line = (true, c', e))
  <-> (exists name args,
         name <> EmptyString
         /\ line = name +:+ "(" +:+ args +:+ ")"
         /\ allBytes notNL line = true).
Proof.
  unfold parseFunc. split.
  - intros (c' & e & H). destruct (reFunc line) as [[name args]|] eqn:E;
      [|discriminate].
    apply reFunc_inv in E as (H1 & H2 & H3 & _). exists name, args. auto.
  - intros (name & args & Hn & -> & Hnl).
    pose proof (reFunc_accepts name args Hn Hnl) as Ha.
    destruct (reFunc _) as [[n a]|]; [|congruence].
    destruct (parseArgs _ _) as [a' ok]. eauto.
Qed.

(** X12.  The name that [parseFunc] gives the call is the text before
    the last opening parenthesis of the line; the arguments are what
    stands between that parenthesis and the closing one. *)
Theorem parseFunc_name_before_last_parenthesis (c : Call) (name args : string) :
  name <> EmptyString ->
  allBytes notNL (name +:+ args) = true ->
  IndexByte args "(" = None ->
  parseFunc c (name +:+ "(" +:+ args +:+ ")")
  = (true,
     mkCall (SrcPath c) (Line c) (mkFunc name)
       (fst (parseArgs (Split args ", ") (CallArgs c))),
     if snd (parseArgs (Split args ", ") (CallArgs c)) then None
     else Some (ErrParseInt (name +:+ "(" +:+ args +:+ ")"))).
Proof.
  intros Hn Hnl Hp. unfold parseFunc. rewrite (reFunc_app name args Hn Hnl Hp).
  destruct (parseArgs _ _) as [a ok]. reflexivity.
Qed.

Lemma parseFunc_name_before_last_parenthesis_witness :
  parseFunc zeroCall ("main.(*T).f(0xc0, 0x2)")
  = (true,
     mkCall EmptyString 0 (mkFunc "main.(*T).f") (Args.mk [mkArg 192; mkArg 2] false),
     None).
Proof.
  apply (parseFunc_name_before_last_parenthesis zeroCall "main.(*T).f" "0xc0, 0x2");
    [discriminate|reflexivity|reflexivity].
Defined.

(** X13.  [parseFunc] never touches the path and the line of the call;
    the values it reads are appended to those the call has, each one a
    [uint64]; it never clears the elision flag of the arguments; and when
    it finds no function call the call is unchanged and there is no
    error. *)
Theorem parseFunc_keeps_location (c c' : Call) (line : string) (found : bool)
    (err : option error) :
  parseFunc c line = (found, c', err) ->
  SrcPath c' = SrcPath c /\ Line c' = Line c
  /\ (exists vs, Args.Values (CallArgs c') = Args.Values (CallArgs c) ++ vs
                 /\ Forall argInRange vs)
  /\ (Args.Elided (CallArgs c) = true -> Args.Elided (CallArgs c') = true)
  /\ (found = false -> c' = c /\ err = None).
Proof.
  unfold parseFunc. destruct (reFunc line) as [[name args]|].
  - destruct (parseArgs _ _) as [a ok] eqn:E. intros [= <- <- <-].
    apply parseArgs_appends in E as [Hv He]. cbn.
    split; [reflexivity|]. split; [reflexivity|]. split; [exact Hv|].
    split; [exact He|discriminate].
  - intros [= <- <- <-]. repeat split; auto.
    exists []. rewrite app_nil_r. auto.
Qed.

Lemma parseFunc_keeps_location_witness :
  SrcPath (mkCall "/a.go" 7 (mkFunc "main.f") (Args.mk [mkArg 1; mkArg 2] true)) = "/a.go"
  /\ Line (mkCall "/a.go" 7 (mkFunc "main.f") (Args.mk [mkArg 1; mkArg 2] true)) = 7%Z
  /\ exists vs, [mkArg 1; mkArg 2] = [mkArg 1] ++ vs /\ Forall argInRange vs.
Proof.
  destruct (parseFunc_keeps_location
              (mkCall "/a.go" 7 (mkFunc EmptyString) (Args.mk [mkArg 1] true))
              (mkCall "/a.go" 7 (mkFunc "main.f") (Args.mk [mkArg 1; mkArg 2] true))
              "main.f(2)" true None eq_refl) as (H1 & H2 & H3 & _).
  split; [exact H1|]. split; [exact H2|exact H3].
Defined.

(** ** The file line *)

Lemma isDigit_not_colon (c : ascii) : isDigit c = true -> isNot ":" c = true.
Proof.
  intros H. unfold isNot. destruct (Ascii.eqb c ":") eqn:E; [|reflexivity].
  apply Ascii.eqb_eq in E. subst c. discriminate H.
Qed.

Lemma isHexLower_not_colon (c : ascii) : isHexLower c = true -> isNot ":" c = true.
Proof.
  intros H. unfold isNot. destruct (Ascii.eqb c ":") eqn:E; [|reflexivity].
  apply Ascii.eqb_eq in E. subst c. discriminate H.
Qed.

Lemma isHex_no_colon (h : string) : isHex h -> allBytes (isNot ":") h = true.
Proof. intros [_ H]. eapply allBytes_impl; [exact isHexLower_not_colon|exact H]. Qed.

Lemma registers_no_colon (r : string) : registers r -> allBytes (isNot ":") r = true.
Proof.
  intros [|h1 h2 H1 H2|h1 h2 h3 H1 H2 H3]; [reflexivity| |];
    rewrite !allBytes_app, ?(isHex_no_colon _ H1), ?(isHex_no_colon _ H2),
      ?(isHex_no_colon _ H3); reflexivity.
Qed.

Lemma fileTail_no_colon (t : string) : fileTail t -> allBytes (isNot ":") t = true.
Proof.
  intros [r Hr|h r Hh Hr]; [apply registers_no_colon; exact Hr|].
  rewrite !allBytes_app, (isHex_no_colon _ Hh), (registers_no_colon _ Hr). reflexivity.
Qed.

Lemma registers_stops (p : ascii -> bool) (r : string) :
  p " "%char = false -> registers r -> stopsAt p r.
Proof. intros Hp [| |]; [exact I|exact Hp|exact Hp]. Qed.

Lemma hexField_app (pre h r : string) :
  isHex h -> stopsAt isHexLower r -> hexField pre (pre +:+ h +:+ r) = Some r.
Proof.
  intros [Hne Hh] Hr. unfold hexField. rewrite stripPrefix_app.
  rewrite (span_app _ _ _ Hh Hr). destruct h; [congruence|reflexivity].
Qed.

Lemma registers_accepted (ds r : string) :
  registers r ->
  (if isEmpty r then Some ds
   else match hexField " fp=0x" r with
        | None => None
        | Some r3 =>
            match hexField " sp=0x" r3 with
            | None => None
            | Some r4 =>
                if isEmpty r4 then Some ds
                else match hexField " pc=0x" r4 with
                     | Some r5 => if isEmpty r5 then Some ds else None
                     | None => None
                     end
            end
        end) = Some ds.
Proof.
  intros [|h1 h2 H1 H2|h1 h2 h3 H1 H2 H3]; [reflexivity| |].
  - change (isEmpty (" fp=0x" +:+ h1 +:+ " sp=0x" +:+ h2)) with false. cbv iota.
    rewrite (hexField_app " fp=0x" h1 _ H1) by reflexivity.
    replace (" sp=0x" +:+ h2) with (" sp=0x" +:+ h2 +:+ EmptyString)
      by (rewrite str_app_nil_r; reflexivity).
    rewrite (hexField_app " sp=0x" h2 _ H2) by exact I. reflexivity.
  - change (isEmpty (" fp=0x" +:+ h1 +:+ " sp=0x" +:+ h2 +:+ " pc=0x" +:+ h3)) with false.
    cbv iota.
    rewrite (hexField_app " fp=0x" h1 _ H1) by reflexivity.
    rewrite (hexField_app " sp=0x" h2 _ H2) by reflexivity.
    change (isEmpty (" pc=0x" +:+ h3)) with false. cbv iota.
    replace (" pc=0x" +:+ h3) with (" pc=0x" +:+ h3 +:+ EmptyString)
      by (rewrite str_app_nil_r; reflexivity).
    rewrite (hexField_app " pc=0x" h3 _ H3) by exact I. reflexivity.
Qed.

Lemma registers_no_offset (r : string) : registers r -> HasPrefix r " +" = false.
Proof. intros [| |]; reflexivity. Qed.

Lemma reFileTail_app (ds t : string) :
  ds <> EmptyString -> allBytes isDigit ds = true -> fileTail t ->
  reFileTail (ds +:+ t) = Some ds.
Proof.
  intros Hne Hd Ht. unfold reFileTail.
  assert (Hstop : stopsAt isDigit t).
  { destruct Ht as [r Hr|h r _ _]; [apply registers_stops; [reflexivity|exact Hr]|].
    reflexivity. }
  rewrite (span_app _ _ _ Hd Hstop).
  destruct ds as [|d ds]; [congruence|]. cbn [isEmpty].
  destruct Ht as [r Hr|h r Hh Hr].
  - rewrite (registers_no_offset _ Hr). apply registers_accepted. exact Hr.
  - change (HasPrefix (" +0x" +:+ h +:+ r) " +") with true. cbv iota.
    rewrite (hexField_app " +0x" h r Hh)
      by (apply registers_stops; [reflexivity|exact Hr]).
    apply registers_accepted. exact Hr.
Qed.

Lemma isSrcPath_nonempty (p : string) : isSrcPath p = true -> p <> EmptyString.
Proof. intros H ->. discriminate H. Qed.

Lemma pathAfterBlanks_path (p : string) :
  isSrcPath p = true -> stopsAt isSpace p -> pathAfterBlanks p = Some p.
Proof.
  intros Hp Hs. destruct p as [|c p]; [discriminate Hp|].
  cbn in Hs. unfold isSpace in Hs. cbn [pathAfterBlanks]. rewrite Hs, Hp. reflexivity.
Qed.

Lemma pathAfterBlanks_blanks (p : string) : forall ind,
  allBytes isSpace ind = true ->
  isSrcPath p = true -> stopsAt isSpace p ->
  pathAfterBlanks (ind +:+ p) = Some p.
Proof.
  induction ind as [|c ind IH]; intros Hi Hp Hs.
  - rewrite str_app_nil_l. apply pathAfterBlanks_path; assumption.
  - cbn [allBytes] in Hi. apply andb_true_iff in Hi as [Hc Hi].
    rewrite str_app_cons. cbn [pathAfterBlanks]. unfold isSpace in Hc. rewrite Hc.
    rewrite (IH Hi Hp Hs). reflexivity.
Qed.

Lemma reFile_app (ind p ds t : string) :
  fileIndent ind p -> isSrcPath p = true ->
  ds <> EmptyString -> allBytes isDigit ds = true -> fileTail t ->
  reFile (ind +:+ p +:+ ":" +:+ ds +:+ t) = Some (p, ds).
Proof.
  intros Hind Hp Hne Hd Ht. unfold reFile.
  replace (ind +:+ p +:+ ":" +:+ ds +:+ t) with ((ind +:+ p) +:+ String ":" (ds +:+ t))
    by (rewrite !str_app_assoc; reflexivity).
  rewrite LastIndexByte_app_last.
  2:{ apply LastIndexByte_none. rewrite allBytes_app, (fileTail_no_colon _ Ht).
      rewrite (allBytes_impl _ _ _ isDigit_not_colon Hd). reflexivity. }
  replace (sliceFrom (S (len (ind +:+ p))) ((ind +:+ p) +:+ String ":" (ds +:+ t)))
    with (ds +:+ t).
  2:{ change (String ":" (ds +:+ t)) with (":" +:+ (ds +:+ t)).
      rewrite <- str_app_assoc.
      replace (S (len (ind +:+ p))) with (len ((ind +:+ p) +:+ ":"))
        by (rewrite (len_app (ind +:+ p) ":"); cbn; lia).
      rewrite sliceFrom_app_len. reflexivity. }
  rewrite (reFileTail_app _ _ Hne Hd Ht), sliceTo_app_len.
  destruct Hind as [->|(Hi & Hb & Hs)].
  - unfold tab. rewrite str_app_cons, str_app_nil_l. rewrite Ascii.eqb_refl, Hp.
    reflexivity.
  - destruct ind as [|c ind]; [congruence|]. cbn [allBytes] in Hb.
    apply andb_true_iff in Hb as [Hc Hb]. unfold isSpace in Hc.
    apply Ascii.eqb_eq in Hc. subst c. rewrite str_app_cons.
    change (Ascii.eqb " " TAB) with false. cbv iota. rewrite Ascii.eqb_refl.
    rewrite (pathAfterBlanks_blanks p ind Hb Hp Hs). reflexivity.
Qed.

Lemma pathAfterBlanks_inv : forall s p,
  pathAfterBlanks s = Some p -> isSrcPath p = true.
Proof.
  induction s as [|c s IH]; intros p; [discriminate|]. cbn [pathAfterBlanks].
  destruct (Ascii.eqb c " ").
  - destruct (pathAfterBlanks s) as [q|] eqn:E.
    + intros [= <-]. apply IH. reflexivity.
    + destruct (isSrcPath (String c s)) eqn:E2; [|discriminate].
      intros [= <-]. exact E2.
  - destruct (isSrcPath (String c s)) eqn:E2; [|discriminate].
    intros [= <-]. exact E2.
Qed.

Lemma reFileTail_inv (t ds : string) :
  reFileTail t = Some ds -> ds <> EmptyString /\ allBytes isDigit ds = true.
Proof.
  unfold reFileTail. destruct (span isDigit t) as [d r] eqn:E.
  apply span_spec in E as [Hd _]. destruct (isEmpty d) eqn:Ee; [discriminate|].
  apply isEmpty_false in Ee. intros H.
  assert (ds = d) as ->; [|auto].
  repeat case_match; simplify_eq; reflexivity.
Qed.

Lemma reFile_inv (s p ds : string) :
  reFile s = Some (p, ds) ->
  isSrcPath p = true /\ ds <> EmptyString /\ allBytes isDigit ds = true.
Proof.
  unfold reFile. destruct (LastIndexByte s ":") as [i|]; [|discriminate].
  destruct (reFileTail _) as [d|] eqn:Et; [|discriminate].
  apply reFileTail_inv in Et. destruct (sliceTo i s) as [|c r]; [discriminate|].
  destruct (Ascii.eqb c TAB).
  - destruct (isSrcPath r) eqn:E; [|discriminate]. intros [= <- <-]. tauto.
  - destruct (Ascii.eqb c " "); [|discriminate].
    destruct (pathAfterBlanks r) as [q|] eqn:E; [|discriminate].
    intros [= <- <-]. apply pathAfterBlanks_inv in E. tauto.
Qed.

(** X14.  A file line as the runtime prints it is read back: after the
    indentation (a tab, or the blanks that replace it), the path (one of
    the two placeholders, or a name ending in [.go], [.c] or [.s]), a
    colon, the line number, and optionally the byte offset and the
    registers, [parseFile] gives the call that path and that number, and
    discards the rest. *)
Theorem parseFile_reads_file_line (c : Call) (ind p ds t : string) (n : Z) :
  fileIndent ind p -> isSrcPath p = true ->
  ds <> EmptyString -> allBytes isDigit ds = true -> fileTail t ->
  Atoi ds = (n, None) ->
  parseFile c (ind +:+ p +:+ ":" +:+ ds +:+ t) = (true, setLocation p n c, None).
Proof.
  intros Hind Hp Hne Hd Ht Hn. unfold parseFile.
  rewrite (reFile_app ind p ds t Hind Hp Hne Hd Ht), Hn. reflexivity.
Qed.

Lemma parseFile_reads_file_line_witness :
  parseFile (mkCall EmptyString 0 (mkFunc "main.f") Args.zero)
    ("    " +:+ "/go/src/a b.go" +:+ ":" +:+ "42" +:+ " +0x1d fp=0xc0 sp=0xb8")
  = (true, mkCall "/go/src/a b.go" 42 (mkFunc "main.f") Args.zero, None).
Proof.
  apply (parseFile_reads_file_line (mkCall EmptyString 0 (mkFunc "main.f") Args.zero)
           "    " "/go/src/a b.go" "42" " +0x1d fp=0xc0 sp=0xb8" 42).
  - right. split; [discriminate|]. split; reflexivity.
  - reflexivity.
  - discriminate.
  - reflexivity.
  - apply (tail_offset "1d" " fp=0xc0 sp=0xb8").
    + split; [discriminate|reflexivity].
    + apply (regs_fp_sp "c0" "b8"); split; (discriminate || reflexivity).
  - reflexivity.
Defined.

(** X15.  [parseFile] never touches the function and the arguments of
    the call.  When it finds no file line, or finds one whose line number
    does not fit an [int], the call is unchanged; only in the second case
    is there an error.  When it succeeds, the path is one that the
    recognizer accepts and the line number is non-negative and fits an
    [int]. *)
Theorem parseFile_keeps_function (c c' : Call) (line : string) (found : bool)
    (err : option error) :
  parseFile c line = (found, c', err) ->
  CallFunc c' = CallFunc c /\ CallArgs c' = CallArgs c
  /\ (found = false \/ err <> None -> c' = c)
  /\ (err <> None -> found = true /\ err = Some (ErrParseInt line))
  /\ (found = true -> err = None ->
      isSrcPath (SrcPath c') = true /\ (0 <= Line c' <= maxInt64)%Z).
Proof.
  unfold parseFile. destruct (reFile line) as [[p ds]|] eqn:E.
  - apply reFile_inv in E as (Hp & _ & Hd).
    destruct (Atoi ds) as [n [e|]] eqn:Ea; intros [= <- <- <-].
    + split; [reflexivity|]. split; [reflexivity|]. split; [reflexivity|].
      split; [intros _; split; reflexivity|]. intros _ H. discriminate H.
    + split; [reflexivity|]. split; [reflexivity|].
      split; [intros [H|H]; [discriminate|congruence]|].
      split; [congruence|]. intros _ _. cbn. split; [exact Hp|].
      eapply Atoi_ok_range; eassumption.
  - intros [= <- <- <-]. split; [reflexivity|]. split; [reflexivity|].
    split; [reflexivity|]. split; [congruence|]. intros H. discriminate H.
Qed.

Lemma parseFile_keeps_function_witness :
  CallFunc (mkCall "/a.go" 12 (mkFunc "main.f") Args.zero) = mkFunc "main.f"
  /\ isSrcPath "/a.go" = true /\ (0 <= 12 <= maxInt64)%Z.
Proof.
  destruct (parseFile_keeps_function
              (mkCall EmptyString 0 (mkFunc "main.f") Args.zero)
              (mkCall "/a.go" 12 (mkFunc "main.f") Args.zero)
              (tab +:+ "/a.go:12") true None eq_refl) as (H1 & _ & _ & _ & H5).
  split; [exact H1|]. apply H5; reflexivity.
Defined.

(** ** The goroutine header *)

Lemma SplitGo_no_comma (rest : string) : forall (x acc : string),
  allBytes (isNot ",") x = true ->
  SplitGo ", " 0 acc (x +:+ rest) = SplitGo ", " 0 (acc +:+ x) rest.
Proof.
  induction x as [|c x IH]; intros acc Hx.
  - rewrite str_app_nil_l, str_app_nil_r. reflexivity.
  - cbn [allBytes] in Hx. apply andb_true_iff in Hx as [Hc Hx].
    rewrite str_app_cons. cbn [SplitGo HasPrefix].
    unfold isNot in Hc. apply negb_true_iff in Hc. rewrite Hc. cbn [andb].
    rewrite (IH _ Hx), str_app_assoc. reflexivity.
Qed.

Lemma SplitGo_comma (acc rest : string) :
  SplitGo ", " 0 acc (", " +:+ rest) = acc :: SplitGo ", " 0 EmptyString rest.
Proof. reflexivity. Qed.

Lemma Split_item (x rest : string) :
  allBytes (isNot ",") x = true ->
  Split (x +:+ ", " +:+ rest) ", " = x :: Split rest ", ".
Proof.
  intros Hx. unfold Split. rewrite (SplitGo_no_comma _ _ _ Hx), SplitGo_comma.
  rewrite str_app_nil_l. reflexivity.
Qed.

Lemma Split_last (x : string) :
  allBytes (isNot ",") x = true -> Split x ", " = [x].
Proof.
  intros Hx. unfold Split. rewrite <- (str_app_nil_r x) at 1.
  rewrite (SplitGo_no_comma _ _ _ Hx), str_app_nil_l. reflexivity.
Qed.

Lemma isDigit_not_comma (c : ascii) : isDigit c = true -> isNot "," c = true.
Proof.
  intros H. unfold isNot. destruct (Ascii.eqb c ",") eqn:E; [|reflexivity].
  apply Ascii.eqb_eq in E. subst c. discriminate H.
Qed.

Lemma isDigit_not_bracket (c : ascii) : isDigit c = true -> isNot "]" c = true.
Proof.
  intros H. unfold isNot. destruct (Ascii.eqb c "]") eqn:E; [|reflexivity].
  apply Ascii.eqb_eq in E. subst c. discriminate H.
Qed.

Lemma minutes_not_locked (m : string) :
  m <> EmptyString -> allBytes isDigit m = true ->
  String.eqb (m +:+ " minutes") lockedToThread = false.
Proof.
  intros Hne Hm. destruct m as [|c m]; [congruence|].
  cbn [allBytes] in Hm. apply andb_true_iff in Hm as [Hc _].
  rewrite str_app_cons. unfold lockedToThread. cbn [String.eqb].
  destruct (Ascii.eqb c "l") eqn:E; [|reflexivity].
  apply Ascii.eqb_eq in E. subst c. discriminate Hc.
Qed.

Lemma reMinutes_app (m : string) :
  m <> EmptyString -> allBytes isDigit m = true ->
  reMinutes (m +:+ " minutes") = Some m.
Proof.
  intros Hne Hm. unfold reMinutes. rewrite (span_app _ _ _ Hm) by reflexivity.
  destruct m; [congruence|reflexivity].
Qed.

Lemma newGoroutine_descr (idn : Z) (state : string) (mins : option string)
    (locked first : bool) :
  allBytes (isNot ",") state = true ->
  (forall m, mins = Some m -> m <> EmptyString /\ allBytes isDigit m = true) ->
  newGoroutine idn (headerDescr state mins locked) first
  = mkGoroutine (mkSignature state (sleepOf mins) (sleepOf mins) locked) idn first
      Stack.zero zeroCall.
Proof.
  intros Hs Hm. unfold newGoroutine, headerDescr, sleepOf.
  destruct mins as [m|].
  - destruct (Hm m eq_refl) as [Hne Hd].
    assert (Hc : allBytes (isNot ",") (m +:+ " minutes") = true).
    { rewrite allBytes_app, (allBytes_impl _ _ _ isDigit_not_comma Hd). reflexivity. }
    destruct locked.
    + rewrite !str_app_assoc, (Split_item _ _ Hs).
      replace (m +:+ " minutes" +:+ ", locked to thread")
        with ((m +:+ " minutes") +:+ ", " +:+ "locked to thread")
        by (rewrite !str_app_assoc; reflexivity).
      rewrite (Split_item _ _ Hc), (Split_last "locked to thread") by reflexivity.
      cbn [tail hd headerModifiers].
      rewrite (minutes_not_locked _ Hne Hd), (reMinutes_app _ Hne Hd). reflexivity.
    + rewrite str_app_nil_r, ?str_app_assoc, (Split_item _ _ Hs), (Split_last _ Hc).
      cbn [tail hd headerModifiers].
      rewrite (minutes_not_locked _ Hne Hd), (reMinutes_app _ Hne Hd). reflexivity.
  - rewrite str_app_nil_l. destruct locked.
    + change ", locked to thread" with (", " +:+ "locked to thread").
      rewrite (Split_item _ _ Hs), (Split_last "locked to thread") by reflexivity.
      reflexivity.
    + rewrite str_app_nil_r, (Split_last _ Hs). reflexivity.
Qed.

Lemma headerDescr_no_bracket (state : string) (mins : option string) (locked : bool) :
  allBytes (isNot "]") state = true ->
  (forall m, mins = Some m -> m <> EmptyString /\ allBytes isDigit m = true) ->
  allBytes (isNot "]") (headerDescr state mins locked) = true.
Proof.
  intros Hs Hm. unfold headerDescr. rewrite !allBytes_app, Hs.
  destruct mins as [m|]; destruct locked; try reflexivity;
    destruct (Hm m eq_refl) as [_ Hd];
    rewrite !allBytes_app, (allBytes_impl _ _ _ isDigit_not_bracket Hd); reflexivity.
Qed.

Lemma reRoutineHeader_app (ws ds descr : string) :
  allBytes isSpaceTab ws = true ->
  ds <> EmptyString -> allBytes isDigit ds = true ->
  descr <> EmptyString -> allBytes (isNot "]") descr = true ->
  reRoutineHeader (ws +:+ "goroutine " +:+ ds +:+ " [" +:+ descr +:+ "]:")
  = Some (ws, ds, descr).
Proof.
  intros Hws Hne Hd Hne' Hb. unfold reRoutineHeader.
  rewrite (span_app _ _ _ Hws) by reflexivity.
  rewrite stripPrefix_app, (span_app _ _ _ Hd) by reflexivity.
  destruct ds as [|d ds]; [congruence|]. cbn [isEmpty].
  rewrite stripPrefix_app.
  change (fun c : ascii => negb (Ascii.eqb c "]")) with (isNot "]").
  rewrite (span_app _ _ _ Hb) by reflexivity.
  destruct descr; [congruence|reflexivity].
Qed.

Lemma HasSuffix_snoc (a : string) (c d : ascii) :
  HasSuffix (a +:+ String c EmptyString) (String d EmptyString) = Ascii.eqb c d.
Proof.
  unfold HasSuffix. rewrite len_app. cbn [String.length].
  replace (len a + 1 - 1) with (len a) by lia. rewrite sliceFrom_app_len.
  replace (1 <=? len a + 1)%nat with true by (symmetry; apply Nat.leb_le; lia).
  cbn. destruct (Ascii.eqb c d); reflexivity.
Qed.

(** The line that reaches the [switch] when it has the indentation of the
    block. *)
Lemma lineBody_indented (s : scanningState) (l t : string) :
  trimEOL l = Some (prefix s +:+ t) -> lineBody s l = Body t.
Proof.
  intros Ht. rewrite (lineBody_of_trimmed s l (prefix s +:+ t)) by (left; exact Ht).
  rewrite HasPrefix_app, sliceFrom_app_len. cbn [negb].
  destruct (prefix s) as [|c p]; [|reflexivity].
  rewrite str_app_nil_l, andb_false_r. reflexivity.
Qed.

(** X16.  A goroutine header as the runtime prints it is read back:
    outside a block, the line made of an indentation, [goroutine ], the
    id, and between brackets the state, optionally the minutes of sleep
    and the lock, starts a goroutine with that id, state, sleep duration
    (both bounds) and lock; the indentation becomes the one expected of
    the lines of the block. *)
Theorem scan_reads_goroutine_header (s : scanningState) (ws ds state : string)
    (mins : option string) (locked : bool) (n : Z) :
  st s = normal \/ st s = betweenRoutine ->
  prefix s = EmptyString ->
  allBytes isSpaceTab ws = true ->
  ds <> EmptyString -> allBytes isDigit ds = true -> Atoi ds = (n, None) ->
  state <> EmptyString -> allBytes stateByte state = true ->
  (forall m, mins = Some m -> m <> EmptyString /\ allBytes isDigit m = true) ->
  scan s (ws +:+ "goroutine " +:+ ds +:+ " [" +:+ headerDescr state mins locked
          +:+ "]:" +:+ nl)
  = Scanned (mkScanningState (raceDetectionEnabled s)
               (goroutines s
                ++ [mkGoroutine (mkSignature state (sleepOf mins) (sleepOf mins) locked)
                      n (Nat.eqb (length (goroutines s)) 0) Stack.zero zeroCall])
               gotRoutineHeader ws (races s))
      EmptyString None.
Proof.
  intros Hst Hp Hws Hne Hd Ha Hs Hb Hm.
  assert (Hc : allBytes (isNot ",") state = true).
  { eapply allBytes_impl; [|exact Hb]. intros c H. apply andb_true_iff in H. tauto. }
  assert (Hk : allBytes (isNot "]") state = true).
  { eapply allBytes_impl; [|exact Hb]. intros c H. apply andb_true_iff in H. tauto. }
  rewrite <- (newGoroutine_descr n state mins locked _ Hc Hm).
  apply (scan_header_outside s _
           (ws +:+ "goroutine " +:+ ds +:+ " [" +:+ headerDescr state mins locked +:+ "]:")
           ws ds (headerDescr state mins locked) n Hst Hp).
  - replace (ws +:+ "goroutine " +:+ ds +:+ " [" +:+ headerDescr state mins locked
             +:+ "]:" +:+ nl)
      with ((ws +:+ "goroutine " +:+ ds +:+ " [" +:+ headerDescr state mins locked
             +:+ "]:") +:+ nl)
      by (rewrite !str_app_assoc; reflexivity).
    apply trimEOL_nl.
    replace (ws +:+ "goroutine " +:+ ds +:+ " [" +:+ headerDescr state mins locked +:+ "]:")
      with ((ws +:+ "goroutine " +:+ ds +:+ " [" +:+ headerDescr state mins locked +:+ "]")
            +:+ String ":" EmptyString)
      by (rewrite !str_app_assoc; reflexivity).
    apply (HasSuffix_snoc _ ":" CR).
  - apply reRoutineHeader_app; try assumption.
    + unfold headerDescr. intros E. apply (f_equal isEmpty) in E.
      rewrite !isEmpty_app in E. destruct state; [congruence|discriminate E].
    + apply headerDescr_no_bracket; assumption.
  - exact Ha.
Qed.

Lemma scan_reads_goroutine_header_witness :
  scan zeroState ("goroutine 12 [chan receive, 5 minutes, locked to thread]:" +:+ nl)
  = Scanned (mkScanningState false
               [mkGoroutine (mkSignature "chan receive" 5 5 true) 12 true
                  Stack.zero zeroCall]
               gotRoutineHeader EmptyString [])
      EmptyString None.
Proof.
  apply (scan_reads_goroutine_header zeroState EmptyString "12" "chan receive"
           (Some "5") true 12);
    try reflexivity; try discriminate; [left; reflexivity|].
  intros m [= <-]. split; [discriminate|reflexivity].
Defined.

(** X17.  The indentation that a goroutine header sets is measured from
    the indentation of the block before it: after a block indented by
    [prefix s], a header line that has this indentation followed by [ws]
    makes [ws] alone the indentation expected of the lines that follow. *)
Theorem header_indentation_is_relative (s : scanningState) (l ht ws ds descr : string)
    (idn : Z) :
  st s = normal \/ st s = betweenRoutine ->
  trimEOL l = Some (prefix s +:+ ht) ->
  reRoutineHeader ht = Some (ws, ds, descr) ->
  Atoi ds = (idn, None) ->
  scan s l
  = Scanned (mkScanningState (raceDetectionEnabled s)
               (goroutines s ++ [newGoroutine idn descr (Nat.eqb (length (goroutines s)) 0)])
               gotRoutineHeader ws (races s))
      EmptyString None.
Proof.
  intros Hst Ht Hh Ha. unfold scan. rewrite (lineBody_indented s l ht Ht).
  unfold scanSwitch. destruct Hst as [-> | ->]; rewrite Hh, Ha; reflexivity.
Qed.

Lemma header_indentation_is_relative_witness :
  scan (mkScanningState false (goroutines insideIndentedBlock) betweenRoutine "  " [])
    ("  goroutine 2 [select]:" +:+ nl)
  = Scanned (mkScanningState false
               (goroutines insideIndentedBlock ++ [newGoroutine 2 "select" false])
               gotRoutineHeader EmptyString [])
      EmptyString None.
Proof.
  apply (header_indentation_is_relative
           (mkScanningState false (goroutines insideIndentedBlock) betweenRoutine "  " [])
           _ "goroutine 2 [select]:" EmptyString "2" "select" 2);
    try reflexivity.
  right. reflexivity.
Defined.

(** ** getFiles *)

Lemma ascii_compare_refl (a : ascii) : Ascii.compare a a = Eq.
Proof. unfold Ascii.compare. apply N.compare_refl. Qed.

Lemma ascii_compare_trans (a b c : ascii) :
  Ascii.compare a b = Lt -> Ascii.compare b c = Lt -> Ascii.compare a c = Lt.
Proof.
  unfold Ascii.compare. rewrite !N.compare_lt_iff. apply N.lt_trans.
Qed.

Lemma string_compare_refl (s : string) : String.compare s s = Eq.
Proof.
  induction s as [|c s IH]; [reflexivity|]. cbn [String.compare].
  rewrite ascii_compare_refl. exact IH.
Qed.

Lemma strLt_trans : forall a b c : string, strLt a b -> strLt b c -> strLt a c.
Proof.
  unfold strLt. induction a as [|x a IH]; intros b c.
  - destruct b as [|y b]; [discriminate|]. destruct c as [|z c]; [discriminate|].
    reflexivity.
  - destruct b as [|y b]; [discriminate|]. destruct c as [|z c].
    + intros _ H. discriminate H.
    + cbn [String.compare].
      destruct (Ascii.compare x y) eqn:Exy; try discriminate;
        destruct (Ascii.compare y z) eqn:Eyz; try discriminate.
      * apply Ascii.compare_eq_iff in Exy, Eyz. subst. rewrite ascii_compare_refl.
        apply IH.
      * apply Ascii.compare_eq_iff in Exy. subst. rewrite Eyz. reflexivity.
      * apply Ascii.compare_eq_iff in Eyz. subst. rewrite Exy. reflexivity.
      * rewrite (ascii_compare_trans _ _ _ Exy Eyz). reflexivity.
Qed.

Lemma strLt_irrefl (a : string) : ~ strLt a a.
Proof. unfold strLt. rewrite string_compare_refl. discriminate. Qed.

Lemma string_compare_gt (a b : string) : String.compare a b = Gt -> strLt b a.
Proof.
  unfold strLt. intros H. rewrite String.compare_antisym, H. reflexivity.
Qed.

Lemma insertFile_In (f x : string) (l : list string) :
  In x (insertFile f l) <-> x = f \/ In x l.
Proof.
  induction l as [|y l IH]; cbn [insertFile].
  - cbn. intuition.
  - destruct (String.compare f y) eqn:E.
    + apply String.compare_eq_iff in E. subst y. cbn. intuition.
    + cbn. intuition.
    + cbn [In]. rewrite IH. intuition.
Qed.

Lemma insertFile_HdRel (f y : string) (l : list string) :
  strLt y f -> HdRel strLt y l -> HdRel strLt y (insertFile f l).
Proof.
  intros Hyf Hl. destruct l as [|z l]; cbn [insertFile].
  - constructor. exact Hyf.
  - destruct (String.compare f z); constructor; try exact Hyf.
    + inversion Hl. assumption.
    + inversion Hl. assumption.
Qed.

Lemma insertFile_Sorted (f : string) (l : list string) :
  Sorted strLt l -> Sorted strLt (insertFile f l).
Proof.
  induction l as [|y l IH]; intros Hs; cbn [insertFile].
  - repeat constructor.
  - destruct (String.compare f y) eqn:E.
    + exact Hs.
    + constructor; [exact Hs|]. constructor. exact E.
    + inversion Hs as [|? ? Hs' Hd]. subst. constructor; [apply IH; exact Hs'|].
      apply insertFile_HdRel; [apply string_compare_gt; exact E|exact Hd].
Qed.

Lemma foldr_insertFile_Sorted (l : list string) : Sorted strLt (foldr insertFile [] l).
Proof.
  induction l as [|f l IH]; [constructor|]. cbn [foldr]. apply insertFile_Sorted. exact IH.
Qed.

Lemma foldr_insertFile_In (x : string) (l : list string) :
  In x (foldr insertFile [] l) <-> In x l.
Proof.
  induction l as [|f l IH]; [reflexivity|]. cbn [foldr In].
  rewrite insertFile_In, IH. intuition.
Qed.

(** X18.  [getFiles] returns the paths of the calls of the goroutines,
    each one once, in the byte-wise order of [sort.Strings]. *)
Theorem getFiles_sorted_without_duplicates (gs : list Goroutine) :
  StronglySorted strLt (getFiles gs)
  /\ NoDup (getFiles gs)
  /\ (forall f, In f (getFiles gs)
                <-> exists g c, In g gs /\ In c (callsOf g) /\ SrcPath c = f).
Proof.
  assert (Hs : StronglySorted strLt (getFiles gs)).
  { apply Sorted_StronglySorted; [exact strLt_trans|]. apply foldr_insertFile_Sorted. }
  split; [exact Hs|]. split.
  - induction Hs as [|a l Hl IH Ha]; constructor; [|exact IH].
    intros Hin. rewrite Forall_forall in Ha.
    apply (strLt_irrefl a). apply Ha. exact Hin.
  - intros f. unfold getFiles. rewrite foldr_insertFile_In, in_concat. split.
    + intros (l & Hl & Hf). apply in_map_iff in Hl as (g & <- & Hg).
      apply in_map_iff in Hf as (c & <- & Hc). exists g, c. auto.
    + intros (g & c & Hg & Hc & <-).
      exists (map SrcPath (Stack.Calls (GStack g))). split.
      * apply in_map_iff. exists g. auto.
      * apply in_map_iff. exists c. auto.
Qed.

(** ** splitPath *)









Lemma splitPathLoop_nil : forall (p : string) (out : list string) (s : string),
  splitPathLoop out s p = [] -> out = [] /\ s = EmptyString /\ p = EmptyString.
Proof.
  induction p as [|c p IH]; intros out s; cbn [splitPathLoop].
  - destruct s; cbn [isEmpty].
    + intros ->. auto.
    + intros H. destruct out; discriminate H.
  - destruct (negb (Ascii.eqb c "/")
              || Nat.eqb (length out) 0 && Nat.eqb (CountByte s "/") (len s)) eqn:E.
    + intros H. apply IH in H as (_ & H & _). destruct s; discriminate H.
    + destruct (negb (isEmpty s)) eqn:Es.
      * intros H. apply IH in H as (H & _ & _). destruct out; discriminate H.
      * intros H. apply IH in H as (-> & -> & _).
        cbn in E. rewrite orb_true_r in E. discriminate E.
Qed.

(** What holds of the components read so far and of the one being
    read. *)
Lemma splitPathLoop_shape : forall (p : string) (out : list string) (s : string),
  Forall (fun x => x <> EmptyString) out ->
  Forall (fun x => allBytes (isNot "/") x = true) (tail out) ->
  (out <> [] -> allBytes (isNot "/") s = true) ->
  Forall (fun x => x <> EmptyString) (splitPathLoop out s p)
  /\ Forall (fun x => allBytes (isNot "/") x = true) (tail (splitPathLoop out s p)).
Proof.
  induction p as [|c p IH]; intros out s H1 H2 H3; cbn [splitPathLoop].
  - destruct (isEmpty s) eqn:Es; [auto|]. apply isEmpty_false in Es. split.
    + apply Forall_app. auto.
    + destruct out as [|o out]; [constructor|]. cbn [tail app] in *.
      apply Forall_app. split; [exact H2|]. constructor; [|constructor].
      apply H3. discriminate.
  - destruct (negb (Ascii.eqb c "/")) eqn:Ec; cbn [orb].
    + apply IH; [exact H1|exact H2|]. intros Ho. rewrite allBytes_app, (H3 Ho).
      cbn [allBytes]. unfold isNot. rewrite Ec. reflexivity.
    + destruct (Nat.eqb (length out) 0 && Nat.eqb (CountByte s "/") (len s)) eqn:E.
      * apply IH; [exact H1|exact H2|]. intros Ho. apply andb_true_iff in E as [E _].
        destruct out; [congruence|discriminate E].
      * destruct (negb (isEmpty s)) eqn:Es.
        -- apply negb_true_iff, isEmpty_false in Es.
           apply IH; [apply Forall_app; auto| |reflexivity].
           destruct out as [|o out]; [constructor|]. cbn [tail app] in *.
           apply Forall_app. split; [exact H2|]. constructor; [|constructor].
           apply H3. discriminate.
        -- apply IH; assumption.
Qed.

(** X19.  [splitPath] gives no empty component, and no component but
    the first holds a separator; it gives no component at all only for
    the empty path. *)
Theorem splitPath_components (p : string) :
  Forall (fun x => x <> EmptyString) (splitPath p)
  /\ Forall (fun x => allBytes (isNot "/") x = true) (tail (splitPath p))
  /\ (splitPath p = [] <-> p = EmptyString).
Proof.
  destruct (splitPathLoop_shape p [] EmptyString) as [H1 H2];
    [constructor|constructor|congruence|].
  split; [exact H1|]. split; [exact H2|]. split.
  - intros H. apply splitPathLoop_nil in H. tauto.
  - intros ->. reflexivity.
Qed.




(** ** The root resolver *)




Lemma findInGopaths_local (env : Env) (parts : list string) : forall ls k l,
  findInGopaths env parts ls = Some (Some (k, l)) -> In l ls.
Proof.
  induction ls as [|x ls IH]; intros k l; cbn [findInGopaths]; [discriminate|].
  repeat case_match; try discriminate.
  - intros [= _ <-]. left. reflexivity.
  - intros [= _ <-]. left. reflexivity.
  - intros Hrec. right. eapply IH. exact Hrec.
Qed.

Lemma findRootsStep_local (env : Env) (lg : string) (lgs : list string)
    (acc acc' : string * gmap string string) (f : string) :
  findRootsStep env lg lgs acc f = Some acc' ->
  valuesIn lgs (snd acc) -> valuesIn lgs (snd acc').
Proof.
  unfold findRootsStep. destruct acc as [goroot gopaths]. cbn [snd].
  repeat case_match; try discriminate; intros [= <-]; cbn [snd];
    try (intros Hv; exact Hv).
  all: intros Hv k' v'; rewrite lookup_insert_Some; intros [[_ <-]|[_ Hl]];
    [eapply findInGopaths_local; eassumption|eapply Hv; exact Hl].
Qed.

Lemma findRootsLoop_local (env : Env) (lg : string) (lgs : list string) :
  forall files acc acc',
    findRootsLoop env lg lgs acc files = Some acc' ->
    valuesIn lgs (snd acc) -> valuesIn lgs (snd acc').
Proof.
  induction files as [|f files IH]; intros acc acc'; cbn [findRootsLoop].
  - intros [= <-] H. exact H.
  - destruct (findRootsStep env lg lgs acc f) as [acc1|] eqn:E; [|discriminate].
    intros Hl H. eapply IH; [exact Hl|]. eapply findRootsStep_local; eassumption.
Qed.

Lemma findRoots_local (env : Env) (c c' : Context) (m : gmap string string) :
  findRoots env c = Some c' -> GOPATHs c' = Some m ->
  valuesIn (localgopaths c) m /\ localgopaths c' = localgopaths c
  /\ localgoroot c' = localgoroot c.
Proof.
  unfold findRoots.
  destruct (findRootsLoop _ _ _ _ _) as [[goroot gopaths]|] eqn:E; [|discriminate].
  intros [= <-]. cbn [GOPATHs localgopaths localgoroot]. intros [= <-].
  split; [|auto]. apply (findRootsLoop_local _ _ _ _ _ _ E).
  intros k v. cbn [snd]. rewrite lookup_empty. discriminate.
Qed.


Lemma getFiles_nil_inv (gs : list Goroutine) : getFiles gs <> [] -> gs <> [].
Proof. intros H ->. apply H. reflexivity. Qed.



(** X22.  Every GOPATH that [findRoots] maps a root of the dump to is
    one of the local GOPATHs of the context. *)
Theorem findRoots_maps_to_local_gopaths (env : Env) (c c' : Context)
    (m : gmap string string) (k v : string) :
  findRoots env c = Some c' -> GOPATHs c' = Some m ->
  m !! k = Some v -> In v (localgopaths c).
Proof.
  intros Hf Hm. destruct (findRoots_local env c c' m Hf Hm) as [H _]. apply H.
Qed.

Lemma findRoots_maps_to_local_gopaths_witness :
  In "/home/u/go" (localgopaths
                     (mkContext [remoteGoroutine] EmptyString None "/local" ["/home/u/go"])).
Proof.
  apply (findRoots_maps_to_local_gopaths hostWithGopath
           (mkContext [remoteGoroutine] EmptyString None "/local" ["/home/u/go"])
           (mkContext [remoteGoroutine] EmptyString (Some {["/remote" := "/home/u/go"]})
              "/local" ["/home/u/go"])
           {["/remote" := "/home/u/go"]} "/remote" "/home/u/go").
  - vm_compute. reflexivity.
  - reflexivity.
  - apply lookup_singleton_eq.
Defined.

(** ** hasSrcPrefix, getGOPATHs and the context of ParseDump *)

Lemma allBytes_sliceTo (p : ascii -> bool) : forall (n : nat) (s : string),
  allBytes p s = true -> allBytes p (sliceTo n s) = true.
Proof.
  induction n as [|n IH]; intros s Hs; [reflexivity|].
  destruct s as [|c s]; [reflexivity|]. cbn [sliceTo allBytes] in *.
  apply andb_true_iff in Hs as [Hc Hs]. rewrite Hc, (IH _ Hs). reflexivity.
Qed.

Lemma ReplaceByte_noBackslash (s : string) : noBackslash (ReplaceByte s "\" "/").
Proof.
  unfold noBackslash. induction s as [|c s IH]; [reflexivity|].
  cbn [ReplaceByte allBytes]. rewrite IH, andb_true_r.
  destruct (Ascii.eqb c "\") eqn:E; [reflexivity|]. unfold isNot. rewrite E. reflexivity.
Qed.

Lemma gopathEntries_noBackslash (vs : list string) :
  Forall noBackslash (gopathEntries vs).
Proof.
  induction vs as [|v vs IH]; [constructor|]. cbn [gopathEntries].
  destruct (negb (isEmpty v)); [|exact IH]. constructor; [|exact IH].
  case_match; [apply allBytes_sliceTo|]; apply ReplaceByte_noBackslash.
Qed.

Lemma gopathEntries_nil (vs : list string) :
  gopathEntries vs = [] -> Forall (fun v => v = EmptyString) vs.
Proof.
  induction vs as [|v vs IH]; [constructor|]. cbn [gopathEntries].
  destruct (isEmpty v) eqn:E; cbn [negb]; [|discriminate].
  intros H. constructor; [apply isEmpty_true; exact E|apply IH; exact H].
Qed.

Lemma SplitList_empty : SplitList EmptyString = [].
Proof. reflexivity. Qed.




(** X25.  [getGOPATHs] returns at least one path, and no path it
    returns holds a backslash; it panics only when GOPATH has no
    non-empty entry, the current user is unknown and HOME is empty. *)
Theorem getGOPATHs_result (env : Env) :
  match getGOPATHs env with
  | Some l => l <> [] /\ Forall noBackslash l
  | None =>
      Forall (fun v => v = EmptyString) (SplitList (envGOPATH env))
      /\ userCurrentHome env = None /\ envHOME env = EmptyString
  end.
Proof.
  unfold getGOPATHs.
  set (out := if negb (isEmpty (envGOPATH env)) then _ else _).
  assert (Ho : Forall noBackslash out).
  { subst out. destruct (negb _); [apply gopathEntries_noBackslash|constructor]. }
  assert (Hn : out = [] -> Forall (fun v => v = EmptyString) (SplitList (envGOPATH env))).
  { subst out. destruct (isEmpty (envGOPATH env)) eqn:E; cbn [negb].
    - intros _. apply isEmpty_true in E. rewrite E. constructor.
    - apply gopathEntries_nil. }
  destruct out as [|v out]; cbn [length Nat.eqb].
  - destruct (userCurrentHome env) as [home|].
    + split; [discriminate|]. constructor; [apply ReplaceByte_noBackslash|constructor].
    + destruct (isEmpty (envHOME env)) eqn:E.
      * apply isEmpty_true in E. auto.
      * split; [discriminate|]. constructor; [apply ReplaceByte_noBackslash|constructor].
  - split; [discriminate|exact Ho].
Qed.

(** X26.  The context that [ParseDump] returns holds the local toolchain
    root with [/] as separator and the local GOPATHs of [getGOPATHs].
    Without [guesspaths] its GOROOT is empty and its GOPATHs nil; with
    [guesspaths] its GOPATHs is a map, possibly empty, whose values are
    local GOPATHs. *)
Theorem ParseDump_context (env : Env) (r : Reader) (guesspaths : bool)
    (ctx : Context) (err : option error) (out : string) :
  ParseDump env r guesspaths = Returned (Some ctx) err out ->
  localgoroot ctx = ReplaceByte (runtimeGOROOT env) "\" "/"
  /\ getGOPATHs env = Some (localgopaths ctx)
  /\ (guesspaths = false -> GOROOT ctx = EmptyString /\ GOPATHs ctx = None)
  /\ (guesspaths = true ->
      exists m, GOPATHs ctx = Some m /\ valuesIn (localgopaths ctx) m).
Proof.
  unfold ParseDump. destruct (parseDump r) as [gs e o| |]; try discriminate.
  destruct (Nat.eqb (length gs) 0); [discriminate|].
  destruct (getGOPATHs env) as [lgs|]; [|discriminate].
  destruct guesspaths.
  - destruct (findRoots env _) as [c'|] eqn:Ef; [|discriminate].
    intros [= <- _ _]. cbn [localgoroot localgopaths GOROOT GOPATHs].
    pose proof Ef as Ef'. unfold findRoots in Ef'.
    destruct (findRootsLoop _ _ _ _ _) as [[goroot gopaths]|]; [|discriminate].
    injection Ef' as <-. cbn [localgoroot localgopaths GOROOT GOPATHs].
    split; [reflexivity|]. split; [reflexivity|]. split; [discriminate|].
    intros _. exists gopaths. split; [reflexivity|].
    eapply (findRoots_local env _ _ gopaths Ef). reflexivity.
  - intros [= <- _ _]. cbn. split; [reflexivity|]. split; [reflexivity|].
    split; [auto|discriminate].
Qed.

Lemma ParseDump_context_witness :
  exists m, Some ({["/remote" := "/home/u/go"]} : gmap string string) = Some m
            /\ valuesIn ["/home/u/go"] m.
Proof.
  destruct (ParseDump_context hostWithGopath
              (mkReader (header1 +:+ "pkg/sub.F()" +:+ nl +:+ tab
                         +:+ "/remote/src/pkg/sub/file.go:12" +:+ nl) None)
              true
              (mkContext [remoteGoroutine] EmptyString
                 (Some {["/remote" := "/home/u/go"]}) "/local" ["/home/u/go"])
              None EmptyString) as (_ & _ & _ & H).
  - vm_compute. reflexivity.
  - apply H. reflexivity.
Defined.

(** ** scanLines *)

Lemma IndexByte_bound : forall (s : string) (c : ascii) (i : nat),
  IndexByte s c = Some i ->
  i < len s /\ IndexByte (sliceTo (S i) s) c = Some i.
Proof.
  induction s as [|a s IH]; intros c i; [discriminate|]. cbn [IndexByte].
  destruct (Ascii.eqb a c) eqn:E.
  - intros [= <-]. cbn [String.length sliceTo IndexByte]. rewrite E.
    split; [lia|reflexivity].
  - destruct (IndexByte s c) as [j|] eqn:Ej; [|discriminate]. intros [= <-].
    destruct (IH c j Ej) as [H1 H2].
    change (sliceTo (S (S j)) (String a s)) with (String a (sliceTo (S j) s)).
    cbn [String.length IndexByte]. rewrite E, H2. split; [lia|reflexivity].
Qed.

Lemma len_sliceTo : forall (n : nat) (s : string), n <= len s -> len (sliceTo n s) = n.
Proof.
  induction n as [|n IH]; intros s Hn; [reflexivity|].
  destruct s as [|c s]; [cbn in Hn; lia|]. cbn [sliceTo String.length].
  rewrite IH; [reflexivity|cbn in Hn; lia].
Qed.

(** X27.  A token of [scanLines] is the beginning of the data, as long
    as the advance says and not empty: no byte is dropped or changed,
    the line feed and a carriage return before it included; a line feed
    can only be its last byte. *)
Theorem scanLines_keeps_every_byte (data : string) (atEOF : bool) (adv : nat)
    (tok : string) (err : option error) :
  scanLines data atEOF = (adv, Some tok, err) ->
  err = None /\ adv = len tok /\ tok <> EmptyString
  /\ data = tok +:+ sliceFrom adv data
  /\ (IndexByte tok LF = Some (adv - 1) \/ IndexByte tok LF = None).
Proof.
  unfold scanLines.
  destruct (atEOF && Nat.eqb (len data) 0) eqn:E0; [discriminate|].
  destruct (IndexByte data LF) as [i|] eqn:Ei.
  - intros [= <- <- <-]. destruct (IndexByte_bound _ _ _ Ei) as [Hlt Hix].
    replace (i + 1) with (S i) by lia.
    assert (Hlen : len (sliceTo (S i) data) = S i) by (apply len_sliceTo; lia).
    split; [reflexivity|]. split; [symmetry; exact Hlen|].
    split; [intros E; rewrite E in Hlen; cbn in Hlen; lia|].
    split; [symmetry; apply slice_split|]. left.
    replace (S i - 1) with i by lia. exact Hix.
  - assert (Hall : forall e, (len data, Some data, @None error) = (adv, Some tok, e) ->
                     data <> EmptyString ->
                     e = None /\ adv = len tok /\ tok <> EmptyString
                     /\ data = tok +:+ sliceFrom adv data
                     /\ (IndexByte tok LF = Some (adv - 1) \/ IndexByte tok LF = None)).
    { intros e [= <- <- <-] Hne. split; [reflexivity|]. split; [reflexivity|].
      split; [exact Hne|]. rewrite sliceFrom_all, str_app_nil_r. auto. }
    destruct atEOF.
    + intros H. apply Hall; [exact H|]. intros ->. discriminate E0.
    + destruct (MaxScanTokenSize <=? Z.of_nat (len data))%Z eqn:Em; [|discriminate].
      intros H. apply Hall; [exact H|]. intros ->. discriminate Em.
Qed.

Lemma scanLines_keeps_every_byte_witness :
  @None error = None /\ 4 = len ("ab" +:+ crnl) /\ "ab" +:+ crnl <> EmptyString
  /\ "ab" +:+ crnl +:+ "cd" = ("ab" +:+ crnl) +:+ sliceFrom 4 ("ab" +:+ crnl +:+ "cd")
  /\ (IndexByte ("ab" +:+ crnl) LF = Some (4 - 1) \/ IndexByte ("ab" +:+ crnl) LF = None).
Proof.
  apply (scanLines_keeps_every_byte ("ab" +:+ crnl +:+ "cd") false 4 ("ab" +:+ crnl) None).
  reflexivity.
Defined.

(** ** Dumps of several blocks *)

Lemma setFirst_new (idn : Z) (descr : string) (b b' : bool) :
  setFirst b (newGoroutine idn descr b') = newGoroutine idn descr b.
Proof. unfold newGoroutine. destruct (headerModifiers _ _ _). reflexivity. Qed.

Lemma headerLine_first (h ws : string) (g0 : Goroutine) :
  headerLine h = Some (ws, g0) -> setFirst true g0 = g0.
Proof.
  unfold headerLine.
  destruct (trimEOL h) as [t|]; [|discriminate].
  destruct (reRoutineHeader t) as [[[ws' ds] descr]|]; [|discriminate].
  destruct (Atoi ds) as [idn [e|]]; [discriminate|].
  intros [= <- <-]. apply setFirst_new.
Qed.

Lemma scan_header_line (rde : bool) (gs : list Goroutine) (x : state)
    (rs : list raceOp) (h ws : string) (g0 : Goroutine) :
  x = normal \/ x = betweenRoutine ->
  headerLine h = Some (ws, g0) ->
  scan (mkScanningState rde gs x EmptyString rs) h
  = Scanned (mkScanningState rde (gs ++ [setFirst (Nat.eqb (length gs) 0) g0])
               gotRoutineHeader ws rs)
      EmptyString None.
Proof.
  intros Hx. unfold headerLine.
  destruct (trimEOL h) as [t|] eqn:Ht; [|discriminate].
  destruct (reRoutineHeader t) as [[[ws' ds] descr]|] eqn:Hre; [|discriminate].
  destruct (Atoi ds) as [idn [e|]] eqn:Ha; [discriminate|].
  intros [= <- <-]. rewrite setFirst_new.
  exact (scan_header_outside (mkScanningState rde gs x EmptyString rs) h t ws' ds descr
           idn Hx eq_refl Ht Hre Ha).
Qed.

Lemma run_block (rde : bool) (gs : list Goroutine) (x : state) (rs : list raceOp)
    (h ws : string) (g0 : Goroutine) (pairs : list (string * string))
    (calls : list Call) (created : option (string * string)) (cb : Call)
    (blank out : string) (more : list string) :
  x = normal \/ x = betweenRoutine ->
  headerLine h = Some (ws, g0) ->
  pairs <> [] ->
  Forall2 (fun p c => pairCall ws p = Some c) pairs calls ->
  unambiguous ws pairs ->
  createdSite ws created = Some cb ->
  trimEOL blank = Some EmptyString ->
  runLines (mkScanningState rde gs x EmptyString rs) out
    (blockLines h pairs created blank ++ more)
  = runLines (mkScanningState rde
                (gs ++ [setFirst (Nat.eqb (length gs) 0)
                          (setCreatedBy cb (setCalls calls g0))])
                betweenRoutine ws rs) out more.
Proof.
  intros Hx Hh Hne H2 Hun Hcb Hblank.
  destruct H2 as [|p c rest crest Hp H2]; [congruence|].
  destruct Hun as [Hu Hc].
  pose proof Hp as Hp'. unfold pairCall in Hp.
  destruct (funcLine ws (fst p)) as [c1|] eqn:Hf; [|discriminate].
  pose proof (headerLine_new h ws g0 Hh) as (Hcalls & Hcreated).
  set (b := Nat.eqb (length gs) 0).
  assert (Hcalls' : callsOf (setFirst b g0) = []) by exact Hcalls.
  assert (Hcreated' : CreatedBy (setFirst b g0) = zeroCall) by exact Hcreated.
  destruct created as [q|]; cbn [createdSite] in Hcb.
  - change (blockLines h (p :: rest) (Some q) blank ++ more)
      with (h :: fst p :: snd p :: (pairLines rest ++ [fst q; snd q; blank]) ++ more).
    rewrite <- app_assoc.
    cbn [runLines]. rewrite (scan_header_line rde gs x rs h ws g0 Hx Hh). cbn [runLines].
    fold b.
    rewrite (scan_first_func rde gs (setFirst b g0) ws rs _ _ Hf Hu). cbn [runLines].
    rewrite (scan_file_of_func rde gs (setFirst b g0) ws rs _ _ _ Hp).
    rewrite Hcalls', !str_app_nil_r.
    rewrite (run_pairs rde gs ws rs _ _ rest crest _ H2 Hc).
    rewrite callsOf_setCalls, setCalls_setCalls.
    change ([fst q; snd q; blank] ++ more) with (fst q :: snd q :: blank :: more).
    erewrite run_created; [|left; reflexivity|exact Hcreated'|exact Hcb].
    cbn [runLines]. rewrite (scan_blank _ _ _ _ _ _ (or_intror eq_refl) Hblank).
    rewrite str_app_nil_r. reflexivity.
  - injection Hcb as <-.
    change (blockLines h (p :: rest) None blank ++ more)
      with (h :: fst p :: snd p :: (pairLines rest ++ [blank]) ++ more).
    rewrite <- app_assoc.
    cbn [runLines]. rewrite (scan_header_line rde gs x rs h ws g0 Hx Hh). cbn [runLines].
    fold b.
    rewrite (scan_first_func rde gs (setFirst b g0) ws rs _ _ Hf Hu). cbn [runLines].
    rewrite (scan_file_of_func rde gs (setFirst b g0) ws rs _ _ _ Hp).
    rewrite Hcalls', !str_app_nil_r.
    rewrite (run_pairs rde gs ws rs _ _ rest crest _ H2 Hc).
    rewrite callsOf_setCalls, setCalls_setCalls.
    change ([blank] ++ more) with (blank :: more).
    cbn [runLines]. rewrite (scan_blank _ _ _ _ _ _ (or_introl eq_refl) Hblank).
    rewrite str_app_nil_r.
    assert (Eg : setCalls (([] ++ [c]) ++ crest) (setFirst b g0)
                 = setFirst b (setCreatedBy zeroCall (setCalls (c :: crest) g0))).
    { unfold setFirst, setCreatedBy, setCalls. cbn. rewrite Hcreated. reflexivity. }
    rewrite Eg. reflexivity.
Qed.

Lemma run_blocks (out : string) (more : list string) :
  forall (blocks : list block) (gs acc : list Goroutine),
    acc <> [] ->
    Forall2 readsAs blocks gs ->
    runLines (mkScanningState false acc betweenRoutine EmptyString []) out
      (flat_map linesOfBlock blocks ++ more)
    = runLines (mkScanningState false (acc ++ map (setFirst false) gs) betweenRoutine
                  EmptyString []) out more.
Proof.
  induction blocks as [|b blocks IH]; intros gs acc Hacc H.
  - inversion H. subst. cbn [flat_map map app]. rewrite app_nil_r. reflexivity.
  - inversion H as [|? g ? gs' Hb Hrest]. subst.
    destruct Hb as (g0 & calls & cb & Hh & Hne & H2 & Hun & Hcb & Hblank & ->).
    cbn [flat_map]. rewrite <- app_assoc. unfold linesOfBlock at 1.
    rewrite (run_block false acc betweenRoutine [] _ _ _ _ _ _ _ _ out _
               (or_intror eq_refl) Hh Hne H2 Hun Hcb Hblank).
    replace (Nat.eqb (length acc) 0) with false by (destruct acc; [congruence|reflexivity]).
    rewrite (IH gs' _ (snoc_not_nil _ _) Hrest).
    cbn [map]. rewrite <- app_assoc. reflexivity.
Qed.

(** X28.  A dump made of well-formed blocks that are not indented gives
    one goroutine for each block, in order, each with the calls and the
    creation site of its block; the first keeps its [First] flag and the
    others have it cleared; nothing is written to [out]. *)
Theorem dump_of_blocks (blocks : list block) (gs : list Goroutine) :
  blocks <> [] ->
  Forall2 readsAs blocks gs ->
  runLines zeroState EmptyString (flat_map linesOfBlock blocks)
  = Ran (mkScanningState false (firstOnly gs) betweenRoutine EmptyString [])
      None EmptyString.
Proof.
  intros Hne H. destruct H as [|b g blocks gs Hb Hrest]; [congruence|].
  destruct Hb as (g0 & calls & cb & Hh & Hp & H2 & Hun & Hcb & Hblank & ->).
  cbn [flat_map firstOnly]. unfold linesOfBlock at 1.
  unfold zeroState.
  rewrite (run_block false [] normal [] _ _ _ _ _ _ _ _ EmptyString _
             (or_introl eq_refl) Hh Hp H2 Hun Hcb Hblank).
  cbn [length Nat.eqb app].
  replace (setFirst true (setCreatedBy cb (setCalls calls g0)))
    with (setCreatedBy cb (setCalls calls g0)).
  2:{ rewrite <- (headerLine_first _ _ _ Hh) at 1. reflexivity. }
  rewrite <- (app_nil_r (flat_map linesOfBlock blocks)).
  rewrite (run_blocks EmptyString [] blocks gs [_]); [reflexivity|discriminate|exact Hrest].
Qed.

Lemma dump_of_blocks_witness :
  runLines zeroState EmptyString (flat_map linesOfBlock twoBlocks)
  = Ran (mkScanningState false
           (firstOnly
              [running1 [callF] false zeroCall;
               mkGoroutine (mkSignature "select" 3 3 false) 7 true
                 (Stack.mk [callG] false) createdByStart])
           betweenRoutine EmptyString [])
      None EmptyString.
Proof.
  apply (dump_of_blocks twoBlocks); [discriminate|].
  constructor; [|constructor; [|constructor]].
  - exists (newGoroutine 1 "running" true), [callF], zeroCall.
    repeat split; try reflexivity; try discriminate.
    + repeat constructor.
    + constructor.
  - exists (newGoroutine 7 "select, 3 minutes" true), [callG], createdByStart.
    repeat split; try reflexivity; try discriminate.
    + repeat constructor.
    + constructor.
Defined.

(** ** The report of the race detector *)

Lemma stripPrefix_nil (s : string) : stripPrefix EmptyString s = Some s.
Proof. reflexivity. Qed.

Lemma lineBody_plain (rde : bool) (gs : list Goroutine) (x : state)
    (rs : list raceOp) (l t : string) :
  trimEOL l = Some t ->
  lineBody (mkScanningState rde gs x EmptyString rs) l = Body t.
Proof. apply lineBody_no_prefix. reflexivity. Qed.

Lemma raceOperationHeader_app (previous write : bool) (h ds : string) :
  isHex h -> ds <> EmptyString -> allBytes isDigit ds = true ->
  raceOperationHeader (if previous then "Previous " else EmptyString)
    (opKind previous false) (opKind previous true) (opLine previous write h ds)
  = Some (opKind previous write, "0x" +:+ h, ds).
Proof.
  intros [Hne Hh] Hd Hds. unfold raceOperationHeader, opLine.
  assert (E : stripPrefix (if previous then "Previous " else EmptyString)
                ((if previous then "Previous " else EmptyString)
                 +:+ opKind previous write +:+ " at 0x" +:+ h +:+ " by goroutine "
                 +:+ ds +:+ ":")
              = Some (opKind previous write +:+ " at 0x" +:+ h +:+ " by goroutine "
                      +:+ ds +:+ ":")) by apply stripPrefix_app.
  rewrite E. clear E.
  assert (E : (if HasPrefix (opKind previous write +:+ " at 0x" +:+ h +:+ " by goroutine "
                             +:+ ds +:+ ":") (opKind previous false)
               then Some (opKind previous false,
                          sliceFrom (len (opKind previous false))
                            (opKind previous write +:+ " at 0x" +:+ h
                             +:+ " by goroutine " +:+ ds +:+ ":"))
               else if HasPrefix (opKind previous write +:+ " at 0x" +:+ h
                                  +:+ " by goroutine " +:+ ds +:+ ":")
                         (opKind previous true)
                    then Some (opKind previous true,
                               sliceFrom (len (opKind previous true))
                                 (opKind previous write +:+ " at 0x" +:+ h
                                  +:+ " by goroutine " +:+ ds +:+ ":"))
                    else None)
              = Some (opKind previous write,
                      " at 0x" +:+ h +:+ " by goroutine " +:+ ds +:+ ":")).
  { destruct previous, write; reflexivity. }
  rewrite E. clear E.
  rewrite stripPrefix_app, (span_app _ _ _ Hh) by reflexivity.
  destruct h as [|c h]; [congruence|]. cbn [isEmpty].
  rewrite stripPrefix_app, (span_app _ _ _ Hds) by reflexivity.
  destruct ds; [congruence|reflexivity].
Qed.

Lemma opKind_write (previous write : bool) :
  String.eqb (opKind previous write) (opKind previous true) = write.
Proof. destruct previous, write; reflexivity. Qed.

Lemma trimEOL_colon (body : string) :
  trimEOL ((body +:+ ":") +:+ nl) = Some (body +:+ ":").
Proof. apply trimEOL_nl. apply (HasSuffix_snoc body ":" CR). Qed.

Lemma reRaceGoroutine_app (ds : string) (running : bool) :
  ds <> EmptyString -> allBytes isDigit ds = true ->
  reRaceGoroutine (raceGoroutineLine ds running)
  = Some (ds, if running then "running" else "finished").
Proof.
  intros Hne Hd. unfold reRaceGoroutine, raceGoroutineLine.
  rewrite stripPrefix_app.
  rewrite (span_app _ _ _ Hd) by (destruct running; reflexivity).
  destruct ds; [congruence|]. destruct running; reflexivity.
Qed.

Lemma raceGoroutineLine_not_operation (ds : string) (running : bool) :
  reRacePreviousOperationHeader (raceGoroutineLine ds running) = None.
Proof. reflexivity. Qed.

Lemma trimEOL_raceGoroutineLine (ds : string) (running : bool) :
  trimEOL (raceGoroutineLine ds running +:+ nl) = Some (raceGoroutineLine ds running).
Proof.
  unfold raceGoroutineLine.
  replace ("Goroutine " +:+ ds
           +:+ (if running then " (running) created at:" else " (finished) created at:"))
    with (("Goroutine " +:+ ds
           +:+ (if running then " (running) created at" else " (finished) created at"))
          +:+ ":")
    by (rewrite !str_app_assoc; destruct running; reflexivity).
  apply trimEOL_colon.
Qed.

Lemma raceFuncLine_inv (l : string) (c : Call) :
  raceFuncLine l = Some c ->
  exists t, trimEOL l = Some t
            /\ parseFunc zeroCall (TrimLeft isSpaceTab t) = (true, c, None)
            /\ isEmpty t = false /\ String.eqb t raceHeaderFooter = false.
Proof.
  unfold raceFuncLine. destruct (trimEOL l) as [t|]; [|discriminate].
  destruct (parseFunc zeroCall (TrimLeft isSpaceTab t)) as [[found c'] e] eqn:E.
  destruct found; [|discriminate]. destruct e; [discriminate|]. intros [= <-].
  exists t. split; [reflexivity|]. split; [exact E|]. split.
  - destruct t; [discriminate E|reflexivity].
  - destruct (String.eqb t raceHeaderFooter) eqn:Eq; [|reflexivity].
    apply String.eqb_eq in Eq. subst t. discriminate E.
Qed.

Lemma raceFileLine_inv (l : string) (c c' : Call) :
  raceFileLine l c = Some c' ->
  exists t, trimEOL l = Some t /\ parseFile c t = (true, c', None).
Proof.
  unfold raceFileLine. destruct (trimEOL l) as [t|]; [|discriminate].
  destruct (parseFile c t) as [[found c1] e] eqn:E.
  destruct found; [|discriminate]. destruct e; [discriminate|]. intros [= <-].
  exists t. auto.
Qed.

Lemma scan_race_file (rde : bool) (gs0 : list Goroutine) (g : Goroutine)
    (cs : list Call) (c c' : Call) (rs : list raceOp) (l : string) :
  callsOf g = cs ++ [c] ->
  raceFileLine l c = Some c' ->
  scan (mkScanningState rde (gs0 ++ [g]) gotRaceGoroutineFunc EmptyString rs) l
  = Scanned (mkScanningState rde (gs0 ++ [setCalls (cs ++ [c']) g])
               gotRaceGoroutineFile EmptyString rs)
      EmptyString None.
Proof.
  intros Hc (t & Ht & Hf)%raceFileLine_inv.
  unfold scan. rewrite (lineBody_plain _ _ _ _ _ _ Ht).
  unfold scanSwitch. cbn [st]. rewrite cur_snoc.
  unfold callsOf in Hc. rewrite Hc, last_snoc, Hf, storeCur_snoc.
  unfold storeLastCall. rewrite Hc, insert_last_snoc. reflexivity.
Qed.

Lemma run_race_frames (rde : bool) (gs0 : list Goroutine) (rs : list raceOp)
    (out : string) :
  forall (frames : list (string * string)) (g : Goroutine) (c cf : Call),
    callsOf g = [c] ->
    raceFrames c frames = Some cf ->
    runLines (mkScanningState rde (gs0 ++ [g]) gotRaceGoroutineFile EmptyString rs) out
      (pairLines frames)
    = Ran (mkScanningState rde (gs0 ++ [setCalls [cf] g]) gotRaceGoroutineFile
             EmptyString rs)
        None out.
Proof.
  induction frames as [|p frames IH]; intros g c cf Hc; cbn [raceFrames].
  - intros [= <-]. cbn [pairLines flat_map runLines].
    replace (setCalls [c] g) with g; [reflexivity|].
    unfold callsOf in Hc. unfold setCalls. rewrite <- Hc.
    destruct g as [sg idn f [cs el] cb]. reflexivity.
  - destruct (raceFuncLine (fst p)) as [c0|] eqn:Ef; [|discriminate].
    destruct (raceFileLine (snd p) c) as [c'|] eqn:El; [|discriminate].
    intros Hrest. apply raceFuncLine_inv in Ef as (t & Ht & Hpf & Hne & Hfoot).
    change (pairLines (p :: frames)) with (fst p :: snd p :: pairLines frames).
    cbn [runLines].
    assert (E : scan (mkScanningState rde (gs0 ++ [g]) gotRaceGoroutineFile
                        EmptyString rs) (fst p)
                = Scanned (mkScanningState rde (gs0 ++ [g]) gotRaceGoroutineFunc
                             EmptyString rs) EmptyString None).
    { unfold scan. rewrite (lineBody_plain _ _ _ _ _ _ Ht).
      unfold scanSwitch. cbn [st]. rewrite Hne, Hfoot, Hpf. reflexivity. }
    rewrite E. cbn [runLines].
    rewrite (scan_race_file rde gs0 g [] c c' rs (snd p) Hc El). cbn [app].
    rewrite !str_app_nil_r.
    rewrite (IH (setCalls [c'] g) c' cf (callsOf_setCalls _ _) Hrest).
    rewrite setCalls_setCalls. reflexivity.
Qed.

Lemma raceFrames_keeps_function : forall (frames : list (string * string)) (c cf : Call),
  raceFrames c frames = Some cf ->
  CallFunc cf = CallFunc c /\ CallArgs cf = CallArgs c.
Proof.
  induction frames as [|p frames IH]; intros c cf; cbn [raceFrames].
  - intros [= <-]. auto.
  - destruct (raceFuncLine (fst p)); [|discriminate].
    destruct (raceFileLine (snd p) c) as [c'|] eqn:El; [|discriminate].
    intros H. apply IH in H as [H1 H2].
    apply raceFileLine_inv in El as (t & _ & Hf).
    unfold parseFile in Hf. destruct (reFile t) as [[path ds]|]; [|discriminate].
    destruct (Atoi ds) as [num [e|]]; [discriminate|]. injection Hf as <-.
    rewrite H1, H2. auto.
Qed.

(** X29.  With race detection, the header of a race operation is read
    back: after the warning (or, for a previous operation, between two
    parts of the report) the line that names the kind of the access, the
    address and the goroutine adds one race operation with that kind,
    address and id, and is swallowed. *)
Theorem scan_reads_race_operation (s : scanningState) (previous write : bool)
    (h ds : string) (a n : Z) :
  st s = (if previous then betweenRaces else gotRaceHeader) ->
  prefix s = EmptyString ->
  isHex h -> ds <> EmptyString -> allBytes isDigit ds = true ->
  ParseUint0 ("0x" +:+ h) = (a, None) -> Atoi ds = (n, None) ->
  scan s (opLine previous write h ds +:+ nl)
  = Scanned (mkScanningState (raceDetectionEnabled s) (goroutines s)
               gotRaceOperationHeader EmptyString (races s ++ [mkRaceOp write a n]))
      EmptyString None.
Proof.
  intros Hst Hp Hh Hne Hd Ha Hn.
  assert (Ht : trimEOL (opLine previous write h ds +:+ nl)
               = Some (opLine previous write h ds)).
  { unfold opLine.
    replace ((if previous then "Previous " else EmptyString)
             +:+ opKind previous write +:+ " at 0x" +:+ h +:+ " by goroutine "
             +:+ ds +:+ ":")
      with (((if previous then "Previous " else EmptyString)
             +:+ opKind previous write +:+ " at 0x" +:+ h +:+ " by goroutine " +:+ ds)
            +:+ ":")
      by (rewrite !str_app_assoc; reflexivity).
    apply trimEOL_colon. }
  unfold scan. rewrite (lineBody_no_prefix s _ _ Hp Ht).
  pose proof (raceOperationHeader_app previous write h ds Hh Hne Hd) as Hre.
  destruct s as [rde gs x p rs]. cbn [st prefix] in *. subst x p.
  unfold scanSwitch. cbn [st]. destruct previous; cbn [st].
  - unfold reRacePreviousOperationHeader.
    change "read" with (opKind true false). change "write" with (opKind true true).
    rewrite Hre. unfold raceOperation. rewrite Ha, Hn, opKind_write. reflexivity.
  - unfold reRaceOperationHeader.
    change "Read" with (opKind false false). change "Write" with (opKind false true).
    rewrite Hre. unfold raceOperation. rewrite Ha, Hn, opKind_write. reflexivity.
Qed.

Lemma scan_reads_race_operation_witness :
  scan insideRaceReport ("Previous write at 0x00c0000e4030 by goroutine 6:" +:+ nl)
  = Scanned (mkScanningState true [] gotRaceOperationHeader EmptyString
               [mkRaceOp false 49152 7; mkRaceOp true 824634654768 6])
      EmptyString None.
Proof.
  apply (scan_reads_race_operation insideRaceReport true true "00c0000e4030" "6"
           824634654768 6);
    try reflexivity; try discriminate.
  split; [discriminate|reflexivity].
Defined.

(** X30.  With race detection, the creation stack of a goroutine in a
    race report gives a goroutine with the id and the status of its
    header and a single call: the function of the first frame, with the
    file and the line of the last frame.  The function lines of the
    later frames are recognized and dropped, and each file line replaces
    the location of that one call.  All these lines are swallowed. *)
Theorem race_goroutine_keeps_one_call (s : scanningState) (ds : string)
    (running : bool) (n : Z) (f fl : string) (frames : list (string * string))
    (c c1 cf : Call) (out : string) :
  st s = betweenRaces -> prefix s = EmptyString ->
  ds <> EmptyString -> allBytes isDigit ds = true -> Atoi ds = (n, None) ->
  raceFuncLine f = Some c -> raceFileLine fl c = Some c1 ->
  raceFrames c1 frames = Some cf ->
  runLines s out ((raceGoroutineLine ds running +:+ nl) :: f :: fl :: pairLines frames)
  = Ran (mkScanningState (raceDetectionEnabled s)
           (goroutines s
            ++ [mkGoroutine
                  (mkSignature (if running then "running" else "finished") 0 0 false)
                  n (Nat.eqb (length (goroutines s)) 0) (Stack.mk [cf] false) zeroCall])
           gotRaceGoroutineFile EmptyString (races s))
      None out
  /\ CallFunc cf = CallFunc c /\ CallArgs cf = CallArgs c.
Proof.
  intros Hst Hp Hne Hd Hn Hf Hfl Hfr. split.
  - destruct s as [rde gs x p rs]. cbn [st prefix] in *. subst x p.
    cbn [raceDetectionEnabled goroutines races].
    cbn [runLines].
    assert (E : scan (mkScanningState rde gs betweenRaces EmptyString rs)
                  (raceGoroutineLine ds running +:+ nl)
                = Scanned (mkScanningState rde
                             (gs ++ [mkGoroutine
                                       (mkSignature
                                          (if running then "running" else "finished")
                                          0 0 false)
                                       n (Nat.eqb (length gs) 0) Stack.zero zeroCall])
                             gotRaceGoroutineHeader EmptyString rs)
                    EmptyString None).
    { unfold scan.
      rewrite (lineBody_plain _ _ _ _ _ _ (trimEOL_raceGoroutineLine ds running)).
      unfold scanSwitch. cbn [st].
      rewrite raceGoroutineLine_not_operation, (reRaceGoroutine_app _ _ Hne Hd), Hn.
      reflexivity. }
    rewrite E. cbn [runLines]. clear E.
    apply raceFuncLine_inv in Hf as (t & Ht & Hpf & _ & _).
    set (g := mkGoroutine _ n _ Stack.zero zeroCall).
    assert (E : scan (mkScanningState rde (gs ++ [g]) gotRaceGoroutineHeader
                        EmptyString rs) f
                = Scanned (mkScanningState rde (gs ++ [appendCall c g])
                             gotRaceGoroutineFunc EmptyString rs) EmptyString None).
    { unfold scan. rewrite (lineBody_plain _ _ _ _ _ _ Ht).
      unfold scanSwitch. cbn [st]. rewrite Hpf, cur_snoc, storeCur_snoc. reflexivity. }
    rewrite E. cbn [runLines]. clear E.
    rewrite (scan_race_file rde gs (appendCall c g) [] c c1 rs fl eq_refl Hfl).
    cbn [app]. rewrite !str_app_nil_r.
    rewrite (run_race_frames rde gs rs out frames _ c1 cf (callsOf_setCalls _ _) Hfr).
    reflexivity.
  - destruct (raceFrames_keeps_function _ _ _ Hfr) as [H1 H2].
    apply raceFileLine_inv in Hfl as (t & _ & Hpf).
    unfold parseFile in Hpf. destruct (reFile t) as [[path d]|]; [|discriminate].
    destruct (Atoi d) as [num [e|]]; [discriminate|]. injection Hpf as <-.
    rewrite H1, H2. auto.
Qed.

Lemma race_goroutine_keeps_one_call_witness :
  runLines insideRaceReport EmptyString
    (("Goroutine 7 (running) created at:" +:+ nl)
     :: ("  main.start()" +:+ nl) :: ("      /src/start.go:5 +0x10" +:+ nl)
     :: pairLines [("  main.main()" +:+ nl, "      /src/main.go:20 +0x30" +:+ nl)])
  = Ran (mkScanningState true
           [mkGoroutine (mkSignature "running" 0 0 false) 7 true
              (Stack.mk [mkCall "/src/main.go" 20 (mkFunc "main.start") Args.zero] false)
              zeroCall]
           gotRaceGoroutineFile EmptyString [mkRaceOp false 49152 7])
      None EmptyString
  /\ CallFunc (mkCall "/src/main.go" 20 (mkFunc "main.start") Args.zero)
     = CallFunc (mkCall EmptyString 0 (mkFunc "main.start") Args.zero)
  /\ CallArgs (mkCall "/src/main.go" 20 (mkFunc "main.start") Args.zero)
     = CallArgs (mkCall EmptyString 0 (mkFunc "main.start") Args.zero).
Proof.
  apply (race_goroutine_keeps_one_call insideRaceReport "7" true 7
           ("  main.start()" +:+ nl) ("      /src/start.go:5 +0x10" +:+ nl)
           [("  main.main()" +:+ nl, "      /src/main.go:20 +0x30" +:+ nl)]
           (mkCall EmptyString 0 (mkFunc "main.start") Args.zero)
           (mkCall "/src/start.go" 5 (mkFunc "main.start") Args.zero)
           (mkCall "/src/main.go" 20 (mkFunc "main.start") Args.zero)
           EmptyString);
    try reflexivity; discriminate.
Defined.
